(** * Accurate Cyber Defense information gathering tool: scanner, classifier,
      differ and monitor

    A shallow embedding of [CyberSecurityTool] (the port scanner, the
    banner classifier [get_service_name], the differ [detect_changes] and the
    monitor [start_monitoring] / [monitoring_loop]) together with the
    properties of the design document that concern them.

    Modelling conventions.
    - A Python [dict] is an association list in insertion order whose keys are
      pairwise distinct ([dict_wf]); [dict_set] overwrites in place or appends,
      as CPython does.
    - A Python [int] is a [Z].
    - A Python [str] is a [string].  Banners are decoded network text; the only
      characters whose lower-casing can produce a letter of one of the
      classifier's keywords are the ASCII capitals, so [lower] acts on
      [A-Z] and leaves every other character alone.
    - What the program reads from its environment (the clock, [ping], the
      sockets, the completion order of the worker pool, the configuration
      file, the Telegram endpoint) is an oracle of the record [Env]; every
      reading advances a tick counter, so that two readings may differ.
    - What the program does to its environment (printing, pinging, writing
      the configuration, posting to Telegram, sleeping) is appended to a
      trace of [Action]s.
    - A Python call that may raise returns a [Result]; [try ... except
      Exception] is [try_except]. *)

From Stdlib Require Import ZArith List String Ascii Bool Lia Arith.
From Stdlib Require Import DecimalString Permutation.
From Stdlib Require DecimalPos DecimalZ.
Import ListNotations.

Local Open Scope string_scope.
Local Open Scope Z_scope.

(* ================================================================== *)
(** * Python strings *)

Module PyStr.

(** [bool(s)]: a string is truthy when it is not empty. *)
Definition truthy (s : string) : bool :=
  match s with
  | EmptyString => false
  | String _ _ => true
  end.

Definition is_upper (c : ascii) : bool :=
  let n := nat_of_ascii c in (Nat.leb 65 n && Nat.leb n 90)%bool.

Definition lower_char (c : ascii) : ascii :=
  if is_upper c then ascii_of_nat (nat_of_ascii c + 32) else c.

(** [s.lower()] *)
Fixpoint lower (s : string) : string :=
  match s with
  | EmptyString => EmptyString
  | String c r => String (lower_char c) (lower r)
  end.

(** [needle in hay]: [needle] occurs in [hay] as a contiguous substring. *)
Fixpoint contains (needle hay : string) : bool :=
  match hay with
  | EmptyString => String.prefix needle EmptyString
  | String _ r => (String.prefix needle hay || contains needle r)%bool
  end.

(** Comparison of two characters up to the case of ASCII letters. *)
Definition ci_eqb (a b : ascii) : bool :=
  Ascii.eqb (lower_char a) (lower_char b).

(** [needle] is a prefix of [hay], case ignored. *)
Fixpoint ci_prefix (needle hay : string) : bool :=
  match needle with
  | EmptyString => true
  | String a n' =>
      match hay with
      | EmptyString => false
      | String b h' => (ci_eqb a b && ci_prefix n' h')%bool
      end
  end.

(** [needle] occurs somewhere in [hay], case ignored. *)
Fixpoint ci_contains (needle hay : string) : bool :=
  match hay with
  | EmptyString => ci_prefix needle EmptyString
  | String _ r => (ci_prefix needle hay || ci_contains needle r)%bool
  end.

(** [str(n)] for an integer. *)
Definition of_int (n : Z) : string := NilEmpty.string_of_int (Z.to_int n).

End PyStr.

(* ================================================================== *)
(** * Python dictionaries *)

Definition dict (K V : Type) : Type := list (K * V).

Section Dict.
Context {K V : Type}.
Variable eqb : K -> K -> bool.

(** [d.get(k)] *)
Fixpoint dict_get (d : dict K V) (k : K) : option V :=
  match d with
  | [] => None
  | (k', v) :: r => if eqb k k' then Some v else dict_get r k
  end.

(** [d.get(k, dflt)] *)
Definition dict_get_default (d : dict K V) (k : K) (dflt : V) : V :=
  match dict_get d k with
  | Some v => v
  | None => dflt
  end.

(** [k in d] *)
Definition dict_mem (k : K) (d : dict K V) : bool :=
  match dict_get d k with
  | Some _ => true
  | None => false
  end.

(** [d[k] = v]: the value of an existing key is replaced where it stands,
    a new key goes to the end. *)
Fixpoint dict_set (d : dict K V) (k : K) (v : V) : dict K V :=
  match d with
  | [] => [(k, v)]
  | (k', v') :: r =>
      if eqb k k' then (k', v) :: r else (k', v') :: dict_set r k v
  end.

(** [del d[k]] for a key that is present. *)
Fixpoint dict_del (d : dict K V) (k : K) : dict K V :=
  match d with
  | [] => []
  | (k', v') :: r => if eqb k k' then r else (k', v') :: dict_del r k
  end.

(** [d.keys()] and [d.items()], in insertion order. *)
Definition dict_keys (d : dict K V) : list K := map fst d.
Definition dict_items (d : dict K V) : list (K * V) := d.

(** The keys of a dictionary are pairwise distinct. *)
Definition dict_wf (d : dict K V) : Prop := NoDup (dict_keys d).

End Dict.

(* ================================================================== *)
(** * The static port table *)

(** [COMMON_SERVICES], in source order. *)
Definition COMMON_SERVICES : dict Z string :=
  [ (7, "echo"); (20, "ftp-data"); (21, "ftp"); (22, "ssh"); (23, "telnet");
    (25, "smtp"); (43, "whois"); (53, "dns"); (67, "dhcp"); (68, "dhcp");
    (69, "tftp"); (80, "http"); (110, "pop3"); (115, "sftp"); (119, "nntp");
    (123, "ntp"); (137, "netbios-ns"); (138, "netbios-dgm");
    (139, "netbios-ssn"); (143, "imap"); (161, "snmp"); (179, "bgp");
    (194, "irc"); (389, "ldap"); (443, "https"); (445, "smb");
    (514, "syslog"); (515, "printer"); (587, "smtps"); (631, "ipp");
    (636, "ldaps"); (993, "imaps"); (995, "pop3s"); (1080, "socks");
    (1194, "openvpn"); (1433, "mssql"); (1723, "pptp"); (1900, "upnp");
    (2082, "cpanel"); (2083, "cpanel-ssl"); (2086, "whm"); (2087, "whm-ssl");
    (2095, "webmail"); (2096, "webmail-ssl"); (2181, "zookeeper");
    (2375, "docker"); (2376, "docker-ssl"); (2483, "oracle");
    (2484, "oracle-ssl"); (3000, "nodejs"); (3306, "mysql"); (3389, "rdp");
    (5432, "postgresql"); (5500, "vnc"); (5601, "kibana"); (5672, "amqp");
    (5900, "vnc"); (5938, "teamviewer"); (6379, "redis");
    (6443, "kubernetes"); (6666, "irc"); (6667, "irc"); (8000, "http-alt");
    (8008, "http-alt"); (8080, "http-proxy"); (8081, "http-alt");
    (8443, "https-alt"); (8888, "http-alt"); (9000, "php-fpm");
    (9042, "cassandra"); (9092, "kafka"); (9200, "elasticsearch");
    (9300, "elasticsearch"); (11211, "memcached"); (27017, "mongodb");
    (27018, "mongodb"); (27019, "mongodb"); (28017, "mongodb");
    (50000, "db2") ].

(* ================================================================== *)
(** * The classifier *)

(** [CyberSecurityTool.get_service_name] *)
Definition get_service_name (port : Z) (banner : string) : string :=
  let service := dict_get_default Z.eqb COMMON_SERVICES port "unknown" in
  if PyStr.truthy banner then
    let banner_lower := PyStr.lower banner in
    if PyStr.contains "ssh" banner_lower then "ssh"
    else if PyStr.contains "http" banner_lower then
      (if negb (port =? 443) then "http" else "https")
    else if PyStr.contains "smtp" banner_lower then "smtp"
    else if PyStr.contains "ftp" banner_lower then "ftp"
    else if PyStr.contains "mysql" banner_lower then "mysql"
    else service
  else service.

(** ** The classifier as the design document words it

    A base label from the static table, then a fixed, ordered list of
    keyword rules matched against the banner without regard to case; the
    first rule that matches overrides the base label. *)

Record Rule := mkRule { rule_keyword : string; rule_label : Z -> string }.

Definition refinement_rules : list Rule :=
  [ mkRule "ssh" (fun _ => "ssh");
    mkRule "http" (fun port => if port =? 443 then "https" else "http");
    mkRule "smtp" (fun _ => "smtp");
    mkRule "ftp" (fun _ => "ftp");
    mkRule "mysql" (fun _ => "mysql") ].

Definition first_matching_rule (banner : string) : option Rule :=
  find (fun r => PyStr.ci_contains (rule_keyword r) banner) refinement_rules.

Definition base_label (port : Z) : string :=
  match dict_get Z.eqb COMMON_SERVICES port with
  | Some label => label
  | None => "unknown"
  end.

Definition classify_by_rules (port : Z) (banner : string) : string :=
  match first_matching_rule banner with
  | Some r => rule_label r port
  | None => base_label port
  end.


(* ================================================================== *)
(** * Exceptions and results *)

(** The exceptions of the program, all of them subclasses of [Exception]. *)
Inductive Exception : Type :=
| OSError (msg : string)      (* refused, unreachable, no route, too many files *)
| TimeoutError (msg : string) (* [socket.timeout] *)
| gaierror (msg : string)     (* name resolution failed *)
| ValueError (msg : string)
| KeyError (key : string)
| RequestException (msg : string).

(** [str(e)] *)
Definition exn_str (e : Exception) : string :=
  match e with
  | OSError m | TimeoutError m | gaierror m | ValueError m
  | RequestException m => m
  | KeyError k => "'" ++ k ++ "'"
  end.

Inductive Result (A : Type) : Type :=
| Ok (a : A)
| Raise (e : Exception).

Arguments Ok {A} a.
Arguments Raise {A} e.

Definition bindR {A B} (r : Result A) (k : A -> Result B) : Result B :=
  match r with
  | Ok a => k a
  | Raise e => Raise e
  end.

(** [try: body except Exception: handler], without state. *)
Definition try_exceptR {A} (body : Result A) (handler : Exception -> Result A)
  : Result A :=
  match body with
  | Ok a => Ok a
  | Raise e => handler e
  end.

(* ================================================================== *)
(** * The probe *)

(** What the operating system answers to the calls made on the socket of
    one probe.  [sock_recv_text] is the value of
    [s.recv(1024).decode('utf-8', errors='ignore').strip()]. *)
Record Socket : Type := mkSocket {
  sock_open : Result unit;
  sock_settimeout : Z -> Result unit;
  sock_connect_ex : Result Z;
  sock_send : Result unit;
  sock_recv_text : Result string
}.

(** The inner [try ... except: pass] of [scan_port]: [Some] is its early
    [return True, banner], [None] falls through to [return True, ""]. *)
Definition read_banner (s : Socket) : option (bool * string) :=
  match
    try_exceptR
      (bindR (sock_send s) (fun _ =>
       bindR (sock_recv_text s) (fun banner =>
       if PyStr.truthy banner then Ok (Some (true, banner)) else Ok None)))
      (fun _ => Ok None)
  with
  | Ok r => r
  | Raise _ => None
  end.

(** [CyberSecurityTool.scan_port]; [timeout] is [self.config["timeout"]]. *)
Definition scan_port (s : Socket) (timeout : Z) : Result (bool * string) :=
  try_exceptR
    (bindR (sock_open s) (fun _ =>
     bindR (sock_settimeout s timeout) (fun _ =>
     bindR (sock_connect_ex s) (fun result =>
     if result =? 0 then
       match read_banner s with
       | Some r => Ok r
       | None => Ok (true, "")
       end
     else Ok (false, "")))))
    (fun _ => Ok (false, "")).

(** The handshake of a probe succeeds. *)
Definition connects (s : Socket) (timeout : Z) : bool :=
  match sock_open s, sock_settimeout s timeout, sock_connect_ex s with
  | Ok _, Ok _, Ok code => code =? 0
  | _, _, _ => false
  end.

(* ================================================================== *)
(** * State of the tool and of its environment *)

Record Telegram : Type := mkTelegram {
  token : string;
  chat_id : string;
  enabled : bool
}.

(** [self.config]; its ["monitored_ips"] entry is never read or written. *)
Record Config : Type := mkConfig {
  scan_interval : Z;
  timeout : Z;
  max_workers : Z;
  telegram : Telegram
}.

Definition DEFAULT_CONFIG : Config :=
  mkConfig 300 2 50 (mkTelegram "" "" false).

(** An entry of a snapshot. *)
Record PortInfo : Type := mkPortInfo {
  service : string;
  banner : string;
  timestamp : string
}.

Definition Scan : Type := dict Z PortInfo.

(** A change event: a dictionary whose ["type"] decides its other keys. *)
Inductive Change : Type :=
| port_opened (port : Z) (svc : string) (time message : string)
| port_closed (port : Z) (svc : string) (time message : string)
| service_change (port : Z) (old_service new_service : string)
    (time message : string).

Definition change_message (c : Change) : string :=
  match c with
  | port_opened _ _ _ m | port_closed _ _ _ m | service_change _ _ _ _ m => m
  end.

Definition change_port (c : Change) : Z :=
  match c with
  | port_opened p _ _ _ | port_closed p _ _ _ | service_change p _ _ _ _ => p
  end.

(** A value of [self.monitored_ips]. *)
Record Monitored : Type := mkMonitored {
  last_scan : Scan;
  changes : list Change;
  start_time : string
}.

(** What the program does to the outside. *)
Inductive Action : Type :=
| Print (line : string)
| Ping (ip : string)
| WriteConfig (c : Config)
| TelegramPost (bot_token chat text : string)
| Sleep (seconds : Z).

(** The object [self], the number of readings of the environment made so
    far, and the trace of the actions performed. *)
Record State : Type := mkState {
  config : Config;
  monitored_ips : dict string Monitored;
  scanning_active : bool;
  history : list string;
  ticks : nat;
  trace : list Action
}.

(** What the environment answers; the first argument is the tick at which
    it is asked. *)
Record Env : Type := mkEnv {
  env_strftime : nat -> string;         (* now().strftime("%Y-%m-%d %H:%M:%S") *)
  env_isoformat : nat -> string;        (* now().isoformat() *)
  env_ping : nat -> string -> Result Z; (* subprocess.call(["ping", ...]) *)
  (* the socket of the i-th future of the scan begun at that tick *)
  env_socket : nat -> nat -> string -> Z -> Socket;
  (* when the i-th future of that scan completes *)
  env_finish : nat -> nat -> nat;
  env_write_config : nat -> Config -> Result unit;
  (* status code of requests.post for a token, a chat and a text *)
  env_post : nat -> string -> string -> string -> Result Z
}.

Definition with_monitored_ips (m : dict string Monitored) (st : State) : State :=
  mkState (config st) m (scanning_active st) (history st) (ticks st) (trace st).

Definition with_history (h : list string) (st : State) : State :=
  mkState (config st) (monitored_ips st) (scanning_active st) h (ticks st)
    (trace st).

Definition tick (st : State) : State :=
  mkState (config st) (monitored_ips st) (scanning_active st) (history st)
    (S (ticks st)) (trace st).

Definition act (a : Action) (st : State) : State :=
  mkState (config st) (monitored_ips st) (scanning_active st) (history st)
    (ticks st) (trace st ++ [a]).

(** [deque(maxlen=n).append(x)] *)
Definition deque_append {A} (maxlen : nat) (d : list A) (x : A) : list A :=
  let d' := (d ++ [x])%list in
  skipn (List.length d' - maxlen)%nat d'.

(** [CyberSecurityTool.log] *)
Definition log (env : Env) (message level : string) (st : State) : State :=
  let timestamp := env_strftime env (ticks st) in
  let log_message := "[" ++ timestamp ++ "] [" ++ level ++ "] " ++ message in
  let st := tick st in
  let st := act (Print log_message) st in
  with_history (deque_append 1000 (history st) log_message) st.

(** [datetime.now().isoformat()] *)
Definition now_iso (env : Env) (st : State) : string * State :=
  (env_isoformat env (ticks st), tick st).

(** [CyberSecurityTool.ping_ip] *)
Definition ping_ip (env : Env) (ip : string) (st : State) : bool * State :=
  let answer := env_ping env (ticks st) ip in
  let st := act (Ping ip) (tick st) in
  match answer with
  | Ok code => (code =? 0, st)
  | Raise _ => (false, st)
  end.

(* ================================================================== *)
(** * Computations that may raise and that change the state *)

Definition M (A : Type) : Type := State -> Result A * State.

Definition ret {A} (a : A) : M A := fun st => (Ok a, st).

Definition bind {A B} (m : M A) (k : A -> M B) : M B :=
  fun st =>
    match m st with
    | (Ok a, st') => k a st'
    | (Raise e, st') => (Raise e, st')
    end.

(** A statement that cannot raise. *)
Definition run {A} (f : State -> A * State) : M A :=
  fun st => let (a, st') := f st in (Ok a, st').

Definition exec (f : State -> State) : M unit :=
  fun st => (Ok tt, f st).

(** [try: body except Exception as e: handler e]: the handler starts from the
    state in which the exception was raised. *)
Definition try_except {A} (body : M A) (handler : Exception -> M A) : M A :=
  fun st =>
    match body st with
    | (Ok a, st') => (Ok a, st')
    | (Raise e, st') => handler e st'
    end.

Declare Scope py_scope.
Delimit Scope py_scope with py.
Notation "x <- m ;; k" := (bind m (fun x => k))
  (at level 100, m at next level, right associativity) : py_scope.
Notation "m ;;; k" := (bind m (fun _ => k))
  (at level 100, right associativity) : py_scope.

(** [for x in l: acc = body acc x] *)
Fixpoint for_each {A B} (l : list A) (body : B -> A -> M B) (acc : B) : M B :=
  match l with
  | [] => ret acc
  | x :: r => bind (body acc x) (fun acc' => for_each r body acc')
  end.

(* ================================================================== *)
(** * The scanner *)

(** [list(range(a, b))] *)
Definition range (a b : Z) : list Z :=
  map (fun i => a + Z.of_nat i) (seq 0 (Z.to_nat (b - a))).

(** The ports of a scan called with [ports=None]:
    [list(COMMON_SERVICES.keys()) + list(range(1, 1001))]. *)
Definition default_ports : list Z :=
  (dict_keys COMMON_SERVICES ++ range 1 1001)%list.

(** [if ports is None: ports = ...] *)
Definition ports_or_default (ports : option (list Z)) : list Z :=
  match ports with
  | None => default_ports
  | Some ports => ports
  end.

(** The futures submitted to the pool, one for each entry of [ports], each
    with its port: the dictionary [future_to_port], whose keys are the
    futures themselves (here their rank of submission). *)
Definition submit_all (ports : list Z) : list (nat * Z) :=
  combine (seq 0 (List.length ports)) ports.

(** [as_completed]: the futures in the order in which they complete. *)
Fixpoint insert_by (finish : nat -> nat) (f : nat * Z) (l : list (nat * Z))
  : list (nat * Z) :=
  match l with
  | [] => [f]
  | g :: r =>
      if Nat.leb (finish (fst f)) (finish (fst g)) then f :: g :: r
      else g :: insert_by finish f r
  end.

Definition as_completed (finish : nat -> nat) (futures : list (nat * Z))
  : list (nat * Z) :=
  fold_right (insert_by finish) [] futures.

(** The body of the loop over the completed futures; [worker i port] is
    what [future.result()] gives for the i-th future. *)
Definition collect (env : Env) (ip : string)
    (worker : nat -> Z -> Result (bool * string))
    (open_ports : Scan) (f : nat * Z) : M Scan :=
  let (i, port) := f in
  try_except
    (r <- (fun st => (worker i port, st)) ;;
     let (is_open, banner) := r in
     if (is_open : bool) then
       let service := get_service_name port banner in
       ts <- run (now_iso env) ;;
       ret (dict_set Z.eqb open_ports port (mkPortInfo service banner ts))
     else ret open_ports)%py
    (fun e =>
       exec (log env ("Error scanning port " ++ PyStr.of_int port ++ " on "
                      ++ ip ++ ": " ++ exn_str e) "ERROR") ;;;
       ret open_ports)%py.

(** [scan_ports] over an arbitrary worker.  [ThreadPoolExecutor] refuses a
    pool without workers. *)
Definition scan_ports_with (env : Env) (ip : string)
    (worker : nat -> Z -> Result (bool * string))
    (ports : option (list Z)) : M Scan :=
  fun st =>
    let ports := ports_or_default ports in
    let open_ports : Scan := [] in
    if max_workers (config st) <=? 0 then
      (Raise (ValueError "max_workers must be greater than 0"), st)
    else
      (* the pool starts: the sockets and the order of completion of this
         scan are those of the tick at which it begins *)
      let t0 := ticks st in
      let future_to_port := submit_all ports in
      for_each (as_completed (env_finish env t0) future_to_port)
        (collect env ip worker) open_ports (tick st).

(** [CyberSecurityTool.scan_ports]: the worker is [scan_port]. *)
Definition scan_ports (env : Env) (ip : string) (ports : option (list Z))
  : M Scan :=
  fun st =>
    scan_ports_with env ip
      (fun i port =>
         scan_port (env_socket env (ticks st) i ip port) (timeout (config st)))
      ports st.

(* ================================================================== *)
(** * The differ *)

Definition opened_step (env : Env) (old_scan : Scan) (ip : string)
    (acc : list Change * State) (item : Z * PortInfo) : list Change * State :=
  let (changes, st) := acc in
  let (port, info) := item in
  if negb (dict_mem Z.eqb port old_scan) then
    let change_msg :=
      "🚨 NEW PORT OPENED on " ++ ip ++ ":" ++ PyStr.of_int port
      ++ " (" ++ service info ++ ")" in
    let (ts, st) := now_iso env st in
    ((changes ++ [port_opened port (service info) ts change_msg])%list, st)
  else (changes, st).

Definition closed_step (env : Env) (new_scan : Scan) (ip : string)
    (acc : list Change * State) (item : Z * PortInfo) : list Change * State :=
  let (changes, st) := acc in
  let (port, info) := item in
  if negb (dict_mem Z.eqb port new_scan) then
    let change_msg :=
      "🚨 PORT CLOSED on " ++ ip ++ ":" ++ PyStr.of_int port
      ++ " (" ++ service info ++ ")" in
    let (ts, st) := now_iso env st in
    ((changes ++ [port_closed port (service info) ts change_msg])%list, st)
  else (changes, st).

(** [if port in old_scan: old_info = old_scan[port]] is the [Some] branch. *)
Definition service_step (env : Env) (old_scan : Scan) (ip : string)
    (acc : list Change * State) (item : Z * PortInfo) : list Change * State :=
  let (changes, st) := acc in
  let (port, new_info) := item in
  match dict_get Z.eqb old_scan port with
  | Some old_info =>
      if negb (String.eqb (service new_info) (service old_info)) then
        let change_msg :=
          "🔄 SERVICE CHANGE on " ++ ip ++ ":" ++ PyStr.of_int port ++ " "
          ++ "(" ++ service old_info ++ " → " ++ service new_info ++ ")" in
        let (ts, st) := now_iso env st in
        ((changes ++ [service_change port (service old_info)
                        (service new_info) ts change_msg])%list, st)
      else (changes, st)
  | None => (changes, st)
  end.

(** [CyberSecurityTool.detect_changes] *)
Definition detect_changes (env : Env) (old_scan new_scan : Scan) (ip : string)
    (st : State) : list Change * State :=
  let changes : list Change := [] in
  (* Check for newly opened ports *)
  let acc := fold_left (opened_step env old_scan ip) (dict_items new_scan)
               (changes, st) in
  (* Check for closed ports *)
  let acc := fold_left (closed_step env new_scan ip) (dict_items old_scan)
               acc in
  (* Check for service changes *)
  fold_left (service_step env old_scan ip) (dict_items new_scan) acc.

(* ================================================================== *)
(** * Configuration file and notifier *)

(** [CyberSecurityTool.save_config] *)
Definition save_config (env : Env) (st : State) : State :=
  let answer := env_write_config env (ticks st) (config st) in
  let st := act (WriteConfig (config st)) (tick st) in
  match answer with
  | Ok _ => st
  | Raise e => log env ("Error saving config: " ++ exn_str e) "INFO" st
  end.

(** [CyberSecurityTool.send_telegram_message] *)
Definition send_telegram_message (env : Env) (message : string) (st : State)
  : bool * State :=
  let tok := token (telegram (config st)) in
  let chat := chat_id (telegram (config st)) in
  if (negb (PyStr.truthy tok) || negb (PyStr.truthy chat))%bool then
    (false, st)
  else
    let answer := env_post env (ticks st) tok chat message in
    let st := act (TelegramPost tok chat message) (tick st) in
    match answer with
    | Ok status_code => (status_code =? 200, st)
    | Raise e =>
        (false, log env ("Telegram API error: " ++ exn_str e) "ERROR" st)
    end.

(** [if self.config["telegram"]["enabled"] and
        self.config["telegram"]["chat_id"]: self.send_telegram_message(m)] *)
Definition notify (env : Env) (message : string) (st : State) : State :=
  if (enabled (telegram (config st))
      && PyStr.truthy (chat_id (telegram (config st))))%bool
  then snd (send_telegram_message env message st)
  else st.

(* ================================================================== *)
(** * The monitor *)

(** [self.monitored_ips[ip]] *)
Definition entry (ip : string) : M Monitored :=
  fun st =>
    match dict_get String.eqb (monitored_ips st) ip with
    | Some m => (Ok m, st)
    | None => (Raise (KeyError ip), st)
    end.

(** [self.monitored_ips[ip] = m] *)
Definition store (ip : string) (m : Monitored) (st : State) : State :=
  with_monitored_ips (dict_set String.eqb (monitored_ips st) ip m) st.

(** [self.monitored_ips[ip]["last_scan"] = scan] *)
Definition set_last_scan (ip : string) (scan : Scan) : M unit :=
  (m <- entry ip ;;
   exec (store ip (mkMonitored scan (changes m) (start_time m))))%py.

(** [self.monitored_ips[ip]["changes"].extend(new)] *)
Definition extend_changes (ip : string) (new : list Change) : M unit :=
  (m <- entry ip ;;
   exec (store ip
           (mkMonitored (last_scan m) (changes m ++ new)%list (start_time m))))%py.

Definition newline : string := String (ascii_of_nat 10) EmptyString.

Definition len {A} (l : list A) : Z := Z.of_nat (List.length l).

(** [CyberSecurityTool.start_monitoring]; it returns [None] on every path. *)
Definition start_monitoring (env : Env) (ip : string) : M unit :=
  fun st =>
    if dict_mem String.eqb ip (monitored_ips st) then
      (exec (log env ("Already monitoring " ++ ip) "INFO") ;;;
       ret tt)%py st
    else
      (reachable <- run (ping_ip env ip) ;;
       (if negb reachable
        then exec (log env ("IP " ++ ip ++ " is not reachable") "WARNING")
        else ret tt) ;;;
       now <- run (now_iso env) ;;
       exec (store ip (mkMonitored [] [] now)) ;;;
       (* Do initial scan *)
       exec (log env ("Starting initial scan for " ++ ip) "INFO") ;;;
       open_ports <- scan_ports env ip None ;;
       set_last_scan ip open_ports ;;;
       exec (log env ("Found " ++ PyStr.of_int (len open_ports)
                      ++ " open ports on " ++ ip) "INFO") ;;;
       exec (save_config env) ;;;
       exec (notify env
               ("🚨 Started monitoring " ++ ip ++ newline
                ++ "📊 Initial scan found " ++ PyStr.of_int (len open_ports)
                ++ " open ports")) ;;;
       ret tt)%py st.

(** [CyberSecurityTool.stop_monitoring] *)
Definition stop_monitoring (env : Env) (ip : string) (st : State) : State :=
  if dict_mem String.eqb ip (monitored_ips st) then
    let st := with_monitored_ips (dict_del String.eqb (monitored_ips st) ip) st in
    let st := log env ("Stopped monitoring " ++ ip) "INFO" st in
    let st := save_config env st in
    notify env ("🛑 Stopped monitoring " ++ ip) st
  else log env ("Not monitoring " ++ ip) "WARNING" st.

(** [bool(l)] for a list. *)
Definition nonempty {A} (l : list A) : bool :=
  match l with
  | [] => false
  | _ :: _ => true
  end.

(** The body of [for ip in list(self.monitored_ips.keys())], up to its
    [except]: scan, diff, and what is done with the changes. *)
Definition scan_and_diff (env : Env) (ip : string) : M unit :=
  (exec (log env ("Scanning " ++ ip) "INFO") ;;;
   current_scan <- scan_ports env ip None ;;
   m <- entry ip ;;
   let previous_scan := last_scan m in
   (* Detect changes *)
   changes <- run (detect_changes env previous_scan current_scan ip) ;;
   if nonempty changes then
     extend_changes ip changes ;;;
     set_last_scan ip current_scan ;;;
     (* Send notifications for changes *)
     for_each changes
       (fun _ change =>
          exec (log env (change_message change) "INFO") ;;;
          exec (notify env (change_message change)))
       tt
   else
     exec (log env ("No changes detected for " ++ ip) "INFO"))%py.

(** One turn of the loop over the monitored addresses. *)
Definition monitor_ip (env : Env) (ip : string) (st : State) : State :=
  snd (try_except (scan_and_diff env ip)
         (fun e =>
            exec (log env ("Error monitoring " ++ ip ++ ": " ++ exn_str e)
                    "ERROR"))
         st).

(** One turn of [while self.scanning_active]: every address monitored when
    the turn begins, then the sleep. *)
Definition monitoring_cycle (env : Env) (st : State) : State :=
  let st :=
    fold_left (fun st ip => monitor_ip env ip st)
      (dict_keys (monitored_ips st)) st in
  (* Sleep until next scan *)
  act (Sleep (scan_interval (config st))) st.

(** [CyberSecurityTool.monitoring_loop], cut after [n] turns. *)
Fixpoint monitoring_loop (env : Env) (n : nat) (st : State) : State :=
  match n with
  | O => st
  | S n' =>
      if scanning_active st then monitoring_loop env n' (monitoring_cycle env st)
      else st
  end.

(* ================================================================== *)
(** * Vocabulary of the properties *)

(** The three kinds of change event. *)
Inductive Kind : Type := Opened | Closed | ServiceChanged.

Definition kind_of (c : Change) : Kind :=
  match c with
  | port_opened _ _ _ _ => Opened
  | port_closed _ _ _ _ => Closed
  | service_change _ _ _ _ _ => ServiceChanged
  end.

Definition kind_eqb (a b : Kind) : bool :=
  match a, b with
  | Opened, Opened | Closed, Closed | ServiceChanged, ServiceChanged => true
  | _, _ => false
  end.

(** The events of kind [k] about port [p] in a list of changes. *)
Definition events_at (k : Kind) (p : Z) (l : list Change) : list Change :=
  filter (fun c => (kind_eqb (kind_of c) k && (change_port c =? p))%bool) l.

(** A change event without the time at which it was made. *)
Definition untimed (c : Change) : Change :=
  match c with
  | port_opened p s _ m => port_opened p s "" m
  | port_closed p s _ m => port_closed p s "" m
  | service_change p o n _ m => service_change p o n "" m
  end.

(** The rendered messages of the three kinds of event. *)
Definition opened_message (ip : string) (port : Z) (svc : string) : string :=
  "🚨 NEW PORT OPENED on " ++ ip ++ ":" ++ PyStr.of_int port
  ++ " (" ++ svc ++ ")".

Definition closed_message (ip : string) (port : Z) (svc : string) : string :=
  "🚨 PORT CLOSED on " ++ ip ++ ":" ++ PyStr.of_int port
  ++ " (" ++ svc ++ ")".

Definition service_message (ip : string) (port : Z) (old new : string)
  : string :=
  "🔄 SERVICE CHANGE on " ++ ip ++ ":" ++ PyStr.of_int port ++ " "
  ++ "(" ++ old ++ " → " ++ new ++ ")".

(** What each of the three loops of [detect_changes] adds for one item, the
    time left out. *)
Definition opened_of (old_scan : Scan) (ip : string) (item : Z * PortInfo)
  : list Change :=
  if dict_mem Z.eqb (fst item) old_scan then []
  else [port_opened (fst item) (service (snd item)) ""
          (opened_message ip (fst item) (service (snd item)))].

Definition closed_of (new_scan : Scan) (ip : string) (item : Z * PortInfo)
  : list Change :=
  if dict_mem Z.eqb (fst item) new_scan then []
  else [port_closed (fst item) (service (snd item)) ""
          (closed_message ip (fst item) (service (snd item)))].

Definition changed_of (old_scan : Scan) (ip : string) (item : Z * PortInfo)
  : list Change :=
  match dict_get Z.eqb old_scan (fst item) with
  | Some old_info =>
      if String.eqb (service (snd item)) (service old_info) then []
      else [service_change (fst item) (service old_info)
              (service (snd item)) ""
              (service_message ip (fst item) (service old_info)
                 (service (snd item)))]
  | None => []
  end.

(** The contents of a returned change, by its kind. *)
Definition justified (old new : Scan) (ip : string) (c : Change) : Prop :=
  match c with
  | port_opened p s _ m =>
      dict_mem Z.eqb p old = false
      /\ exists info, dict_get Z.eqb new p = Some info
                      /\ s = service info /\ m = opened_message ip p s
  | port_closed p s _ m =>
      dict_mem Z.eqb p new = false
      /\ exists info, dict_get Z.eqb old p = Some info
                      /\ s = service info /\ m = closed_message ip p s
  | service_change p o n _ m =>
      exists old_info new_info,
        dict_get Z.eqb old p = Some old_info
        /\ dict_get Z.eqb new p = Some new_info
        /\ o = service old_info /\ n = service new_info /\ o <> n
        /\ m = service_message ip p o n
  end.

(** The entries of a list of ports are pairwise distinct. *)
Fixpoint distinctb (l : list Z) : bool :=
  match l with
  | [] => true
  | x :: r => (negb (existsb (Z.eqb x) r) && distinctb r)%bool
  end.

(** Every entry of a snapshot comes from a future that reported an open
    port, and is labelled by the classifier from the banner it keeps. *)
Definition snapshot_of (worker : nat -> Z -> Result (bool * string))
    (futures : list (nat * Z)) (snapshot : Scan) : Prop :=
  forall port info,
    In (port, info) snapshot ->
    service info = get_service_name port (banner info)
    /\ exists i, In (i, port) futures
                 /\ worker i port = Ok (true, banner info).

(** The snapshot after the result of one future has been taken in, at
    tick [t]. *)
Definition collected (env : Env) (worker : nat -> Z -> Result (bool * string))
    (acc : Scan) (i : nat) (port : Z) (t : nat) : Scan :=
  match worker i port with
  | Ok (true, text) =>
      dict_set Z.eqb acc port
        (mkPortInfo (get_service_name port text) text (env_isoformat env t))
  | _ => acc
  end.

(** Two states hold the same record for every address but [ip]. *)
Definition same_elsewhere (ip : string) (st st' : State) : Prop :=
  forall other,
    other <> ip ->
    dict_get String.eqb (monitored_ips st') other
    = dict_get String.eqb (monitored_ips st) other.

(** A computation touches no record but that of [ip]. *)
Definition keeps_elsewhere {A} (ip : string) (m : M A) : Prop :=
  forall st, same_elsewhere ip st (snd (m st)).

(* ================================================================== *)
(** * A small world

    A host that listens on port 80 only and answers every request with the
    same status line, observed by a tool with the default configuration. *)

Definition listening : Socket :=
  mkSocket (Ok tt) (fun _ => Ok tt) (Ok 0) (Ok tt) (Ok "HTTP/1.0 200 OK").

(** [connect_ex] returns [ECONNREFUSED]. *)
Definition refusing : Socket :=
  mkSocket (Ok tt) (fun _ => Ok tt) (Ok 111) (Ok tt) (Ok "").

(** The name of the host does not resolve. *)
Definition dns_failure : Socket :=
  mkSocket (Ok tt) (fun _ => Ok tt)
    (Raise (gaierror "Name or service not known")) (Ok tt) (Ok "").



Definition web_host : Env :=
  mkEnv (fun _ => "2024-01-01 00:00:00")
    (fun t => "T" ++ PyStr.of_int (Z.of_nat t))
    (fun _ _ => Ok 0)
    (fun _ _ _ port => if port =? 80 then listening else refusing)
    (fun _ i => i)
    (fun _ _ => Ok tt)
    (fun _ _ _ _ => Ok 200).

Definition web_snapshot (time : string) : Scan :=
  [(80, mkPortInfo "http" "HTTP/1.0 200 OK" time)].

(** The tool while it monitors 10.0.0.1, whose last snapshot was taken at
    tick 0. *)
Definition watching : State :=
  mkState DEFAULT_CONFIG
    [("10.0.0.1", mkMonitored (web_snapshot "T0") [] "T0")]
    true [] 1 [].

(** The tool while it monitors 10.0.0.1 and has not seen any open port. *)
Definition unseen : State :=
  mkState DEFAULT_CONFIG [("10.0.0.1", mkMonitored [] [] "T0")] true [] 1 [].

(** A host whose probe of port 22 raises, and that listens on port 80. *)
Definition flaky_host : Env :=
  mkEnv (fun _ => "2024-01-01 00:00:00")
    (fun t => "T" ++ PyStr.of_int (Z.of_nat t))
    (fun _ _ => Ok 0)
    (fun _ _ _ port =>
       if port =? 22 then dns_failure
       else if port =? 80 then listening else refusing)
    (fun _ i => (10 - i)%nat)
    (fun _ _ => Ok tt)
    (fun _ _ _ _ => Ok 200).

(** The same host, when the probes complete in the reverse order of their
    submission. *)
Definition web_host_lifo : Env :=
  mkEnv (env_strftime web_host) (env_isoformat web_host) (env_ping web_host)
    (env_socket web_host) (fun _ i => (2000 - i)%nat)
    (env_write_config web_host) (env_post web_host).

(** The tool with a configuration file that asks for no worker thread. *)
Definition no_pool : State :=
  mkState (mkConfig 300 2 0 (mkTelegram "" "" false))
    [("10.0.0.1", mkMonitored (web_snapshot "T0") [] "T0")]
    true [] 1 [].


(** Two snapshots of one host: port 22 changes its label, port 80 goes,
    port 443 comes, port 8080 keeps its label under another banner. *)
Definition snapshot_before : Scan :=
  [ (22, mkPortInfo "ftp" "220 FTP ready" "T0");
    (80, mkPortInfo "http" "" "T0");
    (8080, mkPortInfo "http-proxy" "" "T0") ].

Definition snapshot_after : Scan :=
  [ (8080, mkPortInfo "http-proxy" "Squid" "T9");
    (443, mkPortInfo "https" "" "T9");
    (22, mkPortInfo "ssh" "SSH-2.0-OpenSSH" "T9") ].

(* ================================================================== *)
(** * The settings of the notifier *)

Definition with_config (c : Config) (st : State) : State :=
  mkState c (monitored_ips st) (scanning_active st) (history st) (ticks st)
    (trace st).

(** [self.config["telegram"] = t], the other settings kept. *)
Definition with_telegram (t : Telegram) (st : State) : State :=
  with_config
    (mkConfig (scan_interval (config st)) (timeout (config st))
       (max_workers (config st)) t)
    st.

(** [CyberSecurityTool.config_telegram_token] *)
Definition config_telegram_token (env : Env) (tok : string) (st : State)
  : State :=
  if negb (String.prefix "bot" tok) then
    let t := telegram (config st) in
    let st := with_telegram (mkTelegram tok (chat_id t) (enabled t)) st in
    let st := save_config env st in
    log env "Telegram token configured" "INFO" st
  else log env "Invalid Telegram token format" "ERROR" st.

Definition is_digit (c : ascii) : bool :=
  let n := nat_of_ascii c in (Nat.leb 48 n && Nat.leb n 57)%bool.

(** The rest of [\d+$] once a digit has been read: more digits up to the
    end of the text, or up to a line feed that ends the text. *)
Fixpoint digits_to_end (s : string) : bool :=
  match s with
  | EmptyString => true
  | String c r =>
      if is_digit c then digits_to_end r
      else (Ascii.eqb c (ascii_of_nat 10)
            && match r with EmptyString => true | _ => false end)%bool
  end.

(** [\d+$] *)
Definition digits_then_end (s : string) : bool :=
  match s with
  | EmptyString => false
  | String c r => (is_digit c && digits_to_end r)%bool
  end.

(** [re.match(r"^-?\d+$", s)] finds a match, for a text of ASCII
    characters. *)
Definition match_chat_id (s : string) : bool :=
  match s with
  | String c r =>
      if Ascii.eqb c "-"%char then digits_then_end r else digits_then_end s
  | EmptyString => false
  end.

(** [CyberSecurityTool.config_telegram_chat_id] *)
Definition config_telegram_chat_id (env : Env) (chat : string) (st : State)
  : State :=
  if match_chat_id chat then
    let t := telegram (config st) in
    let st := with_telegram (mkTelegram (token t) chat (enabled t)) st in
    let st := save_config env st in
    log env "Telegram chat ID configured" "INFO" st
  else log env "Invalid Telegram chat ID format" "ERROR" st.

(** [CyberSecurityTool.config_telegram]; [None] is the call without
    argument. *)
Definition config_telegram (env : Env) (flag : option bool) (st : State)
  : State :=
  match flag with
  | Some flag =>
      let t := telegram (config st) in
      let st := with_telegram (mkTelegram (token t) (chat_id t) flag) st in
      let st := save_config env st in
      let status := if flag then "enabled" else "disabled" in
      log env ("Telegram notifications " ++ status) "INFO" st
  | None =>
      let current := enabled (telegram (config st)) in
      let status := if current then "enabled" else "disabled" in
      log env ("Telegram notifications are currently " ++ status) "INFO" st
  end.

(* ================================================================== *)
(** * The history *)




(* ================================================================== *)
(** * The configuration file *)

Set Warnings "-register-all".

(** What [json.load] returns; a number that is not an integer keeps its
    text. *)
Inductive Json : Type :=
| JNull
| JBool (b : bool)
| JInt (n : Z)
| JFloat (text : string)
| JStr (s : string)
| JList (l : list Json)
| JDict (d : dict string Json).

Set Warnings "register-all".

(** [type(v).__name__] *)
Definition type_name (v : Json) : string :=
  match v with
  | JNull => "NoneType"
  | JBool _ => "bool"
  | JInt _ => "int"
  | JFloat _ => "float"
  | JStr _ => "str"
  | JList _ => "list"
  | JDict _ => "dict"
  end.

(** [d.update(other)] *)
Definition dict_update (d other : dict string Json) : dict string Json :=
  fold_left (fun d (kv : string * Json) => dict_set String.eqb d (fst kv) (snd kv))
    (dict_items other) d.

(** The body of the loop of [load_config] over [saved_config.items()]. *)
Definition merge_item (config : dict string Json) (item : string * Json)
  : dict string Json :=
  let (key, value) := item in
  match dict_get String.eqb config key, value with
  | Some (JDict mine), JDict theirs =>
      (* self.config[key].update(value) *)
      dict_set String.eqb config key (JDict (dict_update mine theirs))
  | _, _ =>
      (* self.config[key] = value *)
      dict_set String.eqb config key value
  end.

(** [CyberSecurityTool.load_config] on [self.config]: [file] is [None] when
    the path does not exist, and otherwise what opening the file and
    [json.load] give.  The result is the new [self.config] and the message
    logged, if any; a document that is not an object has no [items]. *)
Definition load_config (config : dict string Json)
    (file : option (Result Json)) : dict string Json * option string :=
  match file with
  | None => (config, None)
  | Some (Raise e) => (config, Some ("Error loading config: " ++ exn_str e))
  | Some (Ok (JDict saved_config)) =>
      (fold_left merge_item (dict_items saved_config) config, None)
  | Some (Ok other) =>
      (config,
       Some ("Error loading config: '" ++ type_name other
             ++ "' object has no attribute 'items'"))
  end.

(** [self.config] as [json.dump] writes it. *)
Definition telegram_dict (t : Telegram) : dict string Json :=
  [("token", JStr (token t)); ("chat_id", JStr (chat_id t));
   ("enabled", JBool (enabled t))].

Definition config_dict (c : Config) : dict string Json :=
  [("scan_interval", JInt (scan_interval c));
   ("timeout", JInt (timeout c));
   ("max_workers", JInt (max_workers c));
   ("telegram", JDict (telegram_dict (telegram c)));
   ("monitored_ips", JDict [])].

Definition config_json (c : Config) : Json := JDict (config_dict c).

(** What a key of the file becomes in [self.config]. *)
Definition merged (mine : option Json) (theirs : Json) : Json :=
  match mine, theirs with
  | Some (JDict mine), JDict theirs => JDict (dict_update mine theirs)
  | _, _ => theirs
  end.

(* ================================================================== *)
(** * The ports asked on the command line

    The argument of [scan] is read by [str.split] and [int].  The texts are
    texts of characters below U+0100, among which the decimal digits are
    [0-9] and the white space is what [is_space] says.  [None] stands for
    the [ValueError] that [int] or the unpacking raises. *)

(** [s.split(sep)] for a separator of one character. *)
Fixpoint split_on (sep : ascii) (s : string) : list string :=
  match s with
  | EmptyString => [EmptyString]
  | String c r =>
      if Ascii.eqb c sep then EmptyString :: split_on sep r
      else match split_on sep r with
           | w :: ws => String c w :: ws
           | [] => [String c EmptyString]
           end
  end.

(** [c.isspace()] *)
Definition is_space (c : ascii) : bool :=
  let n := nat_of_ascii c in
  ((Nat.leb 9 n && Nat.leb n 13) || (Nat.leb 28 n && Nat.leb n 32)
   || Nat.eqb n 133 || Nat.eqb n 160)%bool.

Fixpoint lstrip (s : string) : string :=
  match s with
  | EmptyString => EmptyString
  | String c r => if is_space c then lstrip r else s
  end.

Fixpoint rstrip (s : string) : string :=
  match s with
  | EmptyString => EmptyString
  | String c r =>
      match rstrip r with
      | EmptyString => if is_space c then EmptyString else String c EmptyString
      | r' => String c r'
      end
  end.

(** [s.strip()] *)
Definition strip (s : string) : string := rstrip (lstrip s).

(** The digits of a literal, its underscores taken out: an underscore
    stands between two digits, and the literal ends on a digit. *)
Fixpoint int_digits (s : string) (after_digit : bool) : option string :=
  match s with
  | EmptyString => if after_digit then Some EmptyString else None
  | String c r =>
      if is_digit c then option_map (String c) (int_digits r true)
      else if (Ascii.eqb c "_" && after_digit)%bool then int_digits r false
      else None
  end.

Definition int_magnitude (s : string) : option Z :=
  match int_digits s false with
  | Some digits => option_map Z.of_uint (NilEmpty.uint_of_string digits)
  | None => None
  end.

(** [int(s)] *)
Definition py_int (s : string) : option Z :=
  match strip s with
  | EmptyString => None
  | String c r =>
      if Ascii.eqb c "-" then option_map Z.opp (int_magnitude r)
      else if Ascii.eqb c "+" then int_magnitude r
      else int_magnitude (String c r)
  end.

(** [list(l)] for an iterator that may raise. *)
Fixpoint all_some {A} (l : list (option A)) : option (list A) :=
  match l with
  | [] => Some []
  | None :: _ => None
  | Some a :: r => option_map (cons a) (all_some r)
  end.

(** The reading of the port argument in [main], the same in the
    interactive loop and on the command line; it is reached with an
    argument that is not empty. *)
Definition parse_ports (port_arg : string) : option (list Z) :=
  if PyStr.contains "-" port_arg then
    (* Port range: start, end = map(int, port_arg.split("-")) *)
    match map py_int (split_on "-" port_arg) with
    | [Some start; Some stop] => Some (range start (stop + 1))
    | _ => None
    end
  else
    (* Comma-separated ports *)
    all_some (map py_int (split_on "," port_arg)).

(** [sep.join(words)] for a separator of one character. *)
Fixpoint join (sep : ascii) (words : list string) : string :=
  match words with
  | [] => EmptyString
  | [w] => w
  | w :: ws => w ++ String sep (join sep ws)
  end.

(** The character occurs in the text. *)
Fixpoint has_char (c : ascii) (s : string) : bool :=
  match s with
  | EmptyString => false
  | String d r => (Ascii.eqb d c || has_char c r)%bool
  end.

(* ================================================================== *)
(** * More vocabulary *)

Definition is_post (a : Action) : bool :=
  match a with
  | TelegramPost _ _ _ => true
  | _ => false
  end.

(** The requests sent to Telegram so far. *)
Definition posts (t : list Action) : list Action := filter is_post t.

(** The settings let a notification out: notifications are enabled and the
    chat and the token are set. *)
Definition may_post (c : Config) : bool :=
  (enabled (telegram c) && PyStr.truthy (chat_id (telegram c))
   && PyStr.truthy (token (telegram c)))%bool.

(** Between two states the settings and the service flag are the same, and
    nothing was sent to Telegram unless the settings let it out. *)
Definition steady (st st' : State) : Prop :=
  config st' = config st
  /\ scanning_active st' = scanning_active st
  /\ (may_post (config st) = false -> posts (trace st') = posts (trace st)).

(** Between two states the monitored addresses are the same, in the same
    order, each with its start time, and each log of changes has only
    grown at its end. *)
Definition grows (st st' : State) : Prop :=
  dict_keys (monitored_ips st') = dict_keys (monitored_ips st)
  /\ forall ip m,
       dict_get String.eqb (monitored_ips st) ip = Some m ->
       exists m',
         dict_get String.eqb (monitored_ips st') ip = Some m'
         /\ start_time m' = start_time m
         /\ exists more, changes m' = (changes m ++ more)%list.

(** The monitored addresses are pairwise distinct and each last snapshot
    is a dictionary. *)
Definition well_kept (st : State) : Prop :=
  dict_wf (monitored_ips st)
  /\ forall ip m,
       dict_get String.eqb (monitored_ips st) ip = Some m ->
       dict_wf (last_scan m).

(** If the first state is well kept, so is the second. *)
Definition stays_well_kept (st st' : State) : Prop :=
  well_kept st -> well_kept st'.

(** A computation relates the state it starts from to the state it ends
    in, however it ends. *)
Definition preserves (R : State -> State -> Prop) {A} (m : M A) : Prop :=
  forall st, R st (snd (m st)).


Fixpoint all_digits (s : string) : bool :=
  match s with
  | EmptyString => true
  | String c r => (is_digit c && all_digits r)%bool
  end.

(** A chat id as the pattern reads it: an optional minus sign, one decimal
    digit or more, and nothing else but, at most, one final line feed. *)
Definition chat_id_shape (s : string) : Prop :=
  exists sign digits tail,
    s = sign ++ digits ++ tail
    /\ (sign = "" \/ sign = "-")
    /\ digits <> "" /\ all_digits digits = true
    /\ (tail = "" \/ tail = newline).

(** [c["timestamp"]] *)
Definition change_time (c : Change) : string :=
  match c with
  | port_opened _ _ t _ | port_closed _ _ t _ | service_change _ _ _ t _ => t
  end.

(** The state after [n] more readings of the environment. *)
Definition advance (n : nat) (st : State) : State :=
  mkState (config st) (monitored_ips st) (scanning_active st) (history st)
    (ticks st + n) (trace st).

(** What a turn of one of the three loops does: nothing, or one change
    stamped with the time read at the current tick. *)
Definition one_reading (env : Env)
    (step : list Change * State -> Z * PortInfo -> list Change * State)
  : Prop :=
  forall chs st item,
    step (chs, st) item = (chs, st)
    \/ exists c, step (chs, st) item = ((chs ++ [c])%list, tick st)
                 /\ change_time c = env_isoformat env (ticks st).

(** The changes of a list were stamped one after the other from tick [t]
    on. *)
Definition stamped (env : Env) (t : nat) (chs : list Change) : Prop :=
  map change_time chs
  = map (fun i => env_isoformat env (t + i)) (seq 0 (List.length chs)).


(* ================================================================== *)
(** * Properties *)

(** ** Strings *)

Lemma ci_prefix_lower (kw : string) :
  PyStr.lower kw = kw ->
  forall hay, PyStr.ci_prefix kw hay = String.prefix kw (PyStr.lower hay).
Proof.
  induction kw as [|a kw IH]; intros Hkw hay.
  - destruct hay; reflexivity.
  - simpl in Hkw. injection Hkw as Ha Hrest.
    destruct hay as [|b hay]; simpl; [reflexivity|].
    unfold PyStr.ci_eqb. rewrite Ha.
    destruct (ascii_dec a (PyStr.lower_char b)) as [E|E].
    + rewrite <- E, Ascii.eqb_refl. simpl. now apply IH.
    + apply Ascii.eqb_neq in E. now rewrite E.
Qed.

Lemma ci_contains_lower (kw : string) :
  PyStr.lower kw = kw ->
  forall hay, PyStr.ci_contains kw hay = PyStr.contains kw (PyStr.lower hay).
Proof.
  intros Hkw hay. induction hay as [|b hay IH].
  - simpl. now rewrite (ci_prefix_lower kw Hkw "").
  - cbn [PyStr.ci_contains PyStr.lower PyStr.contains].
    rewrite IH. f_equal. apply (ci_prefix_lower kw Hkw (String b hay)).
Qed.

(** ** Dictionaries *)

Lemma dict_get_In {K V} (eqb : K -> K -> bool) (d : dict K V) k v :
  dict_get eqb d k = Some v -> In v (map snd d).
Proof.
  induction d as [|[k' v'] d IH]; simpl; [discriminate|].
  destruct (eqb k k'); [intros [= ->]; now left | right; auto].
Qed.

(** ** The classifier *)

Lemma dict_get_default_base (port : Z) :
  dict_get_default Z.eqb COMMON_SERVICES port "unknown" = base_label port.
Proof. reflexivity. Qed.

Lemma base_label_nonempty (port : Z) : base_label port <> "".
Proof.
  unfold base_label.
  destruct (dict_get Z.eqb COMMON_SERVICES port) as [l|] eqn:E;
    [|discriminate].
  apply dict_get_In in E.
  assert (H : Forall (fun l => l <> "") (map snd COMMON_SERVICES)).
  { cbv [map snd COMMON_SERVICES]. repeat constructor; discriminate. }
  rewrite Forall_forall in H. now apply H.
Qed.

(** The chain of [elif]s is the search for the first rule whose keyword the
    banner contains, case ignored. *)
Lemma get_service_name_by_rules (port : Z) (banner : string) :
  get_service_name port banner = classify_by_rules port banner.
Proof.
  unfold get_service_name, classify_by_rules, first_matching_rule,
    refinement_rules.
  rewrite dict_get_default_base. cbn [find rule_keyword rule_label].
  rewrite !ci_contains_lower by reflexivity.
  destruct banner as [|c banner]; [reflexivity|].
  cbn [PyStr.truthy].
  repeat match goal with
         | |- context [if PyStr.contains ?k ?b then _ else _] =>
             destruct (PyStr.contains k b)
         end; try reflexivity.
  cbn [rule_label]. now destruct (port =? 443).
Qed.

(** C9: the refinement pass is the ordered rule list ssh, http, smtp, ftp,
    mysql, matched against the banner without regard to case; the label is
    that of the first rule that matches, and the base label of the table
    only when no rule matches. *)
Theorem classify_first_matching_rule (port : Z) (banner : string) :
  map rule_keyword refinement_rules = ["ssh"; "http"; "smtp"; "ftp"; "mysql"]
  /\ get_service_name port banner =
     match
       find (fun r => PyStr.ci_contains (rule_keyword r) banner)
         refinement_rules
     with
     | Some r => rule_label r port
     | None => base_label port
     end.
Proof. split; [reflexivity | apply get_service_name_by_rules]. Qed.

(** C8: [get_service_name] is defined for every port and every banner, its
    label is never empty, and with an empty banner the label is the one of
    the static table, ["unknown"] for a port that the table lacks. *)
Theorem classify_total_nonempty (port : Z) (banner : string) :
  get_service_name port banner <> ""
  /\ match dict_get Z.eqb COMMON_SERVICES port with
     | Some label => get_service_name port "" = label
     | None => get_service_name port "" = "unknown"
     end.
Proof.
  split.
  - rewrite get_service_name_by_rules. unfold classify_by_rules.
    destruct (first_matching_rule banner) as [r|] eqn:E;
      [|apply base_label_nonempty].
    apply find_some in E. destruct E as [Hin _].
    unfold refinement_rules in Hin. simpl in Hin.
    destruct Hin as [<-|[<-|[<-|[<-|[<-|[]]]]]]; simpl; try discriminate.
    destruct (port =? 443); discriminate.
  - unfold get_service_name, dict_get_default. simpl PyStr.truthy. cbv iota.
    now destruct (dict_get Z.eqb COMMON_SERVICES port).
Qed.

(** C2, as the code has it: on port 443 the label is ["https"] exactly when
    the first rule that matches the banner is the http rule, or no rule
    matches (the empty banner among them); the http rule gives ["https"] on
    port 443 and ["http"] on every other port. *)
Theorem classify_443_https_iff (banner : string) :
  (get_service_name 443 banner = "https" <->
   match first_matching_rule banner with
   | Some r => rule_keyword r = "http"
   | None => True
   end)
  /\ forall port,
       option_map rule_keyword (first_matching_rule banner) = Some "http" ->
       get_service_name port banner
       = if port =? 443 then "https" else "http".
Proof.
  split.
  - rewrite get_service_name_by_rules. unfold classify_by_rules.
    destruct (first_matching_rule banner) as [r|] eqn:E;
      [|split; [trivial | reflexivity]].
    apply find_some in E. destruct E as [Hin _].
    unfold refinement_rules in Hin. simpl in Hin.
    destruct Hin as [<-|[<-|[<-|[<-|[<-|[]]]]]]; simpl;
      split; intro H; try reflexivity; discriminate.
  - intros port H. rewrite get_service_name_by_rules.
    unfold classify_by_rules.
    destruct (first_matching_rule banner) as [r|] eqn:E; [|discriminate].
    apply find_some in E. destruct E as [Hin _].
    unfold refinement_rules in Hin. simpl in Hin, H.
    destruct Hin as [<-|[<-|[<-|[<-|[<-|[]]]]]]; simpl in *;
      try discriminate; reflexivity.
Qed.

(** C2, as stated, fails: a banner that announces SSH on port 443 is
    labelled ["ssh"]. *)
Lemma classify_443_ssh_banner :
  get_service_name 443 "SSH-2.0-OpenSSH_8.9" = "ssh"
  /\ get_service_name 443 "SSH-2.0-OpenSSH_8.9" <> "https".
Proof. split; [reflexivity | discriminate]. Qed.

(** ** Dictionaries, continued *)

Section DictFacts.
Context {K V : Type}.
Variable eqb : K -> K -> bool.
Hypothesis eqb_eq : forall a b, eqb a b = true <-> a = b.

Lemma eqb_same (a : K) : eqb a a = true.
Proof. now apply eqb_eq. Qed.

Lemma eqb_other (a b : K) : a <> b -> eqb a b = false.
Proof.
  intro H. destruct (eqb a b) eqn:E; [|reflexivity].
  now apply eqb_eq in E.
Qed.

Lemma dict_get_none (d : dict K V) (k : K) :
  dict_get eqb d k = None <-> ~ In k (dict_keys d).
Proof.
  induction d as [|[k' v'] d IH]; simpl; [tauto|].
  destruct (eqb k k') eqn:E.
  - apply eqb_eq in E. subst. split; [discriminate | tauto].
  - rewrite IH. split; [|tauto].
    intros H [H'|H']; [|tauto]. subst. now rewrite eqb_same in E.
Qed.

Lemma dict_mem_keys (d : dict K V) (k : K) :
  dict_mem eqb k d = true <-> In k (dict_keys d).
Proof.
  unfold dict_mem. induction d as [|[k' v'] d IH]; simpl.
  - split; [discriminate | tauto].
  - destruct (eqb k k') eqn:E.
    + apply eqb_eq in E. subst. tauto.
    + rewrite IH. split; [tauto|].
      intros [H|H]; [|assumption]. subst. now rewrite eqb_same in E.
Qed.

Lemma dict_mem_false (d : dict K V) (k : K) :
  dict_mem eqb k d = false <-> ~ In k (dict_keys d).
Proof.
  rewrite <- dict_mem_keys. destruct (dict_mem eqb k d); split;
    congruence.
Qed.

(** In a dictionary an item is found under its key. *)
Lemma dict_get_item (d : dict K V) (k : K) (v : V) :
  dict_wf d -> In (k, v) d -> dict_get eqb d k = Some v.
Proof.
  unfold dict_wf. induction d as [|[k' v'] d IH]; simpl; [tauto|].
  intros Hwf [H|H].
  - injection H as -> ->. now rewrite eqb_same.
  - inversion Hwf as [|? ? Hnotin Hwf']; subst.
    rewrite eqb_other; [auto|].
    intros ->. apply Hnotin. now apply (in_map fst) in H.
Qed.

Lemma dict_get_in_items (d : dict K V) (k : K) (v : V) :
  dict_get eqb d k = Some v -> In (k, v) d.
Proof.
  induction d as [|[k' v'] d IH]; simpl; [discriminate|].
  destruct (eqb k k') eqn:E.
  - apply eqb_eq in E. subst. intros [= ->]. now left.
  - right. auto.
Qed.

Lemma dict_set_keys_in (d : dict K V) (k : K) (v : V) (k0 : K) :
  In k0 (dict_keys (dict_set eqb d k v)) <-> k0 = k \/ In k0 (dict_keys d).
Proof.
  induction d as [|[k' v'] d IH]; simpl.
  - intuition congruence.
  - destruct (eqb k k') eqn:E; simpl.
    + apply eqb_eq in E. subst. intuition congruence.
    + rewrite IH. tauto.
Qed.

Lemma dict_set_wf (d : dict K V) (k : K) (v : V) :
  dict_wf d -> dict_wf (dict_set eqb d k v).
Proof.
  unfold dict_wf. induction d as [|[k' v'] d IH]; simpl; intro Hwf.
  - constructor; [tauto | constructor].
  - inversion Hwf as [|? ? Hnotin Hwf']; subst.
    destruct (eqb k k') eqn:E; simpl.
    + now constructor.
    + constructor; [|auto].
      rewrite (dict_set_keys_in d k v k'). intros [->|H]; [|tauto].
      now rewrite eqb_same in E.
Qed.

Lemma dict_get_set_same (d : dict K V) (k : K) (v : V) :
  dict_get eqb (dict_set eqb d k v) k = Some v.
Proof.
  induction d as [|[k' v'] d IH]; simpl.
  - now rewrite eqb_same.
  - destruct (eqb k k') eqn:E; simpl; now rewrite E.
Qed.

Lemma dict_get_set_other (d : dict K V) (k k0 : K) (v : V) :
  k0 <> k -> dict_get eqb (dict_set eqb d k v) k0 = dict_get eqb d k0.
Proof.
  intro Hne. induction d as [|[k' v'] d IH]; simpl.
  - now rewrite eqb_other.
  - destruct (eqb k k') eqn:E; simpl.
    + apply eqb_eq in E. subst. now rewrite eqb_other.
    + now rewrite IH.
Qed.

End DictFacts.

(** ** The differ *)

Lemma Z_eqb_eq (a b : Z) : (a =? b) = true <-> a = b.
Proof. apply Z.eqb_eq. Qed.

Lemma kind_eqb_eq (a b : Kind) : kind_eqb a b = true <-> a = b.
Proof. destruct a, b; simpl; split; congruence. Qed.

Lemma opened_step_untimed env old ip chs st item :
  map untimed (fst (opened_step env old ip (chs, st) item))
  = (map untimed chs ++ opened_of old ip item)%list.
Proof.
  destruct item as [port info]. unfold opened_step, opened_of. simpl.
  destruct (dict_mem Z.eqb port old); simpl.
  - now rewrite app_nil_r.
  - now rewrite map_app.
Qed.

Lemma closed_step_untimed env new ip chs st item :
  map untimed (fst (closed_step env new ip (chs, st) item))
  = (map untimed chs ++ closed_of new ip item)%list.
Proof.
  destruct item as [port info]. unfold closed_step, closed_of. simpl.
  destruct (dict_mem Z.eqb port new); simpl.
  - now rewrite app_nil_r.
  - now rewrite map_app.
Qed.

Lemma service_step_untimed env old ip chs st item :
  map untimed (fst (service_step env old ip (chs, st) item))
  = (map untimed chs ++ changed_of old ip item)%list.
Proof.
  destruct item as [port info]. unfold service_step, changed_of. simpl.
  destruct (dict_get Z.eqb old port) as [old_info|]; simpl;
    [|now rewrite app_nil_r].
  destruct (String.eqb (service info) (service old_info)); simpl.
  - now rewrite app_nil_r.
  - now rewrite map_app.
Qed.

(** A loop whose body appends to [changes] appends, in order, what each
    item adds. *)
Lemma loop_untimed
    (step : list Change * State -> Z * PortInfo -> list Change * State)
    (pure : Z * PortInfo -> list Change) :
  (forall chs st item,
      map untimed (fst (step (chs, st) item))
      = (map untimed chs ++ pure item)%list) ->
  forall items acc,
    map untimed (fst (fold_left step items acc))
    = (map untimed (fst acc) ++ flat_map pure items)%list.
Proof.
  intros Hstep items. induction items as [|item items IH]; intros [chs st].
  - simpl. now rewrite app_nil_r.
  - simpl. rewrite IH.
    destruct (step (chs, st) item) as [chs' st'] eqn:E.
    specialize (Hstep chs st item). rewrite E in Hstep. simpl in *.
    now rewrite Hstep, <- app_assoc.
Qed.

(** The changes that [detect_changes] returns, their times left out. *)
Lemma detect_changes_untimed env old new ip st :
  map untimed (fst (detect_changes env old new ip st))
  = (flat_map (opened_of old ip) new
     ++ flat_map (closed_of new ip) old
     ++ flat_map (changed_of old ip) new)%list.
Proof.
  unfold detect_changes, dict_items.
  rewrite (loop_untimed _ _ (service_step_untimed env old ip)).
  rewrite (loop_untimed _ _ (closed_step_untimed env new ip)).
  rewrite (loop_untimed _ _ (opened_step_untimed env old ip)).
  simpl. now rewrite <- app_assoc.
Qed.

Lemma kind_of_untimed c : kind_of (untimed c) = kind_of c.
Proof. now destruct c. Qed.

Lemma change_port_untimed c : change_port (untimed c) = change_port c.
Proof. now destruct c. Qed.

Lemma events_at_untimed k p l :
  List.length (events_at k p l) = List.length (events_at k p (map untimed l)).
Proof.
  unfold events_at. induction l as [|c l IH]; simpl; [reflexivity|].
  rewrite kind_of_untimed, change_port_untimed.
  destruct (kind_eqb (kind_of c) k && (change_port c =? p))%bool; simpl;
    now rewrite IH.
Qed.

Lemma events_at_app k p l1 l2 :
  events_at k p (l1 ++ l2) = (events_at k p l1 ++ events_at k p l2)%list.
Proof. apply filter_app. Qed.

(** A loop that adds at most one event for each item, of kind [k0] and
    about the key of the item, has added for a port [p] one event of kind
    [k0] or none, as the item of [p] decides. *)
Lemma events_at_loop (k0 k : Kind) (p : Z)
    (hit : Z -> PortInfo -> bool) (ev : Z -> PortInfo -> Change)
    (d : Scan) :
  (forall q info, kind_of (ev q info) = k0 /\ change_port (ev q info) = q) ->
  dict_wf d ->
  List.length
    (events_at k p
       (flat_map (fun item => if hit (fst item) (snd item)
                              then [ev (fst item) (snd item)] else []) d))
  = match dict_get Z.eqb d p with
    | Some info => if (kind_eqb k0 k && hit p info)%bool then 1%nat else 0%nat
    | None => 0%nat
    end.
Proof.
  intros Hev. unfold dict_wf.
  induction d as [|[q info] d IH]; simpl; intro Hwf; [reflexivity|].
  inversion Hwf as [|? ? Hnotin Hwf']; subst.
  rewrite events_at_app, length_app, (IH Hwf').
  destruct (Hev q info) as [Hk Hp].
  destruct (p =? q) eqn:E.
  - apply Z.eqb_eq in E. subst q.
    apply (dict_get_none Z.eqb Z_eqb_eq) in Hnotin. rewrite Hnotin.
    destruct (hit p info); simpl; [|now rewrite andb_false_r].
    rewrite Hk, Hp, Z.eqb_refl, !andb_true_r.
    now destruct (kind_eqb k0 k).
  - assert (Hnone : events_at k p
              (if hit q info then [ev q info] else []) = []).
    { destruct (hit q info); simpl; [|reflexivity].
      rewrite Hp, Z.eqb_sym, E, andb_false_r. reflexivity. }
    now rewrite Hnone.
Qed.

Lemma opened_loop_count k p old new ip :
  dict_wf new ->
  List.length (events_at k p (flat_map (opened_of old ip) new))
  = match dict_get Z.eqb new p with
    | Some _ =>
        if (kind_eqb Opened k && negb (dict_mem Z.eqb p old))%bool
        then 1%nat else 0%nat
    | None => 0%nat
    end.
Proof.
  intro Hwf.
  rewrite <- (events_at_loop Opened k p
                (fun q _ => negb (dict_mem Z.eqb q old))
                (fun q info => port_opened q (service info) ""
                                 (opened_message ip q (service info)))
                new); [|now split|assumption].
  do 2 f_equal. apply flat_map_ext. intros [q info].
  unfold opened_of. simpl. now destruct (dict_mem Z.eqb q old).
Qed.

Lemma closed_loop_count k p old new ip :
  dict_wf old ->
  List.length (events_at k p (flat_map (closed_of new ip) old))
  = match dict_get Z.eqb old p with
    | Some _ =>
        if (kind_eqb Closed k && negb (dict_mem Z.eqb p new))%bool
        then 1%nat else 0%nat
    | None => 0%nat
    end.
Proof.
  intro Hwf.
  rewrite <- (events_at_loop Closed k p
                (fun q _ => negb (dict_mem Z.eqb q new))
                (fun q info => port_closed q (service info) ""
                                 (closed_message ip q (service info)))
                old); [|now split|assumption].
  do 2 f_equal. apply flat_map_ext. intros [q info].
  unfold closed_of. simpl. now destruct (dict_mem Z.eqb q new).
Qed.

Lemma changed_loop_count k p old new ip :
  dict_wf new ->
  List.length (events_at k p (flat_map (changed_of old ip) new))
  = match dict_get Z.eqb new p, dict_get Z.eqb old p with
    | Some n, Some o =>
        if (kind_eqb ServiceChanged k
            && negb (String.eqb (service n) (service o)))%bool
        then 1%nat else 0%nat
    | _, _ => 0%nat
    end.
Proof.
  intro Hwf.
  pose (old_service q :=
          match dict_get Z.eqb old q with
          | Some o => service o
          | None => ""
          end).
  rewrite (flat_map_ext (changed_of old ip)
             (fun item =>
                if match dict_get Z.eqb old (fst item) with
                   | Some o => negb (String.eqb (service (snd item)) (service o))
                   | None => false
                   end
                then [service_change (fst item) (old_service (fst item))
                        (service (snd item)) ""
                        (service_message ip (fst item)
                           (old_service (fst item)) (service (snd item)))]
                else [])).
  - rewrite (events_at_loop ServiceChanged k p
               (fun q info =>
                  match dict_get Z.eqb old q with
                  | Some o => negb (String.eqb (service info) (service o))
                  | None => false
                  end)
               (fun q info =>
                  service_change q (old_service q) (service info) ""
                    (service_message ip q (old_service q) (service info)))
               new); [|now split|assumption].
    destruct (dict_get Z.eqb new p); [|reflexivity].
    destruct (dict_get Z.eqb old p); [reflexivity|].
    now rewrite andb_false_r.
  - intros [q info]. unfold changed_of, old_service. simpl.
    destruct (dict_get Z.eqb old q) as [o|]; [|reflexivity].
    now destruct (String.eqb (service info) (service o)).
Qed.

(** Where each returned change comes from. *)
Lemma detect_changes_origin env old new ip st c :
  In c (fst (detect_changes env old new ip st)) ->
  (exists item, In item new /\ opened_of old ip item = [untimed c])
  \/ (exists item, In item old /\ closed_of new ip item = [untimed c])
  \/ (exists item, In item new /\ changed_of old ip item = [untimed c]).
Proof.
  intro Hin. apply (in_map untimed) in Hin.
  rewrite detect_changes_untimed in Hin.
  rewrite !in_app_iff, !in_flat_map in Hin.
  destruct Hin as [[item [Hi Hc]]|[[item [Hi Hc]]|[item [Hi Hc]]]];
    [left | right; left | right; right]; exists item; split; trivial.
  - unfold opened_of in *. destruct (dict_mem Z.eqb (fst item) old);
      simpl in Hc; [tauto|]. destruct Hc as [<-|[]]. reflexivity.
  - unfold closed_of in *. destruct (dict_mem Z.eqb (fst item) new);
      simpl in Hc; [tauto|]. destruct Hc as [<-|[]]. reflexivity.
  - unfold changed_of in *.
    destruct (dict_get Z.eqb old (fst item)) as [o|]; [|simpl in Hc; tauto].
    destruct (String.eqb (service (snd item)) (service o));
      simpl in Hc; [tauto|]. destruct Hc as [<-|[]]. reflexivity.
Qed.

Lemma untimed_opened_inv c p s m :
  port_opened p s "" m = untimed c -> exists t, c = port_opened p s t m.
Proof. destruct c; simpl; intros [= -> -> ->]; eauto. Qed.

Lemma untimed_closed_inv c p s m :
  port_closed p s "" m = untimed c -> exists t, c = port_closed p s t m.
Proof. destruct c; simpl; intros [= -> -> ->]; eauto. Qed.

Lemma untimed_service_inv c p o n m :
  service_change p o n "" m = untimed c ->
  exists t, c = service_change p o n t m.
Proof. destruct c; simpl; intros [= -> -> -> ->]; eauto. Qed.

Lemma detect_changes_justified env old new ip st c :
  dict_wf old -> dict_wf new ->
  In c (fst (detect_changes env old new ip st)) -> justified old new ip c.
Proof.
  intros Hold Hnew Hin.
  destruct (detect_changes_origin _ _ _ _ _ _ Hin)
    as [[[q info] [Hi Hc]]|[[[q info] [Hi Hc]]|[[q info] [Hi Hc]]]].
  - unfold opened_of in Hc. simpl in Hc.
    destruct (dict_mem Z.eqb q old) eqn:E; [discriminate|].
    injection Hc as Hc. apply untimed_opened_inv in Hc. destruct Hc as [t ->].
    simpl. split; [assumption|]. exists info.
    now rewrite (dict_get_item Z.eqb Z_eqb_eq new q info Hnew Hi).
  - unfold closed_of in Hc. simpl in Hc.
    destruct (dict_mem Z.eqb q new) eqn:E; [discriminate|].
    injection Hc as Hc. apply untimed_closed_inv in Hc. destruct Hc as [t ->].
    simpl. split; [assumption|]. exists info.
    now rewrite (dict_get_item Z.eqb Z_eqb_eq old q info Hold Hi).
  - unfold changed_of in Hc. simpl in Hc.
    destruct (dict_get Z.eqb old q) as [o|] eqn:E; [|discriminate].
    destruct (String.eqb (service info) (service o)) eqn:Es; [discriminate|].
    injection Hc as Hc. apply untimed_service_inv in Hc.
    destruct Hc as [t ->]. simpl. exists o, info.
    rewrite (dict_get_item Z.eqb Z_eqb_eq new q info Hnew Hi).
    repeat split; trivial.
    intro H. rewrite H, String.eqb_refl in Es. discriminate.
Qed.

(** C4: for two snapshots, [detect_changes] returns for every port exactly
    one opened event if the port is in the new snapshot and not in the old
    one and none otherwise, exactly one closed event if it is in the old
    snapshot and not in the new one and none otherwise, exactly one
    service-change event if it is in both with different service labels and
    none otherwise; every returned event carries the labels of the
    snapshots; a port with the same label in both has no event, whatever
    its banners are. *)
Theorem detect_changes_events env (old new : Scan) ip st
    (Hold : dict_wf old) (Hnew : dict_wf new) :
  let result := fst (detect_changes env old new ip st) in
  (forall p,
      List.length (events_at Opened p result)
      = (if (dict_mem Z.eqb p new && negb (dict_mem Z.eqb p old))%bool
         then 1 else 0)%nat
      /\ List.length (events_at Closed p result)
         = (if (dict_mem Z.eqb p old && negb (dict_mem Z.eqb p new))%bool
            then 1 else 0)%nat
      /\ List.length (events_at ServiceChanged p result)
         = match dict_get Z.eqb old p, dict_get Z.eqb new p with
           | Some o, Some n =>
               if String.eqb (service n) (service o) then 0%nat else 1%nat
           | _, _ => 0%nat
           end)
  /\ (forall c, In c result -> justified old new ip c)
  /\ (forall p o n,
         dict_get Z.eqb old p = Some o -> dict_get Z.eqb new p = Some n ->
         service o = service n ->
         forall c, In c result -> change_port c <> p).
Proof.
  intro result. split; [|split].
  - intro p. unfold result.
    rewrite (events_at_untimed Opened p (fst (detect_changes env old new ip st))),
      (events_at_untimed Closed p (fst (detect_changes env old new ip st))),
      (events_at_untimed ServiceChanged p
         (fst (detect_changes env old new ip st))),
      detect_changes_untimed.
    rewrite !events_at_app, !length_app.
    rewrite !(opened_loop_count _ p old new ip Hnew).
    rewrite !(closed_loop_count _ p old new ip Hold).
    rewrite !(changed_loop_count _ p old new ip Hnew).
    unfold dict_mem.
    destruct (dict_get Z.eqb new p) as [n|], (dict_get Z.eqb old p) as [o|];
      simpl; try (repeat split; reflexivity).
    destruct (String.eqb (service n) (service o)); repeat split; reflexivity.
  - intros c Hc. now apply (detect_changes_justified env old new ip st).
  - intros p o n Ho Hn Hsame c Hc Hp.
    apply (detect_changes_justified env old new ip st c Hold Hnew) in Hc.
    destruct c as [q s t m|q s t m|q so sn t m]; simpl in Hp, Hc; subst q.
    + destruct Hc as [Hc _]. unfold dict_mem in Hc. now rewrite Ho in Hc.
    + destruct Hc as [Hc _]. unfold dict_mem in Hc. now rewrite Hn in Hc.
    + destruct Hc as [oi [ni [Hoi [Hni [-> [-> [Hne _]]]]]]].
      rewrite Ho in Hoi. rewrite Hn in Hni. congruence.
Qed.

Lemma fold_left_noop {A B} (f : A -> B -> A) (l : list B) :
  (forall x, In x l -> forall a, f a x = a) ->
  forall a, fold_left f l a = a.
Proof.
  induction l as [|x l IH]; intros H a; simpl; [reflexivity|].
  rewrite (H x (or_introl eq_refl)). apply IH.
  intros y Hy. apply H. now right.
Qed.

Lemma dict_mem_item (d : Scan) q info : In (q, info) d -> dict_mem Z.eqb q d = true.
Proof.
  intro H. apply (dict_mem_keys Z.eqb Z_eqb_eq).
  now apply (in_map fst) in H.
Qed.

(** C5: comparing a snapshot with itself yields no change event (and reads
    no clock). *)
Theorem detect_changes_same env (S : Scan) ip st (Hwf : dict_wf S) :
  detect_changes env S S ip st = ([], st).
Proof.
  unfold detect_changes, dict_items.
  rewrite (fold_left_noop (opened_step env S ip)).
  rewrite (fold_left_noop (closed_step env S ip)).
  rewrite (fold_left_noop (service_step env S ip)).
  - reflexivity.
  - intros [q info] Hin [chs st']. unfold service_step.
    rewrite (dict_get_item Z.eqb Z_eqb_eq S q info Hwf Hin).
    now rewrite String.eqb_refl.
  - intros [q info] Hin [chs st']. unfold closed_step.
    now rewrite (dict_mem_item S q info Hin).
  - intros [q info] Hin [chs st']. unfold opened_step.
    now rewrite (dict_mem_item S q info Hin).
Qed.

Lemma kinds_of_untimed (k : Kind) (l pure : list Change) :
  map untimed l = pure -> Forall (fun c => kind_of c = k) pure ->
  Forall (fun c => kind_of c = k) l.
Proof.
  intros <- H. rewrite Forall_forall in *. intros c Hc.
  rewrite <- kind_of_untimed. apply H. now apply in_map.
Qed.

Lemma opened_loop_kind old ip items :
  Forall (fun c => kind_of c = Opened) (flat_map (opened_of old ip) items).
Proof.
  rewrite Forall_forall. intros c Hc. apply in_flat_map in Hc.
  destruct Hc as [item [_ Hc]]. unfold opened_of in Hc.
  destruct (dict_mem Z.eqb (fst item) old); simpl in Hc; [tauto|].
  now destruct Hc as [<-|[]].
Qed.

Lemma closed_loop_kind new ip items :
  Forall (fun c => kind_of c = Closed) (flat_map (closed_of new ip) items).
Proof.
  rewrite Forall_forall. intros c Hc. apply in_flat_map in Hc.
  destruct Hc as [item [_ Hc]]. unfold closed_of in Hc.
  destruct (dict_mem Z.eqb (fst item) new); simpl in Hc; [tauto|].
  now destruct Hc as [<-|[]].
Qed.

Lemma changed_loop_kind old ip items :
  Forall (fun c => kind_of c = ServiceChanged)
    (flat_map (changed_of old ip) items).
Proof.
  rewrite Forall_forall. intros c Hc. apply in_flat_map in Hc.
  destruct Hc as [item [_ Hc]]. unfold changed_of in Hc.
  destruct (dict_get Z.eqb old (fst item)) as [o|]; [|simpl in Hc; tauto].
  destruct (String.eqb (service (snd item)) (service o));
    simpl in Hc; [tauto|].
  now destruct Hc as [<-|[]].
Qed.

(** C10: the returned changes are grouped by kind: the opened events, then
    the closed events, then the service-change events. *)
Theorem detect_changes_grouped env (old new : Scan) ip st :
  exists opened closed changed,
    fst (detect_changes env old new ip st)
    = (opened ++ closed ++ changed)%list
    /\ Forall (fun c => kind_of c = Opened) opened
    /\ Forall (fun c => kind_of c = Closed) closed
    /\ Forall (fun c => kind_of c = ServiceChanged) changed.
Proof.
  pose proof (detect_changes_untimed env old new ip st) as H.
  apply map_eq_app in H. destruct H as [opened [rest [Hres [Ho Hrest]]]].
  apply map_eq_app in Hrest. destruct Hrest as [closed [changed [-> [Hc Hs]]]].
  exists opened, closed, changed. split; [assumption|].
  split; [|split].
  - apply (kinds_of_untimed _ _ _ Ho), opened_loop_kind.
  - apply (kinds_of_untimed _ _ _ Hc), closed_loop_kind.
  - apply (kinds_of_untimed _ _ _ Hs), changed_loop_kind.
Qed.

(** ** The scanner *)

Lemma scan_port_returns (s : Socket) (timeout : Z) :
  exists banner,
    scan_port s timeout = Ok (connects s timeout, banner)
    /\ (connects s timeout = false -> banner = "").
Proof.
  unfold scan_port, connects, try_exceptR, bindR.
  destruct (sock_open s) as [[]|e]; [|now exists ""].
  destruct (sock_settimeout s timeout) as [[]|e]; [|now exists ""].
  destruct (sock_connect_ex s) as [code|e]; [|now exists ""].
  destruct (code =? 0); [|now exists ""].
  unfold read_banner, try_exceptR, bindR.
  destruct (sock_send s) as [[]|e]; [|exists ""; split; [reflexivity|discriminate]].
  destruct (sock_recv_text s) as [text|e];
    [|exists ""; split; [reflexivity|discriminate]].
  destruct (PyStr.truthy text);
    [exists text | exists ""]; (split; [reflexivity|discriminate]).
Qed.

Lemma log_frame env message level st :
  config (log env message level st) = config st
  /\ monitored_ips (log env message level st) = monitored_ips st
  /\ scanning_active (log env message level st) = scanning_active st.
Proof. now unfold log. Qed.

Lemma collect_spec env ip worker (acc : Scan) i port st :
  exists st',
    collect env ip worker acc (i, port) st
    = (Ok (collected env worker acc i port (ticks st)), st')
    /\ config st' = config st /\ monitored_ips st' = monitored_ips st.
Proof.
  unfold collect, collected, try_except, bind, run, ret, exec, now_iso.
  destruct (worker i port) as [[[] text]|e]; simpl; eauto.
Qed.

Lemma dict_set_items (d : Scan) k v q info :
  In (q, info) (dict_set Z.eqb d k v) ->
  (q = k /\ info = v) \/ In (q, info) d.
Proof.
  induction d as [|[k' v'] d IH]; simpl.
  - intros [[= <- <-]|[]]. now left.
  - destruct (k =? k') eqn:E; simpl.
    + apply Z.eqb_eq in E. subst k'.
      intros [[= <- <-]|H]; [now left | right; now right].
    + intros [H|H]; [right; now left|].
      destruct (IH H) as [H'|H']; [now left | right; now right].
Qed.

(** The loop over the completed futures always ends with a snapshot: its
    keys are the ports that some future reported open. *)
Lemma collect_loop env ip worker (l : list (nat * Z)) :
  forall (acc : Scan) st,
  exists snapshot st',
    for_each l (collect env ip worker) acc st = (Ok snapshot, st')
    /\ config st' = config st /\ monitored_ips st' = monitored_ips st
    /\ (dict_wf acc -> dict_wf snapshot)
    /\ (forall q, In q (dict_keys snapshot) <->
                  In q (dict_keys acc)
                  \/ exists i text, In (i, q) l
                                    /\ worker i q = Ok (true, text))
    /\ (forall futures, incl l futures ->
          snapshot_of worker futures acc ->
          snapshot_of worker futures snapshot).
Proof.
  induction l as [|[i port] l IH]; intros acc st.
  - exists acc, st. simpl. unfold ret.
    do 3 (split; [reflexivity|]). split; [auto|]. split; [|auto].
    intro q. split; [tauto|]. now intros [H|[i [text [[] _]]]].
  - cbn [for_each]. unfold bind.
    destruct (collect_spec env ip worker acc i port st)
      as [st1 [Hrun [Hc1 Hm1]]].
    rewrite Hrun.
    set (acc1 := collected env worker acc i port (ticks st)) in *.
    destruct (IH acc1 st1) as [snap [st2 [Hloop [Hc2 [Hm2 [Hwf [Hkeys Hof]]]]]]].
    exists snap, st2. rewrite Hloop.
    split; [reflexivity|]. split; [congruence|]. split; [congruence|].
    split; [|split].
    + intro Hacc. apply Hwf. unfold acc1, collected.
      destruct (worker i port) as [[[] text]|e]; trivial.
      now apply (dict_set_wf Z.eqb Z_eqb_eq).
    + intro q. rewrite Hkeys. unfold acc1, collected.
      destruct (worker i port) as [[[] text]|e] eqn:W.
      * rewrite (dict_set_keys_in Z.eqb Z_eqb_eq). split.
        -- intros [[->|H]|[j [t [Hj Hw]]]]; [| now left |].
           ++ right. exists i, text. split; [now left | assumption].
           ++ right. exists j, t. split; [now right | assumption].
        -- intros [H|[j [t [[[= <- <-]|Hj] Hw]]]].
           ++ left. now right.
           ++ left. now left.
           ++ right. now exists j, t.
      * split.
        -- intros [H|[j [t [Hj Hw]]]]; [now left|].
           right. exists j, t. split; [now right | assumption].
        -- intros [H|[j [t [[[= <- <-]|Hj] Hw]]]]; [now left | congruence |].
           right. now exists j, t.
      * split.
        -- intros [H|[j [t [Hj Hw]]]]; [now left|].
           right. exists j, t. split; [now right | assumption].
        -- intros [H|[j [t [[[= <- <-]|Hj] Hw]]]]; [now left | congruence |].
           right. now exists j, t.
    + intros futures Hincl Hacc. apply Hof.
      * intros x Hx. apply Hincl. now right.
      * unfold acc1, collected.
        destruct (worker i port) as [[[] text]|e] eqn:W; trivial.
        intros q info Hin. apply dict_set_items in Hin.
        destruct Hin as [[-> ->]|Hin]; [|now apply Hacc].
        simpl. split; [reflexivity|].
        exists i. split; [apply Hincl; now left | assumption].
Qed.

Lemma insert_by_perm finish f l : Permutation (insert_by finish f l) (f :: l).
Proof.
  induction l as [|g l IH]; simpl; [reflexivity|].
  destruct (Nat.leb (finish (fst f)) (finish (fst g))); [reflexivity|].
  rewrite IH. apply perm_swap.
Qed.

(** Every future completes, and completes once. *)
Lemma as_completed_perm finish futures :
  Permutation (as_completed finish futures) futures.
Proof.
  unfold as_completed. induction futures as [|f l IH]; simpl; [reflexivity|].
  rewrite insert_by_perm. now constructor.
Qed.

Lemma combine_seq_in (l : list Z) :
  forall s i q,
    In (i, q) (combine (seq s (List.length l)) l) <->
    (s <= i)%nat /\ nth_error l (i - s) = Some q.
Proof.
  induction l as [|x l IH]; intros s i q; simpl.
  - split; [tauto|]. intros [_ H]. now destruct (i - s)%nat.
  - rewrite IH. split.
    + intros [[= <- <-]|[Hle Hnth]].
      * rewrite Nat.sub_diag. split; [lia | reflexivity].
      * split; [lia|]. replace (i - s)%nat with (S (i - S s)) by lia.
        assumption.
    + intros [Hle Hnth]. destruct (i - s)%nat as [|n] eqn:E.
      * left. injection Hnth as ->. f_equal. lia.
      * right. split; [lia|]. replace (i - S s)%nat with n by lia.
        assumption.
Qed.

Lemma submit_all_in ports i q :
  In (i, q) (submit_all ports) <-> nth_error ports i = Some q.
Proof.
  unfold submit_all. rewrite combine_seq_in, Nat.sub_0_r.
  split; [tauto | split; [lia | assumption]].
Qed.

(** A scan over any worker, raising or not, returns a snapshot as soon
    as the pool has at least one worker thread. *)
Lemma scan_ports_with_total env ip worker ports st :
  0 < max_workers (config st) ->
  exists snapshot st',
    scan_ports_with env ip worker ports st = (Ok snapshot, st')
    /\ config st' = config st /\ monitored_ips st' = monitored_ips st
    /\ dict_wf snapshot
    /\ (forall q, dict_mem Z.eqb q snapshot = true <->
                  exists i text,
                    nth_error (ports_or_default ports) i = Some q
                    /\ worker i q = Ok (true, text))
    /\ snapshot_of worker (submit_all (ports_or_default ports)) snapshot.
Proof.
  intro Hpool. unfold scan_ports_with.
  destruct (max_workers (config st) <=? 0) eqn:E;
    [apply Z.leb_le in E; lia|].
  set (done := as_completed _ _).
  destruct (collect_loop env ip worker done [] (tick st))
    as [snap [st' [Hrun [Hc [Hm [Hwf [Hkeys Hof]]]]]]].
  exists snap, st'. split; [assumption|]. split; [assumption|].
  split; [assumption|]. split; [apply Hwf; constructor|]. split.
  - intro q. rewrite (dict_mem_keys Z.eqb Z_eqb_eq), Hkeys. simpl.
    split.
    + intros [[]|[i [text [Hin Hw]]]]. exists i, text. split; [|assumption].
      apply submit_all_in.
      apply (Permutation_in _ (as_completed_perm _ _) Hin).
    + intros [i [text [Hnth Hw]]]. right. exists i, text.
      split; [|assumption]. apply submit_all_in in Hnth.
      apply (Permutation_in _ (Permutation_sym (as_completed_perm _ _)) Hnth).
  - apply Hof.
    + intros x Hx. apply (Permutation_in _ (as_completed_perm _ _) Hx).
    + intros q info [].
Qed.

(** Every snapshot that a scan returns is a dictionary: its ports are
    pairwise distinct. *)
Lemma scan_ports_snapshot_wf env ip ports st snapshot st' :
  scan_ports env ip ports st = (Ok snapshot, st') -> dict_wf snapshot.
Proof.
  unfold scan_ports, scan_ports_with.
  destruct (max_workers (config st) <=? 0); [discriminate|].
  set (done := as_completed _ _). set (worker := fun i port => _).
  destruct (collect_loop env ip worker done [] (tick st))
    as [snap [st1 [Hrun [_ [_ [Hwf _]]]]]].
  rewrite Hrun. intros [= <- <-]. apply Hwf. constructor.
Qed.

(** C7: a probe never raises: it returns [open = true] exactly when its
    handshake succeeds, and [(False, "")] on any failure; and a scan, whatever
    its probes do (even over futures that raise), returns a snapshot that has
    every port some probe found open, labelled from that probe's banner. *)
Theorem probe_failures_contained env ip ports st
    (Hpool : 0 < max_workers (config st)) :
  (forall s timeout,
      exists text,
        scan_port s timeout = Ok (connects s timeout, text)
        /\ (connects s timeout = false -> text = ""))
  /\ (forall worker,
        exists snapshot st',
          scan_ports_with env ip worker ports st = (Ok snapshot, st')
          /\ forall q, dict_mem Z.eqb q snapshot = true <->
                       exists i text,
                         nth_error (ports_or_default ports) i = Some q
                         /\ worker i q = Ok (true, text))
  /\ exists snapshot st',
       scan_ports env ip ports st = (Ok snapshot, st')
       /\ (forall q, dict_mem Z.eqb q snapshot = true <->
                     exists i,
                       nth_error (ports_or_default ports) i = Some q
                       /\ connects (env_socket env (ticks st) i ip q)
                            (timeout (config st)) = true)
       /\ forall q info,
            In (q, info) snapshot ->
            service info = get_service_name q (banner info).
Proof.
  split; [|split].
  - apply scan_port_returns.
  - intro worker.
    destruct (scan_ports_with_total env ip worker ports st Hpool)
      as [snap [st' [Hrun [_ [_ [_ [Hkeys _]]]]]]].
    now exists snap, st'.
  - unfold scan_ports.
    destruct (scan_ports_with_total env ip
                (fun i port => scan_port (env_socket env (ticks st) i ip port)
                                 (timeout (config st)))
                ports st Hpool)
      as [snap [st' [Hrun [_ [_ [_ [Hkeys Hof]]]]]]].
    exists snap, st'. split; [assumption|]. split.
    + intro q. rewrite Hkeys. split.
      * intros [i [text [Hnth Hw]]]. exists i. split; [assumption|].
        destruct (scan_port_returns (env_socket env (ticks st) i ip q)
                    (timeout (config st))) as [t [Hr _]].
        rewrite Hr in Hw. now injection Hw.
      * intros [i [Hnth Hc]].
        destruct (scan_port_returns (env_socket env (ticks st) i ip q)
                    (timeout (config st))) as [t [Hr _]].
        exists i, t. split; [assumption|]. now rewrite Hr, Hc.
    + intros q info Hin. now destruct (Hof q info Hin).
Qed.

Lemma range_in a b p : In p (range a b) <-> a <= p < b.
Proof.
  unfold range. rewrite in_map_iff. split.
  - intros [i [<- Hi]]. apply in_seq in Hi. lia.
  - intro H. exists (Z.to_nat (p - a)). split; [lia|].
    apply in_seq. lia.
Qed.

Lemma range_nodup a b : NoDup (range a b).
Proof.
  unfold range. apply Finite.Injective_map_NoDup; [|apply seq_NoDup].
  intros i j H. lia.
Qed.

Lemma distinctb_nodup l : distinctb l = true -> NoDup l.
Proof.
  induction l as [|x l IH]; simpl; [constructor|].
  intro H. apply andb_prop in H. destruct H as [Hx Hl].
  constructor; [|auto]. intro Hin.
  assert (E : existsb (Z.eqb x) l = true).
  { apply existsb_exists. exists x. split; [assumption | apply Z.eqb_refl]. }
  now rewrite E in Hx.
Qed.

Lemma COMMON_SERVICES_wf : dict_wf COMMON_SERVICES.
Proof. apply distinctb_nodup. reflexivity. Qed.

Lemma count_occ_nodup (l : list Z) p :
  NoDup l ->
  count_occ Z.eq_dec l p = if existsb (Z.eqb p) l then 1%nat else 0%nat.
Proof.
  intro Hnd. destruct (existsb (Z.eqb p) l) eqn:E.
  - apply existsb_exists in E. destruct E as [x [Hin Hx]].
    apply Z.eqb_eq in Hx. subst x.
    rewrite (NoDup_count_occ Z.eq_dec) in Hnd. specialize (Hnd p).
    apply (count_occ_In Z.eq_dec) in Hin. lia.
  - apply count_occ_not_In. intro Hin.
    assert (E' : existsb (Z.eqb p) l = true).
    { apply existsb_exists. exists p. split; [assumption | apply Z.eqb_refl]. }
    congruence.
Qed.

Lemma submit_all_ports ports : map snd (submit_all ports) = ports.
Proof.
  unfold submit_all. generalize 0%nat.
  induction ports as [|p ports IH]; intro s; simpl; [reflexivity|].
  now rewrite IH.
Qed.

Lemma existsb_range a b p :
  existsb (Z.eqb p) (range a b) = ((a <=? p) && (p <? b))%bool.
Proof.
  destruct (existsb (Z.eqb p) (range a b)) eqn:E.
  - apply existsb_exists in E. destruct E as [x [Hin Hx]].
    apply Z.eqb_eq in Hx. subst x. apply range_in in Hin.
    symmetry. apply andb_true_intro. split; [apply Z.leb_le | apply Z.ltb_lt]; lia.
  - symmetry. apply not_true_is_false. intro H.
    apply andb_prop in H. destruct H as [H1 H2].
    apply Z.leb_le in H1. apply Z.ltb_lt in H2.
    assert (E' : existsb (Z.eqb p) (range a b) = true).
    { apply existsb_exists. exists p. split; [|apply Z.eqb_refl].
      apply range_in. lia. }
    congruence.
Qed.

(** C3, as the code has it: a scan without an explicit port list submits one
    probe for each entry of the keys of the table followed by 1..1000.  The
    ports probed are those of the union, but nothing removes the repeats: a
    port is probed once for the table if the table has it, and once more if
    it lies in 1..1000. *)
Theorem default_ports_union_with_repeats :
  map snd (submit_all (ports_or_default None))
  = (dict_keys COMMON_SERVICES ++ range 1 1001)%list
  /\ (forall p,
        In p (map snd (submit_all (ports_or_default None))) <->
        In p (dict_keys COMMON_SERVICES) \/ 1 <= p <= 1000)
  /\ (forall p,
        count_occ Z.eq_dec (map snd (submit_all (ports_or_default None))) p
        = ((if dict_mem Z.eqb p COMMON_SERVICES then 1 else 0)
           + (if ((1 <=? p)%Z && (p <=? 1000)%Z)%bool then 1 else 0))%nat)
  /\ List.length (submit_all (ports_or_default None)) = 1079%nat.
Proof.
  rewrite submit_all_ports. cbn [ports_or_default]. unfold default_ports.
  split; [reflexivity|]. split; [|split].
  - intro p. rewrite in_app_iff, range_in. split; intros [H|H]; auto;
      right; lia.
  - intro p. rewrite count_occ_app.
    rewrite (count_occ_nodup _ p COMMON_SERVICES_wf).
    rewrite (count_occ_nodup _ p (range_nodup 1 1001)).
    rewrite existsb_range. f_equal.
    + destruct (dict_mem Z.eqb p COMMON_SERVICES) eqn:E.
      * apply (dict_mem_keys Z.eqb Z_eqb_eq) in E.
        replace (existsb (Z.eqb p) (dict_keys COMMON_SERVICES)) with true;
          [reflexivity|].
        symmetry. apply existsb_exists. exists p.
        split; [assumption | apply Z.eqb_refl].
      * apply (dict_mem_false Z.eqb Z_eqb_eq) in E.
        replace (existsb (Z.eqb p) (dict_keys COMMON_SERVICES)) with false;
          [reflexivity|].
        symmetry. apply not_true_is_false. intro H.
        apply existsb_exists in H. destruct H as [x [Hin Hx]].
        apply Z.eqb_eq in Hx. now subst x.
    + replace (p <? 1001) with (p <=? 1000); [reflexivity|].
      destruct (p <=? 1000) eqn:E1, (p <? 1001) eqn:E2; trivial;
        [apply Z.leb_le in E1; apply Z.ltb_ge in E2
        |apply Z.leb_gt in E1; apply Z.ltb_lt in E2]; lia.
  - unfold submit_all. rewrite length_combine, length_seq, Nat.min_id.
    reflexivity.
Qed.

(** C3, as stated, fails: port 22 is in the table and in 1..1000, and a
    default scan probes it twice. *)
Lemma default_ports_probe_22_twice :
  count_occ Z.eq_dec (map snd (submit_all (ports_or_default None))) 22 = 2%nat
  /\ ~ NoDup (map snd (submit_all (ports_or_default None))).
Proof.
  assert (H : count_occ Z.eq_dec
                (map snd (submit_all (ports_or_default None))) 22 = 2%nat)
    by (vm_compute; reflexivity).
  split; [assumption|].
  intro Hnd. rewrite (NoDup_count_occ Z.eq_dec) in Hnd.
  specialize (Hnd 22). lia.
Qed.

(** ** The monitor *)

Lemma String_eqb_eq (a b : string) : String.eqb a b = true <-> a = b.
Proof. apply String.eqb_eq. Qed.

Lemma scan_ports_with_frame env ip worker ports st :
  config (snd (scan_ports_with env ip worker ports st)) = config st
  /\ monitored_ips (snd (scan_ports_with env ip worker ports st))
     = monitored_ips st.
Proof.
  unfold scan_ports_with.
  destruct (max_workers (config st) <=? 0); [now split|].
  set (done := as_completed _ _).
  destruct (collect_loop env ip worker done [] (tick st))
    as [snap [st' [Hrun [Hc [Hm _]]]]].
  rewrite Hrun. simpl. now split.
Qed.

Lemma scan_ports_frame env ip ports st :
  config (snd (scan_ports env ip ports st)) = config st
  /\ monitored_ips (snd (scan_ports env ip ports st)) = monitored_ips st.
Proof. unfold scan_ports. apply scan_ports_with_frame. Qed.

(** A loop keeps what each of its turns keeps. *)
Lemma fold_left_keeps {A B} (f : A -> B -> A) (P : A -> A -> Prop) :
  (forall a, P a a) ->
  (forall a b c, P a b -> P b c -> P a c) ->
  (forall a x, P a (f a x)) ->
  forall l a, P a (fold_left f l a).
Proof.
  intros Hrefl Htrans Hstep l.
  induction l as [|x l IH]; intro a; simpl; [apply Hrefl|].
  apply (Htrans _ (f a x)); [apply Hstep | apply IH].
Qed.

Lemma detect_changes_frame env old new ip st :
  config (snd (detect_changes env old new ip st)) = config st
  /\ monitored_ips (snd (detect_changes env old new ip st))
     = monitored_ips st.
Proof.
  unfold detect_changes, dict_items.
  pose (P := fun a b : list Change * State =>
               config (snd b) = config (snd a)
               /\ monitored_ips (snd b) = monitored_ips (snd a)).
  assert (Hrefl : forall a, P a a) by (now split).
  assert (Htrans : forall a b c, P a b -> P b c -> P a c).
  { intros a b c [H1 H2] [H3 H4]. split; congruence. }
  assert (H : P ([], st)
                (fold_left (service_step env old ip) new
                   (fold_left (closed_step env new ip) old
                      (fold_left (opened_step env old ip) new ([], st))))).
  { apply (Htrans _ (fold_left (opened_step env old ip) new ([], st))).
    - apply (fold_left_keeps _ P); trivial. intros [chs s] [q info].
      unfold opened_step. now destruct (negb (dict_mem Z.eqb q old)).
    - apply (Htrans _ (fold_left (closed_step env new ip) old
                         (fold_left (opened_step env old ip) new ([], st)))).
      + apply (fold_left_keeps _ P); trivial. intros [chs s] [q info].
        unfold closed_step. now destruct (negb (dict_mem Z.eqb q new)).
      + apply (fold_left_keeps _ P); trivial. intros [chs s] [q info].
        unfold service_step.
        destruct (dict_get Z.eqb old q) as [o|]; [|now split].
        now destruct (negb (String.eqb (service info) (service o))). }
  exact H.
Qed.

Lemma send_telegram_message_frame env message st :
  config (snd (send_telegram_message env message st)) = config st
  /\ monitored_ips (snd (send_telegram_message env message st))
     = monitored_ips st.
Proof.
  unfold send_telegram_message.
  destruct (negb (PyStr.truthy (token (telegram (config st))))
            || negb (PyStr.truthy (chat_id (telegram (config st)))))%bool;
    [now split|].
  now destruct (env_post env (ticks st) _ _ message).
Qed.

Lemma notify_frame env message st :
  config (notify env message st) = config st
  /\ monitored_ips (notify env message st) = monitored_ips st.
Proof.
  unfold notify.
  destruct (enabled (telegram (config st))
            && PyStr.truthy (chat_id (telegram (config st))))%bool;
    [apply send_telegram_message_frame | now split].
Qed.

(** Logging and notifying the changes never raises and leaves the
    monitored addresses as they are. *)
Lemma announce_loop env (chs : list Change) :
  forall st,
  exists st',
    for_each chs
      (fun _ change =>
         bind (exec (log env (change_message change) "INFO"))
           (fun _ => exec (notify env (change_message change))))
      tt st = (Ok tt, st')
    /\ monitored_ips st' = monitored_ips st.
Proof.
  induction chs as [|c chs IH]; intro st; simpl.
  - now exists st.
  - unfold bind at 1. unfold bind at 1. unfold exec at 1 2.
    destruct (IH (notify env (change_message c)
                    (log env (change_message c) "INFO" st)))
      as [st' [Hrun Hm]].
    exists st'. split; [assumption|].
    rewrite Hm. destruct (notify_frame env (change_message c)
                            (log env (change_message c) "INFO" st)) as [_ ->].
    apply log_frame.
Qed.

(** One turn of the loop, once its scan and its diff have completed. *)
Lemma monitor_ip_turn env ip st m current st1 chs st2
    (Hentry : dict_get String.eqb (monitored_ips st) ip = Some m)
    (Hscan : scan_ports env ip None (log env ("Scanning " ++ ip) "INFO" st)
             = (Ok current, st1))
    (Hdiff : detect_changes env (last_scan m) current ip st1 = (chs, st2)) :
  dict_get String.eqb (monitored_ips (monitor_ip env ip st)) ip
  = Some (if nonempty chs
          then mkMonitored current (changes m ++ chs)%list (start_time m)
          else m).
Proof.
  assert (Hm1 : monitored_ips st1 = monitored_ips st).
  { destruct (scan_ports_frame env ip None
                (log env ("Scanning " ++ ip) "INFO" st)) as [_ H].
    rewrite Hscan in H. cbn [snd] in H. rewrite H. apply log_frame. }
  assert (Hm2 : monitored_ips st2 = monitored_ips st).
  { destruct (detect_changes_frame env (last_scan m) current ip st1) as [_ H].
    rewrite Hdiff in H. cbn [snd] in H. congruence. }
  unfold monitor_ip, try_except, scan_and_diff.
  unfold bind at 1. unfold exec at 1.
  unfold bind at 1. rewrite Hscan.
  unfold bind at 1. unfold entry at 1. rewrite Hm1, Hentry.
  unfold bind at 1. unfold run at 1. rewrite Hdiff.
  destruct chs as [|c chs]; cbn [nonempty].
  - unfold exec. cbn [snd]. rewrite (proj1 (proj2 (log_frame _ _ _ _))).
    now rewrite Hm2.
  - unfold bind at 1. unfold extend_changes. unfold bind at 1.
    unfold entry at 1. rewrite Hm2, Hentry. unfold exec at 1.
    unfold bind at 1. unfold set_last_scan. unfold bind at 1.
    unfold entry at 1. unfold store. cbn [monitored_ips with_monitored_ips].
    rewrite Hm2, (dict_get_set_same String.eqb String_eqb_eq).
    unfold exec at 1. cbn [last_scan changes start_time].
    match goal with
    | |- context [for_each ?l ?body tt ?s] =>
        destruct (announce_loop env l s) as [st' [Hrun Hm']]
    end.
    rewrite Hrun. cbn [snd]. rewrite Hm'.
    cbn [monitored_ips with_monitored_ips].
    apply (dict_get_set_same String.eqb String_eqb_eq).
Qed.


(** *** What a turn leaves alone *)

Lemma same_elsewhere_refl ip st : same_elsewhere ip st st.
Proof. now intros other _. Qed.

Lemma same_elsewhere_trans ip a b c :
  same_elsewhere ip a b -> same_elsewhere ip b c -> same_elsewhere ip a c.
Proof.
  intros H1 H2 other Hne. now rewrite (H2 other Hne), (H1 other Hne).
Qed.

Lemma same_elsewhere_eq ip st st' :
  monitored_ips st' = monitored_ips st -> same_elsewhere ip st st'.
Proof. intros H other _. now rewrite H. Qed.

Lemma keeps_ret {A} ip (a : A) : keeps_elsewhere ip (ret a).
Proof. intro st. apply same_elsewhere_refl. Qed.

Lemma keeps_bind {A B} ip (m : M A) (k : A -> M B) :
  keeps_elsewhere ip m -> (forall a, keeps_elsewhere ip (k a)) ->
  keeps_elsewhere ip (bind m k).
Proof.
  intros Hm Hk st. unfold bind. specialize (Hm st).
  destruct (m st) as [[a|e] st1]; cbn [snd] in *; [|assumption].
  apply (same_elsewhere_trans _ _ st1); [assumption | apply Hk].
Qed.

Lemma keeps_try_except {A} ip (m : M A) (h : Exception -> M A) :
  keeps_elsewhere ip m -> (forall e, keeps_elsewhere ip (h e)) ->
  keeps_elsewhere ip (try_except m h).
Proof.
  intros Hm Hh st. unfold try_except. specialize (Hm st).
  destruct (m st) as [[a|e] st1]; cbn [snd] in *; [assumption|].
  apply (same_elsewhere_trans _ _ st1); [assumption | apply Hh].
Qed.

Lemma keeps_exec ip (f : State -> State) :
  (forall st, same_elsewhere ip st (f st)) -> keeps_elsewhere ip (exec f).
Proof. intros H st. apply H. Qed.

Lemma keeps_run {A} ip (f : State -> A * State) :
  (forall st, same_elsewhere ip st (snd (f st))) -> keeps_elsewhere ip (run f).
Proof.
  intros H st. unfold run. specialize (H st). now destruct (f st).
Qed.

Lemma keeps_for_each {A B} ip (body : B -> A -> M B) (l : list A) :
  (forall b a, keeps_elsewhere ip (body b a)) ->
  forall b, keeps_elsewhere ip (for_each l body b).
Proof.
  intro Hbody. induction l as [|a l IH]; intro b; simpl.
  - apply keeps_ret.
  - apply keeps_bind; [apply Hbody | apply IH].
Qed.

Lemma keeps_log env ip message level :
  keeps_elsewhere ip (exec (log env message level)).
Proof.
  apply keeps_exec. intro st. apply same_elsewhere_eq, log_frame.
Qed.

Lemma keeps_notify env ip message :
  keeps_elsewhere ip (exec (notify env message)).
Proof.
  apply keeps_exec. intro st. apply same_elsewhere_eq, notify_frame.
Qed.

Lemma keeps_scan_ports env ip ports : keeps_elsewhere ip (scan_ports env ip ports).
Proof. intro st. apply same_elsewhere_eq, scan_ports_frame. Qed.

Lemma keeps_entry ip : keeps_elsewhere ip (entry ip).
Proof.
  intro st. unfold entry.
  destruct (dict_get String.eqb (monitored_ips st) ip);
    apply same_elsewhere_refl.
Qed.

Lemma keeps_store ip m : keeps_elsewhere ip (exec (store ip m)).
Proof.
  apply keeps_exec. intros st other Hne. unfold store.
  cbn [monitored_ips with_monitored_ips].
  now apply (dict_get_set_other String.eqb String_eqb_eq).
Qed.

Lemma keeps_detect_changes env ip old new :
  keeps_elsewhere ip (run (detect_changes env old new ip)).
Proof.
  apply keeps_run. intro st. apply same_elsewhere_eq, detect_changes_frame.
Qed.

Create HintDb frame.

#[local] Hint Resolve keeps_ret keeps_log keeps_notify keeps_scan_ports
  keeps_entry keeps_store keeps_detect_changes : frame.

(** Walks through a computation statement by statement. *)
Ltac frame :=
  repeat match goal with
         | |- keeps_elsewhere _ (bind _ _) => apply keeps_bind; [|intro]
         | |- keeps_elsewhere _ (for_each _ _ _) =>
             apply keeps_for_each; intros
         | |- keeps_elsewhere _ (if ?b then _ else _) => destruct b
         | |- keeps_elsewhere _ _ => solve [auto with frame]
         end.

(** A turn for [ip] leaves the records of the other addresses alone. *)
Lemma monitor_ip_elsewhere env ip st :
  same_elsewhere ip st (monitor_ip env ip st).
Proof.
  unfold monitor_ip.
  apply (keeps_try_except ip (scan_and_diff env ip)); [|auto with frame].
  unfold scan_and_diff, extend_changes, set_last_scan. cbv zeta. frame.
Qed.

(** The later turns of a cycle do not touch the record of an address whose
    turn has passed. *)
Lemma later_turns_elsewhere env ip (later : list string) :
  ~ In ip later ->
  forall st,
    dict_get String.eqb
      (monitored_ips (fold_left (fun st ip => monitor_ip env ip st) later st))
      ip
    = dict_get String.eqb (monitored_ips st) ip.
Proof.
  induction later as [|other later IH]; intros Hnotin st; simpl;
    [reflexivity|].
  rewrite IH by (intro H; apply Hnotin; now right).
  apply monitor_ip_elsewhere. intros ->. apply Hnotin. now left.
Qed.

(** C1, as the code has it: in a cycle, when the scan and the diff of a
    monitored address have completed, its record is rewritten only if the
    diff found a change: then the new snapshot replaces [last_scan] and the
    changes are appended to the log; with no change the record, and with it
    the previous snapshot, is as it was, at the end of the turn and at the
    end of the cycle. *)
Theorem monitoring_cycle_replaces_on_change env st before ip after
    m current st1 chs st2
    (Hwf : dict_wf (monitored_ips st))
    (Hkeys : dict_keys (monitored_ips st) = (before ++ ip :: after)%list)
    (Hentry :
       dict_get String.eqb
         (monitored_ips
            (fold_left (fun st ip => monitor_ip env ip st) before st)) ip
       = Some m)
    (Hscan :
       scan_ports env ip None
         (log env ("Scanning " ++ ip) "INFO"
            (fold_left (fun st ip => monitor_ip env ip st) before st))
       = (Ok current, st1))
    (Hdiff : detect_changes env (last_scan m) current ip st1 = (chs, st2)) :
  let turn :=
    monitor_ip env ip
      (fold_left (fun st ip => monitor_ip env ip st) before st) in
  let record :=
    if nonempty chs
    then mkMonitored current (changes m ++ chs)%list (start_time m)
    else m in
  dict_get String.eqb (monitored_ips turn) ip = Some record
  /\ dict_get String.eqb (monitored_ips (monitoring_cycle env st)) ip
     = Some record.
Proof.
  intros turn record.
  assert (Hturn : dict_get String.eqb (monitored_ips turn) ip = Some record)
    by (apply (monitor_ip_turn env ip _ m current st1 chs st2); assumption).
  split; [exact Hturn|].
  unfold monitoring_cycle. unfold act. cbn [monitored_ips].
  rewrite Hkeys, fold_left_app. cbn [fold_left].
  rewrite later_turns_elsewhere; [exact Hturn|].
  unfold dict_wf in Hwf. rewrite Hkeys in Hwf.
  apply NoDup_remove_2 in Hwf. intro H. apply Hwf.
  apply in_or_app. now right.
Qed.

Lemma monitoring_cycle_replaces_on_change_witness :
  dict_wf (monitored_ips unseen)
  /\ dict_keys (monitored_ips unseen) = ([] ++ "10.0.0.1" :: [])%list
  /\ dict_get String.eqb (monitored_ips unseen) "10.0.0.1"
     = Some (mkMonitored [] [] "T0")
  /\ dict_get String.eqb
       (monitored_ips (monitoring_cycle web_host unseen)) "10.0.0.1"
     = Some (mkMonitored (web_snapshot "T4")
               [port_opened 80 "http" "T5"
                  "🚨 NEW PORT OPENED on 10.0.0.1:80 (http)"]
               "T0").
Proof.
  assert (Hwf : dict_wf (monitored_ips unseen)).
  { unfold dict_wf. simpl. constructor; [intros [] | constructor]. }
  split; [exact Hwf|]. split; [reflexivity|]. split; [reflexivity|].
  apply (monitoring_cycle_replaces_on_change web_host unseen [] "10.0.0.1" []
           (mkMonitored [] [] "T0") (web_snapshot "T4")
           (snd (scan_ports web_host "10.0.0.1" None
                   (log web_host ("Scanning " ++ "10.0.0.1") "INFO" unseen)))
           [port_opened 80 "http" "T5"
              "🚨 NEW PORT OPENED on 10.0.0.1:80 (http)"]
           (snd (detect_changes web_host [] (web_snapshot "T4") "10.0.0.1"
                   (snd (scan_ports web_host "10.0.0.1" None
                           (log web_host ("Scanning " ++ "10.0.0.1") "INFO"
                              unseen))))));
    try exact Hwf; vm_compute; reflexivity.
Defined.

(** C1, as stated, fails: the host has not changed, the new snapshot differs
    from the previous one by its time only, the diff is empty, and the
    previous snapshot stays in place. *)
Lemma monitor_ip_keeps_previous_snapshot :
  fst (scan_ports web_host "10.0.0.1" None
         (log web_host ("Scanning " ++ "10.0.0.1") "INFO" watching))
  = Ok (web_snapshot "T4")
  /\ fst (detect_changes web_host (web_snapshot "T0") (web_snapshot "T4")
            "10.0.0.1"
            (snd (scan_ports web_host "10.0.0.1" None
                    (log web_host ("Scanning " ++ "10.0.0.1") "INFO"
                       watching))))
     = []
  /\ option_map last_scan
       (dict_get String.eqb
          (monitored_ips (monitor_ip web_host "10.0.0.1" watching))
          "10.0.0.1")
     = Some (web_snapshot "T0")
  /\ web_snapshot "T0" <> web_snapshot "T4".
Proof.
  split; [vm_compute; reflexivity|].
  split; [vm_compute; reflexivity|].
  split; [vm_compute; reflexivity|].
  discriminate.
Qed.

(** C6, as the code has it: [start_monitoring] on an address that is already
    monitored does not fail: it returns as it does after a successful call,
    having logged one line at level INFO, and it leaves the monitored
    addresses (their last snapshots, change logs and start times), the
    configuration and the service flag as they were; it pings, scans, saves
    and notifies nothing. *)
Theorem start_monitoring_again_is_logged env ip st
    (Hmon : dict_mem String.eqb ip (monitored_ips st) = true) :
  start_monitoring env ip st
  = (Ok tt, log env ("Already monitoring " ++ ip) "INFO" st)
  /\ monitored_ips (snd (start_monitoring env ip st)) = monitored_ips st
  /\ config (snd (start_monitoring env ip st)) = config st
  /\ scanning_active (snd (start_monitoring env ip st)) = scanning_active st
  /\ trace (snd (start_monitoring env ip st))
     = (trace st
        ++ [Print ("[" ++ env_strftime env (ticks st) ++ "] [" ++ "INFO"
                   ++ "] " ++ "Already monitoring " ++ ip)])%list.
Proof.
  unfold start_monitoring. rewrite Hmon.
  unfold bind, exec, ret. cbn [snd].
  repeat split; reflexivity.
Qed.

Lemma start_monitoring_again_is_logged_witness :
  dict_mem String.eqb "10.0.0.1" (monitored_ips watching) = true
  /\ monitored_ips (snd (start_monitoring web_host "10.0.0.1" watching))
     = [("10.0.0.1", mkMonitored (web_snapshot "T0") [] "T0")].
Proof.
  split; [reflexivity|].
  apply (start_monitoring_again_is_logged web_host "10.0.0.1" watching).
  reflexivity.
Defined.

(** C6, as stated, fails: the second call for a monitored address returns
    normally, as the call for a new address does; no error reaches the
    caller. *)
Lemma start_monitoring_again_returns_normally :
  dict_mem String.eqb "10.0.0.1" (monitored_ips watching) = true
  /\ fst (start_monitoring web_host "10.0.0.1" watching) = Ok tt
  /\ (forall e,
         fst (start_monitoring web_host "10.0.0.1" watching) <> Raise e)
  /\ fst (start_monitoring web_host "10.0.0.2" watching) = Ok tt.
Proof.
  split; [reflexivity|].
  split; [reflexivity|].
  split; [intros e H; vm_compute in H; discriminate|].
  vm_compute. reflexivity.
Qed.

(** ** The theorems at work on the small world *)

Lemma classify_443_https_iff_witness :
  option_map rule_keyword (first_matching_rule "HTTP/1.1 200 OK")
  = Some "http"
  /\ get_service_name 443 "HTTP/1.1 200 OK" = "https"
  /\ get_service_name 8080 "HTTP/1.1 200 OK" = "http".
Proof.
  split; [reflexivity|]. split.
  - apply (proj2 (classify_443_https_iff "HTTP/1.1 200 OK") 443). reflexivity.
  - apply (proj2 (classify_443_https_iff "HTTP/1.1 200 OK") 8080). reflexivity.
Defined.

Lemma detect_changes_events_witness :
  dict_wf snapshot_before /\ dict_wf snapshot_after
  /\ let result :=
       fst (detect_changes web_host snapshot_before snapshot_after "10.0.0.1"
              watching) in
     List.length (events_at Opened 443 result) = 1%nat
     /\ List.length (events_at Closed 80 result) = 1%nat
     /\ List.length (events_at ServiceChanged 22 result) = 1%nat
     /\ forall c, In c result -> change_port c <> 8080.
Proof.
  assert (Hb : dict_wf snapshot_before) by (apply distinctb_nodup; reflexivity).
  assert (Ha : dict_wf snapshot_after) by (apply distinctb_nodup; reflexivity).
  split; [exact Hb|]. split; [exact Ha|].
  destruct (detect_changes_events web_host snapshot_before snapshot_after
              "10.0.0.1" watching Hb Ha) as [Hcount [_ Hsame]].
  intro result. split; [|split; [|split]].
  - exact (proj1 (Hcount 443)).
  - exact (proj1 (proj2 (Hcount 80))).
  - exact (proj2 (proj2 (Hcount 22))).
  - apply (Hsame 8080 (mkPortInfo "http-proxy" "" "T0")
             (mkPortInfo "http-proxy" "Squid" "T9")); reflexivity.
Defined.

Lemma detect_changes_same_witness :
  dict_wf (web_snapshot "T0")
  /\ detect_changes web_host (web_snapshot "T0") (web_snapshot "T0")
       "10.0.0.1" watching
     = ([], watching).
Proof.
  assert (H : dict_wf (web_snapshot "T0"))
    by (apply distinctb_nodup; reflexivity).
  split; [exact H|].
  apply (detect_changes_same web_host (web_snapshot "T0") "10.0.0.1"
           watching H).
Defined.

Lemma probe_failures_contained_witness :
  0 < max_workers (config watching)
  /\ scan_port dns_failure 2 = Ok (false, "")
  /\ exists snapshot st',
       scan_ports flaky_host "10.0.0.1" (Some [22; 80; 443]) watching
       = (Ok snapshot, st')
       /\ dict_mem Z.eqb 80 snapshot = true
       /\ dict_mem Z.eqb 22 snapshot = false.
Proof.
  assert (Hpool : 0 < max_workers (config watching)) by reflexivity.
  split; [exact Hpool|].
  destruct (probe_failures_contained flaky_host "10.0.0.1"
              (Some [22; 80; 443]) watching Hpool)
    as [Hprobe [_ [snapshot [st' [Hrun [Hkeys _]]]]]].
  split.
  - destruct (Hprobe dns_failure 2) as [text [Hr Hempty]].
    rewrite Hr. now rewrite (Hempty eq_refl).
  - exists snapshot, st'. split; [exact Hrun|]. split.
    + apply Hkeys. exists 1%nat. split; reflexivity.
    + destruct (dict_mem Z.eqb 22 snapshot) eqn:E; [|reflexivity].
      apply Hkeys in E. destruct E as [i [Hnth Hc]].
      destruct i as [|[|[|i]]]; simpl in Hnth; discriminate.
Defined.

(* ================================================================== *)
(** * Further properties *)

(** ** The log *)

Lemma deque_append_spec {A} (n : nat) (d : list A) (x : A) :
  (0 < n)%nat ->
  deque_append n d x = (skipn (S (List.length d) - n) d ++ [x])%list
  /\ List.length (deque_append n d x) = Nat.min (S (List.length d)) n.
Proof.
  intro Hn. unfold deque_append.
  rewrite length_app. cbn [List.length]. rewrite Nat.add_1_r. split.
  - rewrite skipn_app.
    replace (S (List.length d) - n - List.length d)%nat with 0%nat by lia.
    reflexivity.
  - rewrite length_skipn, length_app. cbn [List.length]. lia.
Qed.

(** X1: [log] prints its line and makes it the newest entry of the history;
    the oldest entries go, so that the history never holds more than 1000
    lines. *)
Theorem log_history_bounded env message level st :
  let line :=
    "[" ++ env_strftime env (ticks st) ++ "] [" ++ level ++ "] " ++ message in
  history (log env message level st)
  = (skipn (S (List.length (history st)) - 1000) (history st) ++ [line])%list
  /\ (List.length (history (log env message level st)) <= 1000)%nat
  /\ trace (log env message level st) = (trace st ++ [Print line])%list.
Proof.
  intro line. unfold log. cbn [history with_history act tick trace].
  destruct (deque_append_spec 1000 (history st) line) as [Heq Hlen]; [lia|].
  fold line. rewrite Hlen, Heq. repeat split. lia.
Qed.

(** ** The differ, continued *)

Lemma advance_0 st : advance 0 st = st.
Proof. destruct st. unfold advance. cbn. now rewrite Nat.add_0_r. Qed.

Lemma advance_tick n st : advance n (tick st) = advance (S n) st.
Proof. unfold advance, tick. cbn. f_equal. lia. Qed.

Lemma opened_step_reading env old ip : one_reading env (opened_step env old ip).
Proof.
  intros chs st [port info]. unfold opened_step, now_iso.
  destruct (negb (dict_mem Z.eqb port old)); [right | now left].
  eexists. split; reflexivity.
Qed.

Lemma closed_step_reading env new ip : one_reading env (closed_step env new ip).
Proof.
  intros chs st [port info]. unfold closed_step, now_iso.
  destruct (negb (dict_mem Z.eqb port new)); [right | now left].
  eexists. split; reflexivity.
Qed.

Lemma service_step_reading env old ip :
  one_reading env (service_step env old ip).
Proof.
  intros chs st [port info]. unfold service_step, now_iso.
  destruct (dict_get Z.eqb old port) as [o|]; [|now left].
  destruct (negb (String.eqb (service info) (service o))); [right | now left].
  eexists. split; reflexivity.
Qed.

Lemma fold_left_invariant {A B} (I : A -> Prop) (f : A -> B -> A) (l : list B) :
  (forall a x, I a -> I (f a x)) -> forall a, I a -> I (fold_left f l a).
Proof.
  intro Hstep. induction l as [|x l IH]; intros a Ha; simpl; auto.
Qed.

Lemma stamped_snoc env t chs c :
  stamped env t chs ->
  change_time c = env_isoformat env (t + List.length chs) ->
  stamped env t (chs ++ [c]).
Proof.
  unfold stamped. intros Hchs Hc.
  rewrite map_app, length_app. cbn [List.length map].
  rewrite Nat.add_1_r, seq_S, map_app. cbn [map]. now rewrite Hchs, Hc.
Qed.

Lemma loop_readings env st0 step items :
  one_reading env step ->
  forall acc,
    snd acc = advance (List.length (fst acc)) st0
    /\ stamped env (ticks st0) (fst acc) ->
    snd (fold_left step items acc)
    = advance (List.length (fst (fold_left step items acc))) st0
    /\ stamped env (ticks st0) (fst (fold_left step items acc)).
Proof.
  intros Hstep acc Hacc.
  apply (fold_left_invariant
           (fun acc => snd acc = advance (List.length (fst acc)) st0
                       /\ stamped env (ticks st0) (fst acc))); [|exact Hacc].
  intros [chs st] item [Hst Hchs]. cbn [fst snd] in *.
  destruct (Hstep chs st item) as [E|[c [E Hc]]]; rewrite E; cbn [fst snd].
  - now split.
  - split.
    + rewrite Hst, length_app. cbn [List.length].
      unfold tick, advance. cbn. f_equal. lia.
    + apply stamped_snoc; [assumption|]. rewrite Hc, Hst. reflexivity.
Qed.

(** X2: [detect_changes] reads the clock once for each change it returns,
    in the order of the list, and does nothing else to the state: no line is
    logged, nothing is sent, no record is touched. *)
Theorem detect_changes_reads_clock env (old new : Scan) ip st :
  snd (detect_changes env old new ip st)
  = advance (List.length (fst (detect_changes env old new ip st))) st
  /\ stamped env (ticks st) (fst (detect_changes env old new ip st)).
Proof.
  unfold detect_changes, dict_items.
  apply loop_readings; [apply service_step_reading|].
  apply loop_readings; [apply closed_step_reading|].
  apply loop_readings; [apply opened_step_reading|].
  cbn [fst snd List.length]. split; [now rewrite advance_0 | reflexivity].
Qed.

Lemma flat_map_single {A B} (f : A -> B) (l : list A) :
  flat_map (fun x => [f x]) l = map f l.
Proof. induction l as [|x l IH]; simpl; [reflexivity | now rewrite IH]. Qed.

Lemma flat_map_none {A B} (l : list A) : flat_map (fun _ => @nil B) l = [].
Proof. induction l as [|x l IH]; simpl; auto. Qed.

(** X3: against an empty previous snapshot every port of the new snapshot
    is reported opened, once and in the order of the snapshot, and nothing
    else is reported; against an empty new snapshot every port of the
    previous one is reported closed in the same way. *)
Theorem detect_changes_from_empty env (snapshot : Scan) ip st :
  map untimed (fst (detect_changes env [] snapshot ip st))
  = map (fun item =>
           port_opened (fst item) (service (snd item)) ""
             (opened_message ip (fst item) (service (snd item))))
      snapshot
  /\ map untimed (fst (detect_changes env snapshot [] ip st))
     = map (fun item =>
              port_closed (fst item) (service (snd item)) ""
                (closed_message ip (fst item) (service (snd item))))
         snapshot.
Proof.
  rewrite !detect_changes_untimed. cbn [flat_map]. split.
  - rewrite (flat_map_ext (changed_of [] ip) (fun _ => [])) by reflexivity.
    rewrite flat_map_none, !app_nil_r. apply flat_map_single.
  - rewrite app_nil_r. apply flat_map_single.
Qed.

(** How many events of each kind a port has. *)
Lemma detect_changes_counts env (old new : Scan) ip st p :
  dict_wf old -> dict_wf new ->
  List.length (events_at Opened p (fst (detect_changes env old new ip st)))
  = (if (dict_mem Z.eqb p new && negb (dict_mem Z.eqb p old))%bool
     then 1 else 0)%nat
  /\ List.length (events_at Closed p (fst (detect_changes env old new ip st)))
     = (if (dict_mem Z.eqb p old && negb (dict_mem Z.eqb p new))%bool
        then 1 else 0)%nat
  /\ List.length
       (events_at ServiceChanged p (fst (detect_changes env old new ip st)))
     = match dict_get Z.eqb old p, dict_get Z.eqb new p with
       | Some o, Some n =>
           if String.eqb (service n) (service o) then 0%nat else 1%nat
       | _, _ => 0%nat
       end.
Proof.
  intros Hold Hnew.
  rewrite (events_at_untimed Opened p (fst (detect_changes env old new ip st))),
    (events_at_untimed Closed p (fst (detect_changes env old new ip st))),
    (events_at_untimed ServiceChanged p
       (fst (detect_changes env old new ip st))),
    detect_changes_untimed.
  rewrite !events_at_app, !length_app.
  rewrite !(opened_loop_count _ p old new ip Hnew).
  rewrite !(closed_loop_count _ p old new ip Hold).
  rewrite !(changed_loop_count _ p old new ip Hnew).
  unfold dict_mem.
  destruct (dict_get Z.eqb new p) as [n|], (dict_get Z.eqb old p) as [o|];
    simpl; try (repeat split; reflexivity).
  destruct (String.eqb (service n) (service o)); repeat split; reflexivity.
Qed.

Lemma events_at_nil k p : events_at k p [] = [].
Proof. reflexivity. Qed.

(** X4: [detect_changes] returns no change exactly when the two snapshots
    have the same ports with the same service labels; banners, times and
    the order of the entries do not count. *)
Theorem detect_changes_empty_iff env (old new : Scan) ip st
    (Hold : dict_wf old) (Hnew : dict_wf new) :
  fst (detect_changes env old new ip st) = [] <->
  forall p,
    option_map service (dict_get Z.eqb old p)
    = option_map service (dict_get Z.eqb new p).
Proof.
  split.
  - intros Hnil p.
    destruct (detect_changes_counts env old new ip st p Hold Hnew)
      as [Ho [Hc Hs]].
    rewrite Hnil in Ho, Hc, Hs. rewrite events_at_nil in Ho, Hc, Hs.
    unfold dict_mem in Ho, Hc. cbn [List.length] in *.
    destruct (dict_get Z.eqb old p) as [o|], (dict_get Z.eqb new p) as [n|];
      cbn in *; try discriminate; [|reflexivity].
    destruct (String.eqb (service n) (service o)) eqn:E; [|discriminate].
    apply String.eqb_eq in E. now rewrite E.
  - intro Hsame.
    destruct (fst (detect_changes env old new ip st)) as [|c rest] eqn:E;
      [reflexivity|].
    assert (Hin : In c (fst (detect_changes env old new ip st)))
      by (rewrite E; now left).
    apply (detect_changes_justified env old new ip st c Hold Hnew) in Hin.
    destruct c as [q s t m|q s t m|q so sn t m]; simpl in Hin;
      specialize (Hsame q).
    + destruct Hin as [Hmem [info [Hget _]]]. unfold dict_mem in Hmem.
      rewrite Hget in Hsame.
      destruct (dict_get Z.eqb old q); discriminate.
    + destruct Hin as [Hmem [info [Hget _]]]. unfold dict_mem in Hmem.
      rewrite Hget in Hsame.
      destruct (dict_get Z.eqb new q); discriminate.
    + destruct Hin as [oi [ni [Hoi [Hni [-> [-> [Hne _]]]]]]].
      rewrite Hoi, Hni in Hsame. simpl in Hsame. congruence.
Qed.

Lemma detect_changes_empty_iff_witness :
  dict_wf (web_snapshot "T0") /\ dict_wf (web_snapshot "T4")
  /\ fst (detect_changes web_host (web_snapshot "T0") (web_snapshot "T4")
            "10.0.0.1" watching)
     = [].
Proof.
  assert (H0 : dict_wf (web_snapshot "T0"))
    by (apply distinctb_nodup; reflexivity).
  assert (H4 : dict_wf (web_snapshot "T4"))
    by (apply distinctb_nodup; reflexivity).
  split; [exact H0|]. split; [exact H4|].
  apply (detect_changes_empty_iff web_host (web_snapshot "T0")
           (web_snapshot "T4") "10.0.0.1" watching H0 H4).
  intro p. simpl. now destruct (p =? 80).
Defined.

(** X5: the diff taken the other way round mirrors the diff: a port has an
    opened event one way exactly when it has a closed event the other way,
    and a service-change event one way exactly when it has one the other
    way, with the two labels exchanged. *)
Theorem detect_changes_mirror env (old new : Scan) ip st st' p
    (Hold : dict_wf old) (Hnew : dict_wf new) :
  List.length (events_at Opened p (fst (detect_changes env old new ip st)))
  = List.length (events_at Closed p (fst (detect_changes env new old ip st')))
  /\ List.length
       (events_at ServiceChanged p (fst (detect_changes env old new ip st)))
     = List.length
         (events_at ServiceChanged p
            (fst (detect_changes env new old ip st')))
  /\ forall a b t m,
       In (service_change p a b t m) (fst (detect_changes env old new ip st)) ->
       exists t',
         In (service_change p b a t' (service_message ip p b a))
           (fst (detect_changes env new old ip st')).
Proof.
  destruct (detect_changes_counts env old new ip st p Hold Hnew)
    as [Ho [_ Hs]].
  destruct (detect_changes_counts env new old ip st' p Hnew Hold)
    as [_ [Hc Hs']].
  split; [congruence|]. split.
  - rewrite Hs, Hs'.
    destruct (dict_get Z.eqb old p) as [o|], (dict_get Z.eqb new p) as [n|];
      trivial.
    now rewrite String.eqb_sym.
  - intros a b t m Hin.
    apply (detect_changes_justified env old new ip st _ Hold Hnew) in Hin.
    destruct Hin as [oi [ni [Hoi [Hni [-> [-> [Hne _]]]]]]].
    assert (Hone : List.length
                     (events_at ServiceChanged p
                        (fst (detect_changes env new old ip st'))) = 1%nat).
    { rewrite Hs', Hoi, Hni.
      destruct (String.eqb (service oi) (service ni)) eqn:E;
        [apply String.eqb_eq in E; congruence | reflexivity]. }
    destruct (events_at ServiceChanged p
                (fst (detect_changes env new old ip st'))) as [|c rest] eqn:E;
      [discriminate|].
    assert (Hc' : In c (events_at ServiceChanged p
                          (fst (detect_changes env new old ip st'))))
      by (rewrite E; now left).
    unfold events_at in Hc'. apply filter_In in Hc'.
    destruct Hc' as [Hin' Hkp]. apply andb_prop in Hkp.
    destruct Hkp as [Hk Hp]. apply Z.eqb_eq in Hp.
    pose proof (detect_changes_justified env new old ip st' c Hnew Hold Hin')
      as Hj.
    destruct c as [q s t' m'|q s t' m'|q so sn t' m']; simpl in Hk, Hp, Hj;
      try discriminate.
    subst q. destruct Hj as [x [y [Hx [Hy [-> [-> [_ ->]]]]]]].
    rewrite Hni in Hx. rewrite Hoi in Hy.
    injection Hx as <-. injection Hy as <-.
    now exists t'.
Qed.

Lemma detect_changes_mirror_witness :
  dict_wf snapshot_before /\ dict_wf snapshot_after
  /\ List.length
       (events_at Opened 443
          (fst (detect_changes web_host snapshot_before snapshot_after
                  "10.0.0.1" watching)))
     = List.length
         (events_at Closed 443
            (fst (detect_changes web_host snapshot_after snapshot_before
                    "10.0.0.1" watching))).
Proof.
  assert (Hb : dict_wf snapshot_before) by (apply distinctb_nodup; reflexivity).
  assert (Ha : dict_wf snapshot_after) by (apply distinctb_nodup; reflexivity).
  split; [exact Hb|]. split; [exact Ha|].
  apply (detect_changes_mirror web_host snapshot_before snapshot_after
           "10.0.0.1" watching watching 443 Hb Ha).
Defined.

(** ** The scanner, continued *)

Lemma ping_ip_frame env ip st :
  config (snd (ping_ip env ip st)) = config st
  /\ monitored_ips (snd (ping_ip env ip st)) = monitored_ips st.
Proof. unfold ping_ip. now destruct (env_ping env (ticks st) ip). Qed.

Lemma save_config_frame env st :
  config (save_config env st) = config st
  /\ monitored_ips (save_config env st) = monitored_ips st.
Proof.
  unfold save_config.
  now destruct (env_write_config env (ticks st) (config st)).
Qed.

(** X6: which ports a scan reports open does not depend on the order in
    which the probes complete: two scans of the same ports that meet the same
    sockets report the same ports, and, when no port is asked twice, the same
    service label and banner for each. *)
Theorem scan_ports_order_irrelevant env env' ip ports st st'
    (Hpool : 0 < max_workers (config st))
    (Hpool' : 0 < max_workers (config st'))
    (Htimeout : timeout (config st') = timeout (config st))
    (Hsockets :
       forall i port,
         env_socket env' (ticks st') i ip port
         = env_socket env (ticks st) i ip port) :
  exists snapshot snapshot' s s',
    scan_ports env ip ports st = (Ok snapshot, s)
    /\ scan_ports env' ip ports st' = (Ok snapshot', s')
    /\ (forall q, dict_mem Z.eqb q snapshot = dict_mem Z.eqb q snapshot')
    /\ (NoDup (ports_or_default ports) ->
        forall q,
          option_map (fun info => (service info, banner info))
            (dict_get Z.eqb snapshot q)
          = option_map (fun info => (service info, banner info))
              (dict_get Z.eqb snapshot' q)).
Proof.
  unfold scan_ports.
  set (worker := fun i port =>
         scan_port (env_socket env (ticks st) i ip port) (timeout (config st))).
  set (worker' := fun i port =>
         scan_port (env_socket env' (ticks st') i ip port)
           (timeout (config st'))).
  assert (Hworker : forall i port, worker' i port = worker i port).
  { intros i port. unfold worker, worker'. now rewrite Htimeout, Hsockets. }
  destruct (scan_ports_with_total env ip worker ports st Hpool)
    as [snap [s [Hrun [_ [_ [Hwf [Hkeys Hof]]]]]]].
  destruct (scan_ports_with_total env' ip worker' ports st' Hpool')
    as [snap' [s' [Hrun' [_ [_ [Hwf' [Hkeys' Hof']]]]]]].
  exists snap, snap', s, s'.
  split; [exact Hrun|]. split; [exact Hrun'|].
  assert (Hmem : forall q, dict_mem Z.eqb q snap = dict_mem Z.eqb q snap').
  { intro q. apply eq_true_iff_eq. rewrite Hkeys, Hkeys'.
    split; intros [i [text [Hnth Hw]]]; exists i, text;
      (split; [assumption|]); [now rewrite Hworker | now rewrite <- Hworker]. }
  split; [exact Hmem|].
  intros Hnodup q. specialize (Hmem q). unfold dict_mem in Hmem.
  destruct (dict_get Z.eqb snap q) as [info|] eqn:E,
           (dict_get Z.eqb snap' q) as [info'|] eqn:E';
    try discriminate; [|reflexivity].
  apply (dict_get_in_items Z.eqb Z_eqb_eq) in E, E'.
  destruct (Hof q info E) as [Hs [i [Hi Hw]]].
  destruct (Hof' q info' E') as [Hs' [j [Hj Hw']]].
  apply submit_all_in in Hi, Hj.
  assert (Hij : i = j).
  { rewrite NoDup_nth_error in Hnodup. apply Hnodup; [|congruence].
    apply nth_error_Some. congruence. }
  subst j. rewrite Hworker, Hw in Hw'. injection Hw' as Hb.
  simpl. now rewrite Hs, Hs', Hb.
Qed.

Lemma scan_ports_order_irrelevant_witness :
  0 < max_workers (config watching)
  /\ (forall i port,
         env_socket web_host_lifo (ticks unseen) i "10.0.0.1" port
         = env_socket web_host (ticks watching) i "10.0.0.1" port)
  /\ exists snapshot snapshot' s s',
       scan_ports web_host "10.0.0.1" None watching = (Ok snapshot, s)
       /\ scan_ports web_host_lifo "10.0.0.1" None unseen = (Ok snapshot', s')
       /\ forall q, dict_mem Z.eqb q snapshot = dict_mem Z.eqb q snapshot'.
Proof.
  assert (Hpool : 0 < max_workers (config watching)) by reflexivity.
  split; [exact Hpool|]. split; [intros i port; reflexivity|].
  destruct (scan_ports_order_irrelevant web_host web_host_lifo "10.0.0.1"
              None watching unseen Hpool Hpool eq_refl (fun _ _ => eq_refl))
    as [snap [snap' [s [s' [Hrun [Hrun' [Hmem _]]]]]]].
  exists snap, snap', s, s'.
  split; [exact Hrun|]. split; [exact Hrun' | exact Hmem].
Defined.

(** ** The monitor, continued *)

Lemma scan_ports_total env ip ports st :
  0 < max_workers (config st) ->
  exists snapshot st',
    scan_ports env ip ports st = (Ok snapshot, st')
    /\ config st' = config st /\ monitored_ips st' = monitored_ips st
    /\ dict_wf snapshot.
Proof.
  intro Hpool. unfold scan_ports.
  destruct (scan_ports_with_total env ip
              (fun i port => scan_port (env_socket env (ticks st) i ip port)
                               (timeout (config st)))
              ports st Hpool)
    as [snap [st' [Hrun [Hc [Hm [Hwf _]]]]]].
  now exists snap, st'.
Qed.

(** The steps of [start_monitoring] for an address that is not monitored
    yet, when the pool can be built. *)
Lemma start_monitoring_fresh env ip st :
  dict_mem String.eqb ip (monitored_ips st) = false ->
  0 < max_workers (config st) ->
  exists now snapshot st0 st1 st',
    scan_ports env ip None st0 = (Ok snapshot, st1)
    /\ dict_wf snapshot
    /\ start_monitoring env ip st = (Ok tt, st')
    /\ monitored_ips st'
       = dict_set String.eqb
           (dict_set String.eqb (monitored_ips st) ip (mkMonitored [] [] now))
           ip (mkMonitored snapshot [] now)
    /\ config st' = config st.
Proof.
  intros Hfresh Hpool. unfold start_monitoring. rewrite Hfresh.
  unfold bind at 1. unfold run at 1.
  destruct (ping_ip env ip st) as [reachable s1] eqn:Eping.
  destruct (ping_ip_frame env ip st) as [Hc1 Hm1].
  rewrite Eping in Hc1, Hm1. cbn [snd] in Hc1, Hm1.
  unfold bind at 1.
  set (warn := if negb reachable then _ else _).
  assert (Hwarn : exists s2, warn s1 = (Ok tt, s2)
                             /\ config s2 = config s1
                             /\ monitored_ips s2 = monitored_ips s1).
  { unfold warn. destruct (negb reachable).
    - eexists. split; [reflexivity|]. split; apply log_frame.
    - exists s1. now split. }
  destruct Hwarn as [s2 [-> [Hc2 Hm2]]].
  unfold bind at 1. unfold run at 1. unfold now_iso at 1.
  unfold bind at 1. unfold exec at 1.
  unfold bind at 1. unfold exec at 1.
  unfold bind at 1.
  set (now := env_isoformat env (ticks s2)).
  set (s5 := log env _ "INFO" (store ip _ (tick s2))).
  assert (Hc5 : config s5 = config st).
  { unfold s5. rewrite (proj1 (log_frame _ _ _ _)). cbn. congruence. }
  assert (Hm5 : monitored_ips s5
                = dict_set String.eqb (monitored_ips st) ip
                    (mkMonitored [] [] now)).
  { unfold s5. rewrite (proj1 (proj2 (log_frame _ _ _ _))).
    unfold store. cbn [monitored_ips with_monitored_ips tick].
    now rewrite Hm2, Hm1. }
  destruct (scan_ports_total env ip None s5) as [snap [s6 [Hscan [Hc6 [Hm6 Hwf]]]]];
    [now rewrite Hc5|].
  rewrite Hscan.
  unfold bind at 1. unfold set_last_scan. unfold bind at 1.
  unfold entry at 1. rewrite Hm6, Hm5.
  rewrite (dict_get_set_same String.eqb String_eqb_eq).
  unfold exec at 1. cbn [changes start_time].
  unfold bind at 1. unfold exec at 1.
  unfold bind at 1. unfold exec at 1.
  unfold bind at 1. unfold exec at 1. unfold ret.
  exists now, snap, s5, s6. eexists.
  split; [exact Hscan|]. split; [exact Hwf|]. split; [reflexivity|].
  split.
  - rewrite (proj2 (notify_frame _ _ _)), (proj2 (save_config_frame _ _)),
      (proj1 (proj2 (log_frame _ _ _ _))).
    unfold store. cbn [monitored_ips with_monitored_ips].
    now rewrite Hm6, Hm5.
  - rewrite (proj1 (notify_frame _ _ _)), (proj1 (save_config_frame _ _)),
      (proj1 (log_frame _ _ _ _)).
    unfold store. cbn [config with_monitored_ips]. congruence.
Qed.

Section DictRemoval.
Context {K V : Type}.
Variable eqb : K -> K -> bool.
Hypothesis eqb_eq : forall a b, eqb a b = true <-> a = b.

Lemma dict_set_set (d : dict K V) k v v' :
  dict_set eqb (dict_set eqb d k v) k v' = dict_set eqb d k v'.
Proof.
  induction d as [|[k' w] d IH]; simpl.
  - now rewrite (eqb_same eqb eqb_eq).
  - destruct (eqb k k') eqn:E; simpl; rewrite E; [reflexivity|].
    now rewrite IH.
Qed.

Lemma dict_del_set_fresh (d : dict K V) k v :
  dict_mem eqb k d = false -> dict_del eqb (dict_set eqb d k v) k = d.
Proof.
  unfold dict_mem. induction d as [|[k' w] d IH]; simpl.
  - now rewrite (eqb_same eqb eqb_eq).
  - destruct (eqb k k') eqn:E; [discriminate|].
    intro H. simpl. rewrite E. now rewrite IH.
Qed.

Lemma dict_get_del_other (d : dict K V) k k0 :
  k0 <> k -> dict_get eqb (dict_del eqb d k) k0 = dict_get eqb d k0.
Proof.
  intro Hne. induction d as [|[k' w] d IH]; simpl; [reflexivity|].
  destruct (eqb k k') eqn:E; simpl.
  - apply eqb_eq in E. subst k'. now rewrite (eqb_other eqb eqb_eq).
  - now rewrite IH.
Qed.

Lemma dict_del_keys_incl (d : dict K V) k k0 :
  In k0 (dict_keys (dict_del eqb d k)) -> In k0 (dict_keys d).
Proof.
  induction d as [|[k' w] d IH]; simpl; [tauto|].
  destruct (eqb k k'); simpl; tauto.
Qed.

Lemma dict_del_wf (d : dict K V) k : dict_wf d -> dict_wf (dict_del eqb d k).
Proof.
  unfold dict_wf. induction d as [|[k' w] d IH]; simpl; intro Hwf; [constructor|].
  inversion Hwf as [|? ? Hnotin Hwf']; subst.
  destruct (eqb k k'); simpl; [assumption|].
  constructor; [|auto]. intro H. apply Hnotin.
  now apply dict_del_keys_incl in H.
Qed.

Lemma dict_mem_del (d : dict K V) k :
  dict_wf d -> dict_mem eqb k (dict_del eqb d k) = false.
Proof.
  unfold dict_wf. intro Hwf. apply (dict_mem_false eqb eqb_eq).
  induction d as [|[k' w] d IH]; simpl; [tauto|].
  inversion Hwf as [|? ? Hnotin Hwf']; subst.
  destruct (eqb k k') eqn:E; simpl.
  - apply eqb_eq in E. now subst k'.
  - intros [H|H]; [|now apply IH].
    subst k'. now rewrite (eqb_same eqb eqb_eq) in E.
Qed.

Lemma dict_set_keys_present (d : dict K V) k v :
  dict_mem eqb k d = true -> dict_keys (dict_set eqb d k v) = dict_keys d.
Proof.
  unfold dict_mem. induction d as [|[k' w] d IH]; simpl; [discriminate|].
  destruct (eqb k k') eqn:E; simpl; [reflexivity|].
  intro H. now rewrite IH.
Qed.

End DictRemoval.

Lemma scan_ports_without_workers env ip ports st :
  max_workers (config st) <= 0 ->
  scan_ports env ip ports st
  = (Raise (ValueError "max_workers must be greater than 0"), st).
Proof.
  intro Hpool. unfold scan_ports, scan_ports_with.
  apply Z.leb_le in Hpool. now rewrite Hpool.
Qed.

(** X7: a scan with no worker thread ([max_workers] not positive) raises
    [ValueError] before any probe and any reading of the clock;
    [start_monitoring] lets the error out after it has registered the
    address, which stays monitored with an empty snapshot and an empty
    log. *)
Theorem start_monitoring_without_workers env ip st
    (Hfresh : dict_mem String.eqb ip (monitored_ips st) = false)
    (Hpool : max_workers (config st) <= 0) :
  scan_ports env ip None st
  = (Raise (ValueError "max_workers must be greater than 0"), st)
  /\ exists st',
       start_monitoring env ip st
       = (Raise (ValueError "max_workers must be greater than 0"), st')
       /\ (exists now,
              dict_get String.eqb (monitored_ips st') ip
              = Some (mkMonitored [] [] now))
       /\ dict_mem String.eqb ip (monitored_ips st') = true.
Proof.
  split; [now apply scan_ports_without_workers|].
  unfold start_monitoring. rewrite Hfresh.
  unfold bind at 1. unfold run at 1.
  destruct (ping_ip env ip st) as [reachable s1] eqn:Eping.
  destruct (ping_ip_frame env ip st) as [Hc1 Hm1].
  rewrite Eping in Hc1, Hm1. cbn [snd] in Hc1, Hm1.
  unfold bind at 1.
  set (warn := if negb reachable then _ else _).
  assert (Hwarn : exists s2, warn s1 = (Ok tt, s2)
                             /\ config s2 = config s1
                             /\ monitored_ips s2 = monitored_ips s1).
  { unfold warn. destruct (negb reachable).
    - eexists. split; [reflexivity|]. split; apply log_frame.
    - exists s1. now split. }
  destruct Hwarn as [s2 [-> [Hc2 Hm2]]].
  unfold bind at 1. unfold run at 1. unfold now_iso at 1.
  unfold bind at 1. unfold exec at 1.
  unfold bind at 1. unfold exec at 1.
  unfold bind at 1.
  set (now := env_isoformat env (ticks s2)).
  set (s5 := log env _ "INFO" (store ip _ (tick s2))).
  assert (Hc5 : config s5 = config st).
  { unfold s5. rewrite (proj1 (log_frame _ _ _ _)). cbn. congruence. }
  assert (Hm5 : monitored_ips s5
                = dict_set String.eqb (monitored_ips st) ip
                    (mkMonitored [] [] now)).
  { unfold s5. rewrite (proj1 (proj2 (log_frame _ _ _ _))).
    unfold store. cbn [monitored_ips with_monitored_ips tick].
    now rewrite Hm2, Hm1. }
  rewrite (scan_ports_without_workers env ip None s5) by (now rewrite Hc5).
  exists s5. split; [reflexivity|].
  assert (Hget : dict_get String.eqb (monitored_ips s5) ip
                 = Some (mkMonitored [] [] now)).
  { rewrite Hm5. apply (dict_get_set_same String.eqb String_eqb_eq). }
  split; [now exists now|]. unfold dict_mem. now rewrite Hget.
Qed.

Lemma start_monitoring_without_workers_witness :
  dict_mem String.eqb "10.0.0.2" (monitored_ips no_pool) = false
  /\ max_workers (config no_pool) <= 0
  /\ exists st',
       start_monitoring web_host "10.0.0.2" no_pool
       = (Raise (ValueError "max_workers must be greater than 0"), st')
       /\ dict_mem String.eqb "10.0.0.2" (monitored_ips st') = true.
Proof.
  assert (Hfresh : dict_mem String.eqb "10.0.0.2" (monitored_ips no_pool)
                   = false) by reflexivity.
  assert (Hpool : max_workers (config no_pool) <= 0) by (cbn; lia).
  split; [exact Hfresh|]. split; [exact Hpool|].
  destruct (start_monitoring_without_workers web_host "10.0.0.2" no_pool
              Hfresh Hpool) as [_ [st' [Hrun [_ Hmem]]]].
  exists st'. split; [exact Hrun | exact Hmem].
Defined.

(** X8: [start_monitoring] on an address that is not monitored, with a
    usable pool, returns normally and registers the address with the
    snapshot of a scan of the default ports and an empty log of changes;
    the record of every other address is as it was, and so are the
    settings. *)
Theorem start_monitoring_registers env ip st
    (Hfresh : dict_mem String.eqb ip (monitored_ips st) = false)
    (Hpool : 0 < max_workers (config st)) :
  exists now snapshot st0 st1 st',
    scan_ports env ip None st0 = (Ok snapshot, st1)
    /\ dict_wf snapshot
    /\ start_monitoring env ip st = (Ok tt, st')
    /\ dict_get String.eqb (monitored_ips st') ip
       = Some (mkMonitored snapshot [] now)
    /\ (forall other,
           other <> ip ->
           dict_get String.eqb (monitored_ips st') other
           = dict_get String.eqb (monitored_ips st) other)
    /\ dict_keys (monitored_ips st') = (dict_keys (monitored_ips st) ++ [ip])%list
    /\ config st' = config st.
Proof.
  destruct (start_monitoring_fresh env ip st Hfresh Hpool)
    as [now [snap [st0 [st1 [st' [Hscan [Hwf [Hrun [Hm Hc]]]]]]]]].
  exists now, snap, st0, st1, st'.
  split; [exact Hscan|]. split; [exact Hwf|]. split; [exact Hrun|].
  rewrite Hm. split; [apply (dict_get_set_same String.eqb String_eqb_eq)|].
  split; [|split; [|exact Hc]].
  - intros other Hne.
    now rewrite !(dict_get_set_other String.eqb String_eqb_eq) by assumption.
  - rewrite (dict_set_keys_present String.eqb).
    + clear -Hfresh. unfold dict_mem in Hfresh.
      induction (monitored_ips st) as [|[k w] d IH]; simpl in *; [reflexivity|].
      destruct (String.eqb ip k); [discriminate|]. simpl. now rewrite IH.
    + unfold dict_mem.
      now rewrite (dict_get_set_same String.eqb String_eqb_eq).
Qed.

Lemma start_monitoring_registers_witness :
  dict_mem String.eqb "10.0.0.2" (monitored_ips watching) = false
  /\ 0 < max_workers (config watching)
  /\ exists st',
       start_monitoring web_host "10.0.0.2" watching = (Ok tt, st')
       /\ dict_keys (monitored_ips st') = ["10.0.0.1"; "10.0.0.2"].
Proof.
  assert (Hfresh : dict_mem String.eqb "10.0.0.2" (monitored_ips watching)
                   = false) by reflexivity.
  assert (Hpool : 0 < max_workers (config watching)) by reflexivity.
  split; [exact Hfresh|]. split; [exact Hpool|].
  destruct (start_monitoring_registers web_host "10.0.0.2" watching
              Hfresh Hpool)
    as [now [snap [st0 [st1 [st' [_ [_ [Hrun [_ [_ [Hkeys _]]]]]]]]]]].
  exists st'. split; [exact Hrun | exact Hkeys].
Defined.

(** X9: after [stop_monitoring] the address is not monitored, whether it
    was or not, and the record of every other address is as it was. *)
Theorem stop_monitoring_removes env ip st
    (Hwf : dict_wf (monitored_ips st)) :
  dict_mem String.eqb ip (monitored_ips (stop_monitoring env ip st)) = false
  /\ (forall other,
         other <> ip ->
         dict_get String.eqb (monitored_ips (stop_monitoring env ip st)) other
         = dict_get String.eqb (monitored_ips st) other)
  /\ dict_wf (monitored_ips (stop_monitoring env ip st))
  /\ config (stop_monitoring env ip st) = config st.
Proof.
  unfold stop_monitoring.
  destruct (dict_mem String.eqb ip (monitored_ips st)) eqn:E.
  - rewrite (proj2 (notify_frame _ _ _)), (proj2 (save_config_frame _ _)),
      (proj1 (proj2 (log_frame _ _ _ _))).
    rewrite (proj1 (notify_frame _ _ _)), (proj1 (save_config_frame _ _)),
      (proj1 (log_frame _ _ _ _)).
    cbn [monitored_ips config with_monitored_ips].
    split; [now apply (dict_mem_del String.eqb String_eqb_eq)|].
    split; [|split; [now apply dict_del_wf | reflexivity]].
    intros other Hne.
    now apply (dict_get_del_other String.eqb String_eqb_eq).
  - rewrite (proj1 (proj2 (log_frame _ _ _ _))), (proj1 (log_frame _ _ _ _)).
    repeat split; trivial.
Qed.

Lemma stop_monitoring_removes_witness :
  dict_wf (monitored_ips watching)
  /\ dict_mem String.eqb "10.0.0.1"
       (monitored_ips (stop_monitoring web_host "10.0.0.1" watching))
     = false.
Proof.
  assert (Hwf : dict_wf (monitored_ips watching)).
  { unfold dict_wf. simpl. constructor; [intros [] | constructor]. }
  split; [exact Hwf|].
  apply (stop_monitoring_removes web_host "10.0.0.1" watching Hwf).
Defined.

(** X10: to monitor an address and then to stop monitoring it leaves the
    monitored addresses and their records exactly as they were before. *)
Theorem start_then_stop_monitoring env env' ip st
    (Hfresh : dict_mem String.eqb ip (monitored_ips st) = false)
    (Hpool : 0 < max_workers (config st)) :
  monitored_ips
    (stop_monitoring env' ip (snd (start_monitoring env ip st)))
  = monitored_ips st.
Proof.
  destruct (start_monitoring_fresh env ip st Hfresh Hpool)
    as [now [snap [st0 [st1 [st' [_ [_ [Hrun [Hm _]]]]]]]]].
  rewrite Hrun. cbn [snd]. unfold stop_monitoring.
  assert (Hmem : dict_mem String.eqb ip (monitored_ips st') = true).
  { unfold dict_mem.
    now rewrite Hm, (dict_get_set_same String.eqb String_eqb_eq). }
  rewrite Hmem.
  rewrite (proj2 (notify_frame _ _ _)), (proj2 (save_config_frame _ _)),
    (proj1 (proj2 (log_frame _ _ _ _))).
  cbn [monitored_ips with_monitored_ips].
  rewrite Hm, (dict_set_set String.eqb String_eqb_eq).
  now apply (dict_del_set_fresh String.eqb String_eqb_eq).
Qed.

Lemma start_then_stop_monitoring_witness :
  dict_mem String.eqb "10.0.0.2" (monitored_ips watching) = false
  /\ 0 < max_workers (config watching)
  /\ monitored_ips
       (stop_monitoring web_host "10.0.0.2"
          (snd (start_monitoring web_host "10.0.0.2" watching)))
     = monitored_ips watching.
Proof.
  split; [reflexivity|]. split; [reflexivity|].
  apply (start_then_stop_monitoring web_host web_host "10.0.0.2" watching);
    reflexivity.
Defined.

(** ** What the operations of the monitor keep *)

Section Preservation.
Variable R : State -> State -> Prop.
Hypothesis R_refl : forall st, R st st.
Hypothesis R_trans : forall a b c, R a b -> R b c -> R a c.

Lemma preserves_ret {A} (a : A) : preserves R (ret a).
Proof. intro st. apply R_refl. Qed.

Lemma preserves_result {A} (r : Result A) : preserves R (fun st => (r, st)).
Proof. intro st. apply R_refl. Qed.

Lemma preserves_bind {A B} (m : M A) (k : A -> M B) :
  preserves R m -> (forall a, preserves R (k a)) -> preserves R (bind m k).
Proof.
  intros Hm Hk st. unfold bind. specialize (Hm st).
  destruct (m st) as [[a|e] st1]; cbn [snd] in *; [|assumption].
  apply (R_trans _ st1); [assumption | apply Hk].
Qed.

Lemma preserves_try_except {A} (m : M A) (h : Exception -> M A) :
  preserves R m -> (forall e, preserves R (h e)) ->
  preserves R (try_except m h).
Proof.
  intros Hm Hh st. unfold try_except. specialize (Hm st).
  destruct (m st) as [[a|e] st1]; cbn [snd] in *; [assumption|].
  apply (R_trans _ st1); [assumption | apply Hh].
Qed.

Lemma preserves_exec (f : State -> State) :
  (forall st, R st (f st)) -> preserves R (exec f).
Proof. intros H st. apply H. Qed.

Lemma preserves_run {A} (f : State -> A * State) :
  (forall st, R st (snd (f st))) -> preserves R (run f).
Proof. intros H st. unfold run. specialize (H st). now destruct (f st). Qed.

Lemma preserves_for_each {A B} (body : B -> A -> M B) (l : list A) :
  (forall b a, preserves R (body b a)) ->
  forall b, preserves R (for_each l body b).
Proof.
  intro Hbody. induction l as [|a l IH]; intro b; simpl.
  - apply preserves_ret.
  - apply preserves_bind; [apply Hbody | apply IH].
Qed.

Lemma preserves_fold {B} (f : State -> B -> State) (l : list B) :
  (forall st x, R st (f st x)) -> forall st, R st (fold_left f l st).
Proof.
  intro Hf. induction l as [|x l IH]; intro st; simpl; [apply R_refl|].
  apply (R_trans _ (f st x)); [apply Hf | apply IH].
Qed.

End Preservation.

Lemma steady_refl st : steady st st.
Proof. now repeat split. Qed.

Lemma steady_trans a b c : steady a b -> steady b c -> steady a c.
Proof.
  intros [Hc1 [Hf1 Hp1]] [Hc2 [Hf2 Hp2]].
  split; [congruence|]. split; [congruence|].
  intro Hgate. rewrite Hp2, Hp1; trivial. now rewrite Hc1.
Qed.

Lemma posts_snoc t a : is_post a = false -> posts (t ++ [a]) = posts t.
Proof.
  intro H. unfold posts. rewrite filter_app. simpl. rewrite H.
  apply app_nil_r.
Qed.

Lemma steady_tick st : steady st (tick st).
Proof. now repeat split. Qed.

Lemma steady_log env message level st : steady st (log env message level st).
Proof.
  unfold log. repeat split. intros _. cbn [trace with_history act tick].
  now apply posts_snoc.
Qed.

Lemma steady_now_iso env st : steady st (snd (now_iso env st)).
Proof. apply steady_tick. Qed.

Lemma steady_ping_ip env ip st : steady st (snd (ping_ip env ip st)).
Proof.
  unfold ping_ip.
  destruct (env_ping env (ticks st) ip); cbn [snd]; repeat split;
    intros _; cbn [trace act tick]; now apply posts_snoc.
Qed.

Lemma steady_save_config env st : steady st (save_config env st).
Proof.
  unfold save_config.
  assert (H : steady st (act (WriteConfig (config st)) (tick st))).
  { repeat split. intros _. cbn [trace act tick]. now apply posts_snoc. }
  destruct (env_write_config env (ticks st) (config st)); [exact H|].
  apply (steady_trans _ _ _ H), steady_log.
Qed.

Lemma steady_store ip m st : steady st (store ip m st).
Proof. now repeat split. Qed.

Lemma steady_notify env message st : steady st (notify env message st).
Proof.
  unfold notify, steady, may_post.
  destruct (enabled (telegram (config st))
            && PyStr.truthy (chat_id (telegram (config st))))%bool eqn:Egate;
    [|now repeat split].
  unfold send_telegram_message.
  destruct (PyStr.truthy (token (telegram (config st)))) eqn:Etok.
  - apply andb_prop in Egate. destruct Egate as [_ Echat].
    rewrite Echat. cbn [negb orb].
    destruct (env_post env (ticks st) _ _ message); cbn [snd].
    + split; [reflexivity|]. split; [reflexivity|]. intro H. discriminate H.
    + split; [reflexivity|]. split; [reflexivity|].
      intro H. discriminate H.
  - cbn [negb orb snd]. now repeat split.
Qed.

Lemma steady_entry ip : preserves steady (entry ip).
Proof.
  intro st. unfold entry.
  destruct (dict_get String.eqb (monitored_ips st) ip); apply steady_refl.
Qed.

Lemma steady_collect env ip worker acc f :
  preserves steady (collect env ip worker acc f).
Proof.
  destruct f as [i port]. unfold collect.
  apply (preserves_try_except _ steady_trans).
  - apply (preserves_bind _ steady_trans);
      [apply (preserves_result _ steady_refl)|].
    intros [[] text].
    + apply (preserves_bind _ steady_trans).
      * apply preserves_run, steady_now_iso.
      * intro. apply (preserves_ret _ steady_refl).
    + apply (preserves_ret _ steady_refl).
  - intro e. apply (preserves_bind _ steady_trans).
    + apply preserves_exec. intro st. apply steady_log.
    + intro. apply (preserves_ret _ steady_refl).
Qed.

Lemma steady_scan_ports env ip ports : preserves steady (scan_ports env ip ports).
Proof.
  intro st. unfold scan_ports, scan_ports_with.
  destruct (max_workers (config st) <=? 0); [apply steady_refl|].
  apply (steady_trans _ (tick st)); [apply steady_tick|].
  apply (preserves_for_each _ steady_refl steady_trans).
  intros. apply steady_collect.
Qed.

Lemma detect_changes_advance env (old new : Scan) ip st :
  snd (detect_changes env old new ip st)
  = advance (List.length (fst (detect_changes env old new ip st))) st.
Proof.
  unfold detect_changes, dict_items.
  apply (loop_readings env st); [apply service_step_reading|].
  apply loop_readings; [apply closed_step_reading|].
  apply loop_readings; [apply opened_step_reading|].
  cbn [fst snd List.length]. split; [now rewrite advance_0 | reflexivity].
Qed.

Lemma steady_detect_changes env old new ip st :
  steady st (snd (detect_changes env old new ip st)).
Proof. rewrite detect_changes_advance. now repeat split. Qed.

Lemma steady_set_last_scan ip scan : preserves steady (set_last_scan ip scan).
Proof.
  unfold set_last_scan. apply (preserves_bind _ steady_trans);
    [apply steady_entry|].
  intro m. apply preserves_exec. intro st. apply steady_store.
Qed.

Lemma steady_extend_changes ip new : preserves steady (extend_changes ip new).
Proof.
  unfold extend_changes. apply (preserves_bind _ steady_trans);
    [apply steady_entry|].
  intro m. apply preserves_exec. intro st. apply steady_store.
Qed.

Lemma steady_exec_log env message level :
  preserves steady (exec (log env message level)).
Proof. apply preserves_exec. intro st. apply steady_log. Qed.

Lemma steady_exec_notify env message :
  preserves steady (exec (notify env message)).
Proof. apply preserves_exec. intro st. apply steady_notify. Qed.

Lemma steady_exec_store ip m : preserves steady (exec (store ip m)).
Proof. apply preserves_exec. intro st. apply steady_store. Qed.

Lemma steady_exec_save_config env : preserves steady (exec (save_config env)).
Proof. apply preserves_exec. intro st. apply steady_save_config. Qed.

Lemma steady_run_detect_changes env old new ip :
  preserves steady (run (detect_changes env old new ip)).
Proof. apply preserves_run. intro st. apply steady_detect_changes. Qed.

Lemma steady_run_now_iso env : preserves steady (run (now_iso env)).
Proof. apply preserves_run. intro st. apply steady_now_iso. Qed.

Lemma steady_run_ping_ip env ip : preserves steady (run (ping_ip env ip)).
Proof. apply preserves_run. intro st. apply steady_ping_ip. Qed.

Create HintDb steady.

#[local] Hint Resolve steady_entry steady_scan_ports steady_set_last_scan
  steady_extend_changes steady_exec_log steady_exec_notify steady_exec_store
  steady_exec_save_config steady_run_detect_changes steady_run_now_iso
  steady_run_ping_ip : steady.

(** Walks through a computation, statement by statement, for a relation
    that is reflexive and transitive. *)
Ltac walk Hrefl Htrans db :=
  repeat match goal with
         | |- preserves _ (bind _ _) =>
             apply (preserves_bind _ Htrans); [|intro]
         | |- preserves _ (try_except _ _) =>
             apply (preserves_try_except _ Htrans); [|intro]
         | |- preserves _ (for_each _ _ _) =>
             apply (preserves_for_each _ Hrefl Htrans); intros
         | |- preserves _ (ret _) => apply (preserves_ret _ Hrefl)
         | |- preserves _ (if ?b then _ else _) => destruct b
         | |- preserves _ _ => solve [db]
         end.

Lemma steady_scan_and_diff env ip : preserves steady (scan_and_diff env ip).
Proof.
  unfold scan_and_diff. cbv zeta.
  walk steady_refl steady_trans ltac:(auto with steady).
Qed.

Lemma steady_monitor_ip env ip st : steady st (monitor_ip env ip st).
Proof.
  unfold monitor_ip.
  apply (preserves_try_except steady steady_trans (scan_and_diff env ip)).
  - apply steady_scan_and_diff.
  - intro e. apply steady_exec_log.
Qed.

Lemma steady_monitoring_cycle env st : steady st (monitoring_cycle env st).
Proof.
  unfold monitoring_cycle.
  set (st1 := fold_left _ _ st).
  assert (H1 : steady st st1).
  { apply (preserves_fold _ steady_refl steady_trans).
    intros s ip. apply steady_monitor_ip. }
  apply (steady_trans _ _ _ H1).
  repeat split. intros _. cbn [trace act]. now apply posts_snoc.
Qed.

Lemma steady_monitoring_loop env n : forall st, steady st (monitoring_loop env n st).
Proof.
  induction n as [|n IH]; intro st; simpl; [apply steady_refl|].
  destruct (scanning_active st); [|apply steady_refl].
  apply (steady_trans _ (monitoring_cycle env st));
    [apply steady_monitoring_cycle | apply IH].
Qed.

Lemma steady_start_monitoring env ip : preserves steady (start_monitoring env ip).
Proof.
  intro st. unfold start_monitoring.
  destruct (dict_mem String.eqb ip (monitored_ips st)).
  - refine ((_ : preserves steady _) st).
    walk steady_refl steady_trans ltac:(auto with steady).
  - refine ((_ : preserves steady _) st).
    walk steady_refl steady_trans ltac:(auto with steady).
Qed.

Lemma steady_stop_monitoring env ip st : steady st (stop_monitoring env ip st).
Proof.
  unfold stop_monitoring.
  destruct (dict_mem String.eqb ip (monitored_ips st)); [|apply steady_log].
  set (s1 := with_monitored_ips _ st).
  assert (H1 : steady st s1) by now repeat split.
  apply (steady_trans _ _ _ H1).
  apply (steady_trans _ (log env ("Stopped monitoring " ++ ip) "INFO" s1));
    [apply steady_log|].
  apply (steady_trans _ (save_config env
                           (log env ("Stopped monitoring " ++ ip) "INFO" s1)));
    [apply steady_save_config | apply steady_notify].
Qed.

(** X11: the operations of the monitor never change the settings or the
    service flag, and while notifications are disabled, or the chat or the
    token is not set, they send nothing to Telegram: neither adding an
    address, nor removing one, nor any number of turns of the monitoring
    loop. *)
Theorem monitor_keeps_settings_and_gate env ip n st :
  steady st (snd (start_monitoring env ip st))
  /\ steady st (stop_monitoring env ip st)
  /\ steady st (monitoring_loop env n st).
Proof.
  split; [apply steady_start_monitoring|].
  split; [apply steady_stop_monitoring | apply steady_monitoring_loop].
Qed.

Lemma monitor_keeps_settings_and_gate_witness :
  may_post (config unseen) = false
  /\ posts (trace (monitoring_loop web_host 2 unseen)) = posts (trace unseen).
Proof.
  split; [reflexivity|].
  destruct (monitor_keeps_settings_and_gate web_host "10.0.0.1" 2 unseen)
    as [_ [_ [_ [_ Hposts]]]].
  apply Hposts. reflexivity.
Defined.



Lemma grows_refl st : grows st st.
Proof.
  split; [reflexivity|]. intros ip m H. exists m.
  split; [assumption|]. split; [reflexivity|]. exists []. now rewrite app_nil_r.
Qed.

Lemma grows_trans a b c : grows a b -> grows b c -> grows a c.
Proof.
  intros [Hk1 H1] [Hk2 H2]. split; [congruence|].
  intros ip m Hm. destruct (H1 ip m Hm) as [m1 [Hm1 [Hs1 [more1 Hc1]]]].
  destruct (H2 ip m1 Hm1) as [m2 [Hm2 [Hs2 [more2 Hc2]]]].
  exists m2. split; [assumption|]. split; [congruence|].
  exists (more1 ++ more2)%list. now rewrite Hc2, Hc1, app_assoc.
Qed.

Lemma grows_same st st' : monitored_ips st' = monitored_ips st -> grows st st'.
Proof.
  intro H. unfold grows. rewrite H. apply grows_refl.
Qed.

(** To rewrite the record of a monitored address with the same start time
    and a longer log is to grow. *)
Lemma grows_store ip m m' more st :
  dict_get String.eqb (monitored_ips st) ip = Some m ->
  start_time m' = start_time m ->
  changes m' = (changes m ++ more)%list ->
  grows st (store ip m' st).
Proof.
  intros Hm Hs Hc. unfold store. split; cbn [monitored_ips with_monitored_ips].
  - apply dict_set_keys_present. unfold dict_mem. now rewrite Hm.
  - intros other mo Hmo. destruct (String.eqb other ip) eqn:E.
    + apply String.eqb_eq in E. subst other.
      rewrite (dict_get_set_same String.eqb String_eqb_eq).
      exists m'. rewrite Hmo in Hm. injection Hm as ->.
      split; [reflexivity|]. split; [assumption|]. now exists more.
    + apply String.eqb_neq in E.
      rewrite (dict_get_set_other String.eqb String_eqb_eq) by assumption.
      exists mo. split; [assumption|]. split; [reflexivity|].
      exists []. now rewrite app_nil_r.
Qed.

Lemma grows_set_last_scan ip scan : preserves grows (set_last_scan ip scan).
Proof.
  intro st. unfold set_last_scan, bind, entry, exec.
  destruct (dict_get String.eqb (monitored_ips st) ip) as [m|] eqn:E;
    cbn [snd]; [|apply grows_refl].
  apply (grows_store ip m _ []); trivial. cbn. now rewrite app_nil_r.
Qed.

Lemma grows_extend_changes ip new : preserves grows (extend_changes ip new).
Proof.
  intro st. unfold extend_changes, bind, entry, exec.
  destruct (dict_get String.eqb (monitored_ips st) ip) as [m|] eqn:E;
    cbn [snd]; [|apply grows_refl].
  now apply (grows_store ip m _ new).
Qed.

Lemma grows_entry ip : preserves grows (entry ip).
Proof.
  intro st. unfold entry.
  destruct (dict_get String.eqb (monitored_ips st) ip); apply grows_refl.
Qed.

Lemma grows_exec_log env message level :
  preserves grows (exec (log env message level)).
Proof. apply preserves_exec. intro st. apply grows_same, log_frame. Qed.

Lemma grows_exec_notify env message :
  preserves grows (exec (notify env message)).
Proof. apply preserves_exec. intro st. apply grows_same, notify_frame. Qed.

Lemma grows_scan_ports env ip ports : preserves grows (scan_ports env ip ports).
Proof. intro st. apply grows_same, scan_ports_frame. Qed.

Lemma grows_run_detect_changes env old new ip :
  preserves grows (run (detect_changes env old new ip)).
Proof.
  apply preserves_run. intro st. apply grows_same, detect_changes_frame.
Qed.

Create HintDb grows.

#[local] Hint Resolve grows_set_last_scan grows_extend_changes grows_entry
  grows_exec_log grows_exec_notify grows_scan_ports grows_run_detect_changes
  : grows.

Lemma grows_monitor_ip env ip st : grows st (monitor_ip env ip st).
Proof.
  unfold monitor_ip.
  apply (preserves_try_except grows grows_trans (scan_and_diff env ip));
    [|intro e; apply grows_exec_log].
  unfold scan_and_diff. cbv zeta.
  walk grows_refl grows_trans ltac:(auto with grows).
Qed.

Lemma grows_monitoring_cycle env st : grows st (monitoring_cycle env st).
Proof.
  unfold monitoring_cycle. set (st1 := fold_left _ _ st).
  apply (grows_trans _ st1).
  - apply (preserves_fold _ grows_refl grows_trans).
    intros s ip. apply grows_monitor_ip.
  - now apply grows_same.
Qed.

(** X13: however many turns the monitoring loop makes, the monitored
    addresses stay the same and in the same order, each keeps its start
    time, and each log of changes keeps what it held: changes are only added
    at its end. *)
Theorem monitoring_loop_grows env n st : grows st (monitoring_loop env n st).
Proof.
  revert st. induction n as [|n IH]; intro st; simpl; [apply grows_refl|].
  destruct (scanning_active st); [|apply grows_refl].
  apply (grows_trans _ (monitoring_cycle env st));
    [apply grows_monitoring_cycle | apply IH].
Qed.

Lemma monitoring_loop_grows_witness :
  dict_get String.eqb (monitored_ips unseen) "10.0.0.1"
  = Some (mkMonitored [] [] "T0")
  /\ exists m',
       dict_get String.eqb (monitored_ips (monitoring_loop web_host 3 unseen))
         "10.0.0.1" = Some m'
       /\ start_time m' = "T0".
Proof.
  split; [reflexivity|].
  destruct (monitoring_loop_grows web_host 3 unseen) as [_ H].
  destruct (H "10.0.0.1" (mkMonitored [] [] "T0") eq_refl)
    as [m' [Hget [Hstart _]]].
  exists m'. split; [exact Hget | exact Hstart].
Defined.

(** X14: when the scan of a turn fails for want of a worker thread, the turn
    logs the error at level ERROR and leaves every record as it was; and a
    turn for an address that is not monitored any more, removed since the
    cycle began, logs the missing key and does not bring the record back. *)
Theorem monitor_ip_failure_is_logged env ip st :
  (max_workers (config st) <= 0 ->
   monitor_ip env ip st
   = log env ("Error monitoring " ++ ip ++ ": "
              ++ "max_workers must be greater than 0") "ERROR"
       (log env ("Scanning " ++ ip) "INFO" st))
  /\ (0 < max_workers (config st) ->
      dict_get String.eqb (monitored_ips st) ip = None ->
      monitored_ips (monitor_ip env ip st) = monitored_ips st
      /\ exists st1,
           monitor_ip env ip st
           = log env ("Error monitoring " ++ ip ++ ": "
                      ++ exn_str (KeyError ip)) "ERROR" st1).
Proof.
  split.
  - intro Hpool. unfold monitor_ip, try_except, scan_and_diff.
    unfold bind at 1. unfold exec at 1. unfold bind at 1.
    rewrite scan_ports_without_workers
      by (now rewrite (proj1 (log_frame _ _ _ _))).
    reflexivity.
  - intros Hpool Hnone.
    destruct (scan_ports_total env ip None
                (log env ("Scanning " ++ ip) "INFO" st))
      as [snap [st1 [Hscan [Hc [Hm _]]]]];
      [now rewrite (proj1 (log_frame _ _ _ _))|].
    assert (Hturn : monitor_ip env ip st
                    = log env ("Error monitoring " ++ ip ++ ": "
                               ++ exn_str (KeyError ip)) "ERROR" st1).
    { unfold monitor_ip, try_except, scan_and_diff.
      unfold bind at 1. unfold exec at 1. unfold bind at 1.
      rewrite Hscan. unfold bind at 1. unfold entry at 1.
      rewrite Hm, (proj1 (proj2 (log_frame _ _ _ _))), Hnone.
      reflexivity. }
    split; [|now exists st1].
    now rewrite Hturn, (proj1 (proj2 (log_frame _ _ _ _))), Hm,
      (proj1 (proj2 (log_frame _ _ _ _))).
Qed.

Lemma monitor_ip_failure_is_logged_witness :
  max_workers (config no_pool) <= 0
  /\ monitored_ips (monitor_ip web_host "10.0.0.1" no_pool)
     = monitored_ips no_pool
  /\ 0 < max_workers (config watching)
  /\ dict_get String.eqb (monitored_ips watching) "10.0.0.9" = None
  /\ monitored_ips (monitor_ip web_host "10.0.0.9" watching)
     = monitored_ips watching.
Proof.
  assert (Hno : max_workers (config no_pool) <= 0) by (cbn; lia).
  assert (Hpool : 0 < max_workers (config watching)) by reflexivity.
  split; [exact Hno|]. split.
  - rewrite (proj1 (monitor_ip_failure_is_logged web_host "10.0.0.1" no_pool)
               Hno).
    reflexivity.
  - split; [exact Hpool|]. split; [reflexivity|].
    apply (proj2 (monitor_ip_failure_is_logged web_host "10.0.0.9" watching)
             Hpool eq_refl).
Defined.

Lemma detect_changes_same_labels env (old new : Scan) ip st :
  dict_wf old -> dict_wf new ->
  (forall p,
      option_map service (dict_get Z.eqb old p)
      = option_map service (dict_get Z.eqb new p)) ->
  fst (detect_changes env old new ip st) = [].
Proof.
  intros Hold Hnew Hsame.
  destruct (fst (detect_changes env old new ip st)) as [|c rest] eqn:E;
    [reflexivity|].
  assert (Hin : In c (fst (detect_changes env old new ip st)))
    by (rewrite E; now left).
  apply (detect_changes_justified env old new ip st c Hold Hnew) in Hin.
  destruct c as [q s t m|q s t m|q so sn t m]; simpl in Hin;
    specialize (Hsame q).
  - destruct Hin as [Hmem [info [Hget _]]]. unfold dict_mem in Hmem.
    rewrite Hget in Hsame. destruct (dict_get Z.eqb old q); discriminate.
  - destruct Hin as [Hmem [info [Hget _]]]. unfold dict_mem in Hmem.
    rewrite Hget in Hsame. destruct (dict_get Z.eqb new q); discriminate.
  - destruct Hin as [oi [ni [Hoi [Hni [-> [-> [Hne _]]]]]]].
    rewrite Hoi, Hni in Hsame. simpl in Hsame. congruence.
Qed.

(** X15: two scans of a host whose ports answer the same way both times,
    whatever the order in which the probes complete and however often a port
    is asked, give snapshots between which [detect_changes] finds no
    change. *)
Theorem rescan_of_stable_host env env' ip ports st st' (socket : Z -> Socket)
    (Hpool : 0 < max_workers (config st))
    (Hpool' : 0 < max_workers (config st'))
    (Htimeout : timeout (config st') = timeout (config st))
    (Hfirst : forall i port, env_socket env (ticks st) i ip port = socket port)
    (Hsecond :
       forall i port, env_socket env' (ticks st') i ip port = socket port) :
  exists snapshot snapshot' s s',
    scan_ports env ip ports st = (Ok snapshot, s)
    /\ scan_ports env' ip ports st' = (Ok snapshot', s')
    /\ forall env0 st0,
         fst (detect_changes env0 snapshot snapshot' ip st0) = [].
Proof.
  unfold scan_ports.
  set (worker := fun i port =>
         scan_port (env_socket env (ticks st) i ip port) (timeout (config st))).
  set (worker' := fun i port =>
         scan_port (env_socket env' (ticks st') i ip port)
           (timeout (config st'))).
  assert (Hw : forall i port,
             worker i port = scan_port (socket port) (timeout (config st))).
  { intros i port. unfold worker. now rewrite Hfirst. }
  assert (Hw' : forall i port,
             worker' i port = scan_port (socket port) (timeout (config st))).
  { intros i port. unfold worker'. now rewrite Hsecond, Htimeout. }
  destruct (scan_ports_with_total env ip worker ports st Hpool)
    as [snap [s [Hrun [_ [_ [Hwf [Hkeys Hof]]]]]]].
  destruct (scan_ports_with_total env' ip worker' ports st' Hpool')
    as [snap' [s' [Hrun' [_ [_ [Hwf' [Hkeys' Hof']]]]]]].
  exists snap, snap', s, s'.
  split; [exact Hrun|]. split; [exact Hrun'|].
  intros env0 st0. apply detect_changes_same_labels; trivial.
  intro p.
  assert (Hmem : dict_mem Z.eqb p snap = dict_mem Z.eqb p snap').
  { apply eq_true_iff_eq. rewrite Hkeys, Hkeys'.
    split; intros [i [text [Hnth Hres]]]; exists i, text;
      (split; [assumption|]); [rewrite Hw' | rewrite Hw];
      [now rewrite <- (Hw i) | now rewrite <- (Hw' i)]. }
  unfold dict_mem in Hmem.
  destruct (dict_get Z.eqb snap p) as [info|] eqn:E,
           (dict_get Z.eqb snap' p) as [info'|] eqn:E';
    try discriminate; [|reflexivity].
  apply (dict_get_in_items Z.eqb Z_eqb_eq) in E, E'.
  destruct (Hof p info E) as [Hs [i [_ Hres]]].
  destruct (Hof' p info' E') as [Hs' [j [_ Hres']]].
  rewrite Hw in Hres. rewrite Hw', Hres in Hres'. injection Hres' as Hb.
  simpl. now rewrite Hs, Hs', Hb.
Qed.

Lemma rescan_of_stable_host_witness :
  0 < max_workers (config watching)
  /\ (forall (i : nat) port,
         env_socket web_host (ticks watching) i "10.0.0.1" port
         = env_socket web_host 0 0 "10.0.0.1" port)
  /\ exists snapshot snapshot' s s',
       scan_ports web_host "10.0.0.1" None watching = (Ok snapshot, s)
       /\ scan_ports web_host_lifo "10.0.0.1" None unseen = (Ok snapshot', s')
       /\ fst (detect_changes web_host snapshot snapshot' "10.0.0.1" watching)
          = [].
Proof.
  assert (Hpool : 0 < max_workers (config watching)) by reflexivity.
  split; [exact Hpool|]. split; [intros i port; reflexivity|].
  destruct (rescan_of_stable_host web_host web_host_lifo "10.0.0.1" None
              watching unseen (env_socket web_host 0 0 "10.0.0.1")
              Hpool Hpool eq_refl (fun _ _ => eq_refl) (fun _ _ => eq_refl))
    as [snap [snap' [s [s' [Hrun [Hrun' Hnone]]]]]].
  exists snap, snap', s, s'.
  split; [exact Hrun|]. split; [exact Hrun' | apply Hnone].
Defined.

(** ** The classifier and the probe, continued *)

Lemma lower_char_idem (c : ascii) :
  PyStr.lower_char (PyStr.lower_char c) = PyStr.lower_char c.
Proof. destruct c as [[] [] [] [] [] [] [] []]; reflexivity. Qed.

Lemma lower_idem (s : string) : PyStr.lower (PyStr.lower s) = PyStr.lower s.
Proof.
  induction s as [|c s IH]; simpl; [reflexivity|].
  now rewrite lower_char_idem, IH.
Qed.

Lemma truthy_lower (s : string) : PyStr.truthy (PyStr.lower s) = PyStr.truthy s.
Proof. now destruct s. Qed.

(** X16: the label does not depend on the case of the banner: two banners
    that differ only by the case of their ASCII letters get the same
    label on every port. *)
Theorem get_service_name_ignores_case (port : Z) (b1 b2 : string)
    (Hcase : PyStr.lower b1 = PyStr.lower b2) :
  get_service_name port b1 = get_service_name port b2.
Proof.
  unfold get_service_name.
  rewrite <- (truthy_lower b1), <- (truthy_lower b2), Hcase. reflexivity.
Qed.

Lemma get_service_name_ignores_case_witness :
  PyStr.lower "OpenSSH via HTTP" = PyStr.lower "openssh VIA http"
  /\ get_service_name 8080 "OpenSSH via HTTP"
     = get_service_name 8080 "openssh VIA http".
Proof.
  split; [reflexivity|].
  apply (get_service_name_ignores_case 8080). reflexivity.
Defined.




(** ** The settings of the notifier *)

Lemma digits_to_end_shape (r : string) :
  digits_to_end r = true <->
  exists digits tail,
    r = digits ++ tail /\ all_digits digits = true
    /\ (tail = "" \/ tail = newline).
Proof.
  split.
  - induction r as [|c r IH]; simpl.
    + intros _. exists "", "". auto.
    + destruct (is_digit c) eqn:Ec.
      * intro H. destruct (IH H) as [ds [tail [-> [Hds Ht]]]].
        exists (String c ds), tail. simpl. rewrite Ec. auto.
      * intro H. apply andb_prop in H. destruct H as [Hc Hr].
        apply Ascii.eqb_eq in Hc. subst c. destruct r; [|discriminate].
        exists "", newline. auto.
  - intros [ds [tail [-> [Hds Ht]]]]. induction ds as [|c ds IH]; simpl.
    + destruct Ht as [->| ->]; reflexivity.
    + simpl in Hds. apply andb_prop in Hds. destruct Hds as [Hc Hds].
      rewrite Hc. auto.
Qed.

Lemma digits_then_end_shape (s : string) :
  digits_then_end s = true <->
  exists digits tail,
    s = digits ++ tail /\ digits <> "" /\ all_digits digits = true
    /\ (tail = "" \/ tail = newline).
Proof.
  split.
  - destruct s as [|c r]; simpl; [discriminate|].
    intro H. apply andb_prop in H. destruct H as [Hc Hr].
    apply digits_to_end_shape in Hr. destruct Hr as [ds [tail [-> [Hds Ht]]]].
    exists (String c ds), tail. simpl. rewrite Hc.
    repeat split; auto. discriminate.
  - intros [ds [tail [-> [Hne [Hds Ht]]]]].
    destruct ds as [|c ds]; [congruence|]. simpl in *.
    apply andb_prop in Hds. destruct Hds as [Hc Hds]. rewrite Hc. simpl.
    apply digits_to_end_shape. now exists ds, tail.
Qed.

Lemma match_chat_id_shape (s : string) :
  match_chat_id s = true <-> chat_id_shape s.
Proof.
  unfold chat_id_shape. split.
  - destruct s as [|c r]; [discriminate|]. unfold match_chat_id.
    destruct (Ascii.eqb c "-") eqn:Ec.
    + apply Ascii.eqb_eq in Ec. subst c. intro H.
      apply digits_then_end_shape in H.
      destruct H as [ds [tail [-> [Hne [Hds Ht]]]]].
      exists "-", ds, tail. auto.
    + intro H. apply digits_then_end_shape in H.
      destruct H as [ds [tail [Heq [Hne [Hds Ht]]]]].
      exists "", ds, tail. auto.
  - intros [sign [ds [tail [-> [Hsign [Hne [Hds Ht]]]]]]].
    assert (Hrest : digits_then_end (ds ++ tail) = true)
      by (apply digits_then_end_shape; now exists ds, tail).
    destruct Hsign as [->| ->]; [|exact Hrest].
    destruct ds as [|c ds]; [congruence|].
    change (match_chat_id (String c (ds ++ tail)) = true).
    unfold match_chat_id.
    destruct (Ascii.eqb c "-") eqn:Ec; [|exact Hrest].
    apply Ascii.eqb_eq in Ec. subst c. discriminate.
Qed.

Lemma digits_to_end_uint (d : Decimal.uint) :
  digits_to_end (NilEmpty.string_of_uint d) = true.
Proof. induction d; simpl; auto. Qed.

Lemma digits_then_end_uint (d : Decimal.uint) :
  d <> Decimal.Nil -> digits_then_end (NilEmpty.string_of_uint d) = true.
Proof.
  destruct d; [congruence | ..]; intros _; simpl; apply digits_to_end_uint.
Qed.

Lemma match_chat_id_of_int (z : Z) : match_chat_id (PyStr.of_int z) = true.
Proof.
  unfold PyStr.of_int. destruct z as [|p|p]; simpl.
  - reflexivity.
  - pose proof (DecimalPos.Unsigned.to_uint_nonnil p) as Hne.
    pose proof (digits_then_end_uint _ Hne) as H.
    destruct (Pos.to_uint p) eqn:E; try congruence; simpl in *; exact H.
  - apply digits_then_end_uint, DecimalPos.Unsigned.to_uint_nonnil.
Qed.

(** X18: [config_telegram_chat_id] takes a chat id exactly when it is an
    optional minus sign followed by one decimal digit or more, with at most
    one final line feed: every integer as [str] prints it, negative ones
    among them, is taken.  A chat id that is taken is stored as it is, the
    token and the switch are kept; one that is refused changes no setting
    and writes no file. *)
Theorem config_telegram_chat_id_spec env chat st :
  (forall z, match_chat_id (PyStr.of_int z) = true)
  /\ (chat_id_shape chat ->
      telegram (config (config_telegram_chat_id env chat st))
      = mkTelegram (token (telegram (config st))) chat
          (enabled (telegram (config st))))
  /\ (~ chat_id_shape chat ->
      config (config_telegram_chat_id env chat st) = config st
      /\ trace (config_telegram_chat_id env chat st)
         = (trace st
            ++ [Print ("[" ++ env_strftime env (ticks st) ++ "] [" ++ "ERROR"
                       ++ "] " ++ "Invalid Telegram chat ID format")])%list).
Proof.
  split; [exact match_chat_id_of_int|]. unfold config_telegram_chat_id. split.
  - intro Hshape. apply match_chat_id_shape in Hshape. rewrite Hshape.
    rewrite (proj1 (log_frame _ _ _ _)), (proj1 (save_config_frame _ _)).
    reflexivity.
  - intro Hshape. destruct (match_chat_id chat) eqn:E.
    + apply match_chat_id_shape in E. contradiction.
    + split; reflexivity.
Qed.

Lemma config_telegram_chat_id_spec_witness :
  chat_id_shape "-1001234567890"
  /\ ~ chat_id_shape "@channel"
  /\ chat_id
       (telegram (config (config_telegram_chat_id web_host "-1001234567890"
                            watching)))
     = "-1001234567890"
  /\ config (config_telegram_chat_id web_host "@channel" watching)
     = config watching.
Proof.
  assert (Hgood : chat_id_shape "-1001234567890")
    by (apply match_chat_id_shape; reflexivity).
  assert (Hbad : ~ chat_id_shape "@channel").
  { intro H. apply match_chat_id_shape in H. discriminate H. }
  split; [exact Hgood|]. split; [exact Hbad|].
  destruct (config_telegram_chat_id_spec web_host "-1001234567890" watching)
    as [_ [Htaken _]].
  destruct (config_telegram_chat_id_spec web_host "@channel" watching)
    as [_ [_ Hrefused]].
  split; [now rewrite (Htaken Hgood) | apply (Hrefused Hbad)].
Defined.

Lemma steady_config_loop_gate env n st :
  may_post (config st) = false ->
  posts (trace (monitoring_loop env n st)) = posts (trace st).
Proof. intro H. now apply steady_monitoring_loop. Qed.

(** X19: once notifications are switched off with [config_telegram(False)],
    whatever token and chat are set, no turn of the monitoring loop sends
    anything to Telegram; and [config_telegram_token] refuses every token
    that starts with [bot], leaving the settings as they are, and stores any
    other token without touching the chat or the switch. *)
Theorem telegram_switch_and_token env env' tok n st :
  posts (trace (monitoring_loop env' n (config_telegram env (Some false) st)))
  = posts (trace st)
  /\ (String.prefix "bot" tok = true ->
      config (config_telegram_token env tok st) = config st)
  /\ (String.prefix "bot" tok = false ->
      telegram (config (config_telegram_token env tok st))
      = mkTelegram tok (chat_id (telegram (config st)))
          (enabled (telegram (config st)))).
Proof.
  split; [|split].
  - rewrite steady_config_loop_gate.
    + unfold config_telegram.
      set (s1 := with_telegram _ st).
      assert (H1 : posts (trace s1) = posts (trace st)) by reflexivity.
      rewrite <- H1.
      destruct (steady_log env ("Telegram notifications " ++ "disabled")
                  "INFO" (save_config env s1)) as [_ [_ Hlog]].
      destruct (steady_save_config env s1) as [Hcfg [_ Hsave]].
      assert (Hgate : may_post (config s1) = false) by reflexivity.
      rewrite Hlog by (now rewrite Hcfg). now apply Hsave.
    + unfold config_telegram.
      now rewrite (proj1 (log_frame _ _ _ _)), (proj1 (save_config_frame _ _)).
  - intro Hbot. unfold config_telegram_token. now rewrite Hbot.
  - intro Hbot. unfold config_telegram_token. rewrite Hbot. cbn [negb].
    now rewrite (proj1 (log_frame _ _ _ _)), (proj1 (save_config_frame _ _)).
Qed.

Lemma telegram_switch_and_token_witness :
  String.prefix "bot" "bot123:abc" = true
  /\ String.prefix "bot" "123:abc" = false
  /\ config (config_telegram_token web_host "bot123:abc" watching)
     = config watching
  /\ token (telegram (config (config_telegram_token web_host "123:abc"
                                watching)))
     = "123:abc".
Proof.
  split; [reflexivity|]. split; [reflexivity|].
  destruct (telegram_switch_and_token web_host web_host "bot123:abc" 0
              watching) as [_ [Hbot _]].
  destruct (telegram_switch_and_token web_host web_host "123:abc" 0 watching)
    as [_ [_ Hother]].
  split; [apply Hbot; reflexivity|]. now rewrite (Hother eq_refl).
Defined.

(** ** The history *)





(** ** The configuration file *)

Lemma dict_update_get (mine theirs : dict string Json) (k : string) :
  dict_wf theirs ->
  dict_get String.eqb (dict_update mine theirs) k
  = match dict_get String.eqb theirs k with
    | Some v => Some v
    | None => dict_get String.eqb mine k
    end.
Proof.
  unfold dict_update, dict_items, dict_wf. revert mine.
  induction theirs as [|[k0 v0] theirs IH]; intros mine Hwf; simpl;
    [reflexivity|].
  inversion Hwf as [|? ? Hnotin Hwf']; subst.
  rewrite IH by assumption.
  destruct (String.eqb k k0) eqn:E.
  - apply String.eqb_eq in E. subst k0.
    apply (dict_get_none String.eqb String_eqb_eq) in Hnotin.
    rewrite Hnotin. apply (dict_get_set_same String.eqb String_eqb_eq).
  - apply String.eqb_neq in E.
    rewrite (dict_get_set_other String.eqb String_eqb_eq) by assumption.
    reflexivity.
Qed.

Lemma merge_item_set (config : dict string Json) (item : string * Json) :
  merge_item config item
  = dict_set String.eqb config (fst item)
      (merged (dict_get String.eqb config (fst item)) (snd item)).
Proof.
  destruct item as [key value]. unfold merge_item, merged. simpl.
  destruct (dict_get String.eqb config key) as [[]|]; try reflexivity.
  now destruct value.
Qed.

Lemma merge_get (saved config : dict string Json) (k : string) :
  dict_wf saved ->
  dict_get String.eqb (fold_left merge_item saved config) k
  = match dict_get String.eqb saved k with
    | Some v => Some (merged (dict_get String.eqb config k) v)
    | None => dict_get String.eqb config k
    end.
Proof.
  unfold dict_wf. revert config.
  induction saved as [|[k0 v0] saved IH]; intros config Hwf;
    cbn [fold_left dict_get]; [reflexivity|].
  cbn [dict_keys map fst] in Hwf.
  inversion Hwf as [|? ? Hnotin Hwf']; subst.
  rewrite IH by assumption. rewrite merge_item_set. cbn [fst snd].
  destruct (String.eqb k k0) eqn:E.
  - apply String.eqb_eq in E. subst k0.
    apply (dict_get_none String.eqb String_eqb_eq) in Hnotin.
    rewrite Hnotin. apply (dict_get_set_same String.eqb String_eqb_eq).
  - apply String.eqb_neq in E.
    rewrite (dict_get_set_other String.eqb String_eqb_eq) by assumption.
    reflexivity.
Qed.

(** X21: [load_config] merges the file into the configuration one level
    deep: a key that the file lacks keeps its value; a key of the file
    replaces the value, except that, when both values are objects, the object
    of the file is laid over the one at hand, whose other keys stay; a
    missing or unreadable file leaves the configuration as it is. *)
Theorem load_config_merges (config saved : dict string Json) (k : string)
    (Hwf : dict_wf saved) :
  dict_get String.eqb (fst (load_config config (Some (Ok (JDict saved))))) k
  = match dict_get String.eqb saved k with
    | Some theirs =>
        Some match dict_get String.eqb config k, theirs with
             | Some (JDict mine), JDict theirs =>
                 JDict (dict_update mine theirs)
             | _, _ => theirs
             end
    | None => dict_get String.eqb config k
    end
  /\ (forall mine theirs k',
         dict_wf theirs ->
         dict_get String.eqb (dict_update mine theirs) k'
         = match dict_get String.eqb theirs k' with
           | Some v => Some v
           | None => dict_get String.eqb mine k'
           end)
  /\ load_config config None = (config, None)
  /\ forall e, fst (load_config config (Some (Raise e))) = config.
Proof.
  split; [|split; [|split; reflexivity]].
  - cbn [load_config fst dict_items]. rewrite merge_get by assumption.
    reflexivity.
  - intros mine theirs k' Hwf'. now apply dict_update_get.
Qed.

Lemma load_config_merges_witness :
  dict_wf [("telegram", JDict [("enabled", JBool true)])]
  /\ dict_get String.eqb
       (fst (load_config (config_dict DEFAULT_CONFIG)
               (Some (Ok (JDict [("telegram",
                                  JDict [("enabled", JBool true)])])))))
       "timeout"
     = Some (JInt 2).
Proof.
  assert (Hwf : dict_wf [("telegram", JDict [("enabled", JBool true)])]).
  { unfold dict_wf. simpl. constructor; [intros [] | constructor]. }
  split; [exact Hwf|].
  apply (load_config_merges (config_dict DEFAULT_CONFIG)
           [("telegram", JDict [("enabled", JBool true)])] "timeout" Hwf).
Defined.

(** X22: the configuration that [save_config] writes is read back as it
    was written: [save_config] writes the configuration at hand, whether the
    writing succeeds or not, and that document, loaded over the
    configuration of a tool that starts, or over any configuration, gives
    the saved one, every setting of the notifier included, and no error. *)
Theorem load_config_reads_saved env st (mine : Config) :
  In (WriteConfig (config st)) (trace (save_config env st))
  /\ config (save_config env st) = config st
  /\ load_config (config_dict mine) (Some (Ok (config_json (config st))))
     = (config_dict (config st), None).
Proof.
  split; [|split; [apply save_config_frame | reflexivity]].
  unfold save_config.
  destruct (env_write_config env (ticks st) (config st)) as [[]|e].
  - cbn [trace act tick]. apply in_or_app. right. now left.
  - unfold log. cbn [trace with_history act tick].
    apply in_or_app. left. apply in_or_app. right. now left.
Qed.

(** ** The ports asked on the command line *)

Lemma contains_char (c : ascii) (s : string) :
  PyStr.contains (String c EmptyString) s = has_char c s.
Proof.
  induction s as [|d s IH]; [reflexivity|].
  cbn [PyStr.contains has_char]. rewrite IH. f_equal.
  cbn [String.prefix]. destruct (ascii_dec c d) as [->|Hne].
  - rewrite Ascii.eqb_refl. now destruct s.
  - symmetry. apply Ascii.eqb_neq. congruence.
Qed.

Lemma has_char_app c (a b : string) :
  has_char c (a ++ b) = (has_char c a || has_char c b)%bool.
Proof.
  induction a as [|d a IH]; simpl; [reflexivity|].
  now rewrite IH, orb_assoc.
Qed.

Lemma split_on_nonempty sep s : split_on sep s <> [].
Proof.
  induction s as [|c s IH]; simpl; [discriminate|].
  destruct (Ascii.eqb c sep); [discriminate|].
  now destruct (split_on sep s).
Qed.

Lemma split_on_word sep (w : string) :
  has_char sep w = false -> split_on sep w = [w].
Proof.
  induction w as [|c w IH]; simpl; [reflexivity|].
  intro H. apply orb_false_elim in H. destruct H as [Hc Hw].
  rewrite Hc, (IH Hw). reflexivity.
Qed.

Lemma split_on_cons sep (w rest : string) :
  has_char sep w = false ->
  split_on sep (w ++ String sep rest) = w :: split_on sep rest.
Proof.
  induction w as [|c w IH]; simpl.
  - intros _. now rewrite Ascii.eqb_refl.
  - intro H. apply orb_false_elim in H. destruct H as [Hc Hw].
    rewrite Hc, (IH Hw). reflexivity.
Qed.

(** The words that [split] returns hold no separator, and hold no
    character that the text does not hold. *)
Lemma split_on_words sep c (s w : string) :
  In w (split_on sep s) ->
  has_char sep w = false /\ (has_char c w = true -> has_char c s = true).
Proof.
  revert w. induction s as [|d s IH]; intros w; simpl.
  - intros [<-|[]]. now split.
  - destruct (Ascii.eqb d sep) eqn:E.
    + intros [<-|H]; [split; [reflexivity | discriminate]|].
      destruct (IH w H) as [H1 H2]. split; [assumption|].
      intro Hc. rewrite (H2 Hc). apply orb_true_r.
    + pose proof (split_on_nonempty sep s) as Hne.
      destruct (split_on sep s) as [|w0 ws]; [congruence|].
      intros [<-|H].
      * destruct (IH w0 (or_introl eq_refl)) as [H1 H2]. simpl.
        rewrite E, H1. split; [reflexivity|].
        intro Hc. apply orb_prop in Hc. destruct Hc as [Hc|Hc].
        -- now rewrite Hc.
        -- rewrite (H2 Hc). apply orb_true_r.
      * destruct (IH w (or_intror H)) as [H1 H2]. split; [assumption|].
        intro Hc. rewrite (H2 Hc). apply orb_true_r.
Qed.

Lemma lstrip_chars c s : has_char c (lstrip s) = true -> has_char c s = true.
Proof.
  induction s as [|d s IH]; simpl; [trivial|].
  destruct (is_space d); [|trivial].
  intro H. rewrite (IH H). apply orb_true_r.
Qed.

Lemma rstrip_chars c s : has_char c (rstrip s) = true -> has_char c s = true.
Proof.
  induction s as [|d s IH]; simpl; [trivial|].
  destruct (rstrip s) as [|e r] eqn:E.
  - destruct (is_space d); simpl; [discriminate|].
    rewrite orb_false_r. intros ->. reflexivity.
  - simpl. intro H. apply orb_prop in H. destruct H as [H|H].
    + now rewrite H.
    + simpl in IH. rewrite (IH H). apply orb_true_r.
Qed.

Lemma strip_chars c s : has_char c (strip s) = true -> has_char c s = true.
Proof. intro H. now apply lstrip_chars, rstrip_chars. Qed.

Lemma int_magnitude_nonneg s z : int_magnitude s = Some z -> 0 <= z.
Proof.
  unfold int_magnitude. destruct (int_digits s false) as [ds|]; [|discriminate].
  destruct (NilEmpty.uint_of_string ds) as [d|]; [|discriminate].
  intros [= <-]. unfold Z.of_uint. apply N2Z.is_nonneg.
Qed.

(** [int] gives no negative number for a text without minus sign. *)
Lemma py_int_nonneg s z :
  has_char "-" s = false -> py_int s = Some z -> 0 <= z.
Proof.
  intros Hminus. unfold py_int.
  destruct (strip s) as [|c r] eqn:E; [discriminate|].
  destruct (Ascii.eqb c "-") eqn:Ec.
  - apply Ascii.eqb_eq in Ec. subst c.
    assert (H : has_char "-" (strip s) = true) by (now rewrite E).
    apply strip_chars in H. congruence.
  - destruct (Ascii.eqb c "+"); apply int_magnitude_nonneg.
Qed.

Lemma all_some_in {A} (l : list (option A)) (r : list A) (a : A) :
  all_some l = Some r -> In a r -> In (Some a) l.
Proof.
  revert r. induction l as [|[x|] l IH]; intros r; simpl.
  - intros [= <-] [].
  - destruct (all_some l) as [r'|]; [|discriminate].
    intros [= <-] [->|H]; [now left | right; now apply (IH r')].
  - discriminate.
Qed.

(** X23: the port argument never gives a negative port: whenever it is
    read without error, every port of the list is at least 0; in
    particular an argument that begins with a minus sign is refused. *)
Theorem parse_ports_never_negative (port_arg : string) (ports : list Z)
    (Hparsed : parse_ports port_arg = Some ports) :
  Forall (fun port => 0 <= port) ports.
Proof.
  unfold parse_ports in Hparsed. rewrite Forall_forall. intros port Hin.
  destruct (PyStr.contains "-" port_arg) eqn:Eminus.
  - pose proof (split_on_words "-" "-" port_arg) as Hwords.
    destruct (split_on "-" port_arg) as [|w1 [|w2 [|w3 ws]]];
      simpl in Hparsed; try discriminate.
    + destruct (py_int w1); discriminate.
    + destruct (py_int w1) as [start|] eqn:E1; [|discriminate].
      destruct (py_int w2) as [stop|] eqn:E2; [|discriminate].
      injection Hparsed as <-. apply range_in in Hin.
      destruct (Hwords w1 (or_introl eq_refl)) as [H1 _].
      pose proof (py_int_nonneg w1 start H1 E1). lia.
    + destruct (py_int w1); [|discriminate].
      destruct (py_int w2); discriminate.
  - rewrite contains_char in Eminus.
    apply (all_some_in _ _ _ Hparsed) in Hin.
    apply in_map_iff in Hin. destruct Hin as [w [Hw Hin]].
    destruct (split_on_words "," "-" port_arg w Hin) as [_ Hchars].
    apply (py_int_nonneg w port); [|assumption].
    destruct (has_char "-" w) eqn:E; [|reflexivity].
    rewrite (Hchars eq_refl) in Eminus. discriminate.
Qed.

Lemma parse_ports_never_negative_witness :
  parse_ports "1_0, +7 " = Some [10; 7]
  /\ Forall (fun port => 0 <= port) [10; 7].
Proof.
  assert (H : parse_ports "1_0, +7 " = Some [10; 7]) by reflexivity.
  split; [exact H|].
  apply (parse_ports_never_negative "1_0, +7 " [10; 7] H).
Defined.

Lemma digit_is_plain (c : ascii) :
  is_digit c = true ->
  is_space c = false /\ Ascii.eqb c "-" = false /\ Ascii.eqb c "+" = false
  /\ Ascii.eqb c "," = false.
Proof.
  destruct c as [[] [] [] [] [] [] [] []]; cbv; intro H;
    try discriminate H; repeat split.
Qed.

Lemma uint_digits (d : Decimal.uint) :
  all_digits (NilEmpty.string_of_uint d) = true.
Proof. induction d; simpl; auto. Qed.

Lemma rstrip_plain (s : string) : all_digits s = true -> rstrip s = s.
Proof.
  induction s as [|c s IH]; simpl; [reflexivity|].
  intro H. apply andb_prop in H. destruct H as [Hc Hs].
  rewrite (IH Hs). destruct (digit_is_plain c Hc) as [Hsp _].
  rewrite Hsp. now destruct s.
Qed.

Lemma strip_digits (s : string) : all_digits s = true -> strip s = s.
Proof.
  intro H. unfold strip.
  assert (Hl : lstrip s = s).
  { destruct s as [|c s]; [reflexivity|]. simpl in *.
    apply andb_prop in H. destruct H as [Hc _].
    destruct (digit_is_plain c Hc) as [Hsp _]. now rewrite Hsp. }
  rewrite Hl. now apply rstrip_plain.
Qed.

Lemma int_digits_plain (s : string) (after_digit : bool) :
  all_digits s = true ->
  (s <> "" \/ after_digit = true) ->
  int_digits s after_digit = Some s.
Proof.
  revert after_digit. induction s as [|c s IH]; intros b Hds Hne; simpl.
  - destruct Hne as [Hne| ->]; [congruence | reflexivity].
  - simpl in Hds. apply andb_prop in Hds. destruct Hds as [Hc Hs].
    rewrite Hc, (IH true Hs); [reflexivity | now right].
Qed.

Lemma int_magnitude_uint (d : Decimal.uint) :
  d <> Decimal.Nil ->
  int_magnitude (NilEmpty.string_of_uint d) = Some (Z.of_uint d).
Proof.
  intro Hne. unfold int_magnitude.
  rewrite int_digits_plain; [| apply uint_digits |].
  - now rewrite NilEmpty.usu.
  - left. destruct d; simpl; congruence.
Qed.

Lemma of_uint_pos (p : positive) : Z.of_uint (Pos.to_uint p) = Z.pos p.
Proof.
  unfold Z.of_uint. now rewrite DecimalPos.Unsigned.of_to.
Qed.

Lemma py_int_digits (d : Decimal.uint) :
  d <> Decimal.Nil ->
  py_int (NilEmpty.string_of_uint d) = Some (Z.of_uint d).
Proof.
  intro Hne. unfold py_int. rewrite strip_digits by apply uint_digits.
  pose proof (int_magnitude_uint d Hne) as Hm.
  pose proof (uint_digits d) as Hd.
  destruct (NilEmpty.string_of_uint d) as [|c r] eqn:E.
  - destruct d; simpl in E; congruence.
  - simpl in Hd. apply andb_prop in Hd. destruct Hd as [Hc _].
    destruct (digit_is_plain c Hc) as [_ [Hm1 [Hp1 _]]].
    now rewrite Hm1, Hp1.
Qed.

(** [int(str(n)) == n] *)
Lemma py_int_of_int (z : Z) : py_int (PyStr.of_int z) = Some z.
Proof.
  unfold PyStr.of_int. destruct z as [|p|p]; simpl.
  - reflexivity.
  - rewrite py_int_digits by apply DecimalPos.Unsigned.to_uint_nonnil.
    now rewrite of_uint_pos.
  - unfold py_int.
    assert (Hstrip : strip (String "-" (NilEmpty.string_of_uint (Pos.to_uint p)))
                     = String "-" (NilEmpty.string_of_uint (Pos.to_uint p))).
    { unfold strip. cbn [lstrip]. change (is_space "-") with false. cbv iota.
      cbn [rstrip]. rewrite rstrip_plain by apply uint_digits.
      change (is_space "-") with false.
      now destruct (NilEmpty.string_of_uint (Pos.to_uint p)). }
    rewrite Hstrip. rewrite Ascii.eqb_refl.
    rewrite int_magnitude_uint by apply DecimalPos.Unsigned.to_uint_nonnil.
    now rewrite of_uint_pos.
Qed.

Lemma of_int_nonneg_digits (z : Z) :
  0 <= z -> all_digits (PyStr.of_int z) = true.
Proof.
  intro Hz. unfold PyStr.of_int. destruct z as [|p|p]; simpl;
    [reflexivity | apply uint_digits | lia].
Qed.

Lemma digits_have_no (c : ascii) (s : string) :
  is_digit c = false -> all_digits s = true -> has_char c s = false.
Proof.
  intro Hc. induction s as [|d s IH]; simpl; [reflexivity|].
  intro H. apply andb_prop in H. destruct H as [Hd Hs].
  rewrite (IH Hs), orb_false_r. apply Ascii.eqb_neq. congruence.
Qed.

(** X24: an argument written [a-b], with the two bounds as [str] prints
    them, is read as the ports from [a] to [b], both included: no port when
    [b] is below [a]. *)
Theorem parse_ports_range (a b : Z) (Ha : 0 <= a) (Hb : 0 <= b) :
  parse_ports (PyStr.of_int a ++ "-" ++ PyStr.of_int b)
  = Some (range a (b + 1))
  /\ (forall port, In port (range a (b + 1)) <-> a <= port <= b)
  /\ NoDup (range a (b + 1)).
Proof.
  split; [|split; [|apply range_nodup]].
  - unfold parse_ports.
    pose proof (digits_have_no "-" _ eq_refl (of_int_nonneg_digits a Ha)) as Hna.
    pose proof (digits_have_no "-" _ eq_refl (of_int_nonneg_digits b Hb)) as Hnb.
    rewrite contains_char, has_char_app. simpl has_char at 2.
    rewrite orb_true_r.
    change (PyStr.of_int a ++ "-" ++ PyStr.of_int b)
      with (PyStr.of_int a ++ String "-" (PyStr.of_int b)).
    rewrite (split_on_cons "-" _ _ Hna), (split_on_word "-" _ Hnb).
    cbn [map]. now rewrite !py_int_of_int.
  - intro port. rewrite range_in. lia.
Qed.

Lemma parse_ports_range_witness :
  0 <= 20 /\ 0 <= 25
  /\ parse_ports "20-25" = Some [20; 21; 22; 23; 24; 25].
Proof.
  split; [lia|]. split; [lia|].
  apply (parse_ports_range 20 25); lia.
Defined.

Lemma join_of_int_no_minus (l : list Z) :
  Forall (fun port => 0 <= port) l ->
  has_char "-" (join "," (map PyStr.of_int l)) = false.
Proof.
  induction l as [|x l IH]; intro H; [reflexivity|].
  inversion H as [|? ? Hx Hl]; subst.
  pose proof (digits_have_no "-" _ eq_refl (of_int_nonneg_digits x Hx)) as Hnx.
  destruct l as [|y l]; [exact Hnx|].
  change (join "," (map PyStr.of_int (x :: y :: l)))
    with (PyStr.of_int x ++ String "," (join "," (map PyStr.of_int (y :: l)))).
  rewrite has_char_app, Hnx. cbn [has_char orb].
  change (Ascii.eqb "," "-") with false. cbn [orb]. now apply IH.
Qed.

Lemma split_join_of_int (l : list Z) :
  l <> [] ->
  Forall (fun port => 0 <= port) l ->
  split_on "," (join "," (map PyStr.of_int l)) = map PyStr.of_int l.
Proof.
  induction l as [|x l IH]; intros Hne H; [congruence|].
  inversion H as [|? ? Hx Hl]; subst.
  pose proof (digits_have_no "," _ eq_refl (of_int_nonneg_digits x Hx)) as Hnx.
  destruct l as [|y l].
  - simpl. now apply split_on_word.
  - change (join "," (map PyStr.of_int (x :: y :: l)))
      with (PyStr.of_int x ++ String "," (join "," (map PyStr.of_int (y :: l)))).
    rewrite (split_on_cons "," _ _ Hnx), IH; [reflexivity | discriminate |
                                               assumption].
Qed.

Lemma all_some_of_int (l : list Z) :
  all_some (map py_int (map PyStr.of_int l)) = Some l.
Proof.
  induction l as [|x l IH]; simpl; [reflexivity|].
  now rewrite py_int_of_int, IH.
Qed.

(** X25: an argument that lists ports between commas, each as [str]
    prints it, is read as that list, in the order given and with its
    repeats. *)
Theorem parse_ports_list (l : list Z)
    (Hne : l <> []) (Hports : Forall (fun port => 0 <= port) l) :
  parse_ports (join "," (map PyStr.of_int l)) = Some l.
Proof.
  unfold parse_ports.
  rewrite contains_char, (join_of_int_no_minus l Hports).
  rewrite (split_join_of_int l Hne Hports). apply all_some_of_int.
Qed.

Lemma parse_ports_list_witness :
  [80; 443; 80] <> [] /\ Forall (fun port => 0 <= port) [80; 443; 80]
  /\ parse_ports "80,443,80" = Some [80; 443; 80].
Proof.
  assert (Hne : [80; 443; 80] <> []) by discriminate.
  assert (Hports : Forall (fun port => 0 <= port) [80; 443; 80])
    by (repeat constructor; lia).
  split; [exact Hne|]. split; [exact Hports|].
  apply (parse_ports_list [80; 443; 80] Hne Hports).
Defined.

(** ** The notifier *)

(** X26: [send_telegram_message] never raises.  It answers [True] exactly
    when the token and the chat are set and Telegram answers with status
    200; when the token or the chat is missing it sends nothing and leaves
    the state as it is, and otherwise it sends exactly one request. *)
Theorem send_telegram_message_spec env message st :
  let credentials :=
    (PyStr.truthy (token (telegram (config st)))
     && PyStr.truthy (chat_id (telegram (config st))))%bool in
  fst (send_telegram_message env message st)
  = (credentials
     && match env_post env (ticks st) (token (telegram (config st)))
                (chat_id (telegram (config st))) message with
        | Ok status => status =? 200
        | Raise _ => false
        end)%bool
  /\ posts (trace (snd (send_telegram_message env message st)))
     = (posts (trace st)
        ++ if credentials
           then [TelegramPost (token (telegram (config st)))
                   (chat_id (telegram (config st))) message]
           else [])%list
  /\ (credentials = false -> snd (send_telegram_message env message st) = st).
Proof.
  intro credentials. unfold credentials, send_telegram_message.
  destruct (PyStr.truthy (token (telegram (config st))));
    destruct (PyStr.truthy (chat_id (telegram (config st))));
    cbn [negb orb andb fst snd]; try (rewrite app_nil_r; now repeat split).
  destruct (env_post env (ticks st) _ _ message); cbn [fst snd].
  - split; [reflexivity|]. split; [|discriminate].
    cbn [trace act tick]. unfold posts. now rewrite filter_app.
  - split; [reflexivity|]. split; [|discriminate].
    destruct (steady_log env ("Telegram API error: " ++ exn_str e) "ERROR"
                (act (TelegramPost (token (telegram (config st)))
                        (chat_id (telegram (config st))) message) (tick st)))
      as [_ [_ H]].
    unfold log. cbn [trace with_history act tick]. unfold posts.
    rewrite !filter_app. cbn [filter is_post]. now rewrite app_nil_r.
Qed.

Lemma send_telegram_message_spec_witness :
  (PyStr.truthy (token (telegram (config watching)))
   && PyStr.truthy (chat_id (telegram (config watching))))%bool = false
  /\ snd (send_telegram_message web_host "hello" watching) = watching.
Proof.
  split; [reflexivity|].
  apply (send_telegram_message_spec web_host "hello" watching). reflexivity.
Defined.

(** ** The snapshots that the monitor keeps *)

Lemma stays_refl st : stays_well_kept st st.
Proof. now intro. Qed.

Lemma stays_trans a b c :
  stays_well_kept a b -> stays_well_kept b c -> stays_well_kept a c.
Proof. unfold stays_well_kept. auto. Qed.

Lemma stays_same st st' :
  monitored_ips st' = monitored_ips st -> stays_well_kept st st'.
Proof. intros H [H1 H2]. unfold well_kept. now rewrite H. Qed.

Lemma stays_store ip m st :
  dict_wf (last_scan m) -> stays_well_kept st (store ip m st).
Proof.
  intros Hm [Hkeys Hscans]. unfold store. split;
    cbn [monitored_ips with_monitored_ips].
  - now apply (dict_set_wf String.eqb String_eqb_eq).
  - intros other mo. destruct (String.eqb other ip) eqn:E.
    + apply String.eqb_eq in E. subst other.
      rewrite (dict_get_set_same String.eqb String_eqb_eq).
      now intros [= <-].
    + apply String.eqb_neq in E.
      rewrite (dict_get_set_other String.eqb String_eqb_eq) by assumption.
      apply Hscans.
Qed.

Lemma stays_set_last_scan ip scan :
  dict_wf scan -> preserves stays_well_kept (set_last_scan ip scan).
Proof.
  intros Hscan st. unfold set_last_scan, bind, entry, exec.
  destruct (dict_get String.eqb (monitored_ips st) ip) as [m|] eqn:E;
    cbn [snd]; [|apply stays_refl].
  now apply stays_store.
Qed.

Lemma stays_extend_changes ip new :
  preserves stays_well_kept (extend_changes ip new).
Proof.
  intro st. unfold extend_changes, bind, entry, exec.
  destruct (dict_get String.eqb (monitored_ips st) ip) as [m|] eqn:E;
    cbn [snd]; [|apply stays_refl].
  intro Hst. apply stays_store; [|assumption]. cbn [last_scan].
  destruct Hst as [_ Hscans]. now apply (Hscans ip).
Qed.

(** What follows a scan may rely on its snapshot being a dictionary. *)
Lemma stays_after_scan {B} env ip ports (k : Scan -> M B) :
  (forall snapshot, dict_wf snapshot -> preserves stays_well_kept (k snapshot)) ->
  preserves stays_well_kept (bind (scan_ports env ip ports) k).
Proof.
  intros Hk st. unfold bind.
  destruct (scan_ports env ip ports st) as [[snap|e] st1] eqn:E.
  - apply (stays_trans _ st1).
    + apply stays_same.
      pose proof (proj2 (scan_ports_frame env ip ports st)) as H.
      now rewrite E in H.
    + apply Hk. now apply (scan_ports_snapshot_wf env ip ports st snap st1).
  - cbn [snd]. apply stays_same.
    pose proof (proj2 (scan_ports_frame env ip ports st)) as H.
    now rewrite E in H.
Qed.

Lemma stays_exec_same (f : State -> State) :
  (forall st, monitored_ips (f st) = monitored_ips st) ->
  preserves stays_well_kept (exec f).
Proof. intros H st. apply stays_same, H. Qed.

Lemma stays_run_same {A} (f : State -> A * State) :
  (forall st, monitored_ips (snd (f st)) = monitored_ips st) ->
  preserves stays_well_kept (run f).
Proof. intro H. apply preserves_run. intro st. apply stays_same, H. Qed.

Lemma stays_entry ip : preserves stays_well_kept (entry ip).
Proof.
  intro st. unfold entry.
  destruct (dict_get String.eqb (monitored_ips st) ip); apply stays_refl.
Qed.

Lemma stays_exec_log env message level :
  preserves stays_well_kept (exec (log env message level)).
Proof. apply stays_exec_same. intro st. apply log_frame. Qed.

Lemma stays_exec_notify env message :
  preserves stays_well_kept (exec (notify env message)).
Proof. apply stays_exec_same. intro st. apply notify_frame. Qed.

Lemma stays_exec_save_config env :
  preserves stays_well_kept (exec (save_config env)).
Proof. apply stays_exec_same. intro st. apply save_config_frame. Qed.

Lemma stays_run_detect_changes env old new ip :
  preserves stays_well_kept (run (detect_changes env old new ip)).
Proof. apply stays_run_same. intro st. apply detect_changes_frame. Qed.

Lemma stays_run_now_iso env : preserves stays_well_kept (run (now_iso env)).
Proof. now apply stays_run_same. Qed.

Lemma stays_run_ping_ip env ip : preserves stays_well_kept (run (ping_ip env ip)).
Proof. apply stays_run_same. intro st. apply ping_ip_frame. Qed.

Create HintDb stays.

#[local] Hint Resolve stays_extend_changes stays_entry stays_exec_log
  stays_exec_notify stays_exec_save_config stays_run_detect_changes
  stays_run_now_iso stays_run_ping_ip : stays.

Lemma stays_monitor_ip env ip st : stays_well_kept st (monitor_ip env ip st).
Proof.
  unfold monitor_ip.
  apply (preserves_try_except stays_well_kept stays_trans
           (scan_and_diff env ip)); [|intro e; apply stays_exec_log].
  unfold scan_and_diff. cbv zeta.
  apply (preserves_bind _ stays_trans); [apply stays_exec_log | intros _].
  apply stays_after_scan. intros snapshot Hwf.
  apply (preserves_bind _ stays_trans); [apply stays_entry | intro m].
  apply (preserves_bind _ stays_trans);
    [apply stays_run_detect_changes | intro chs].
  destruct (nonempty chs); [|apply stays_exec_log].
  apply (preserves_bind _ stays_trans); [apply stays_extend_changes | intros _].
  apply (preserves_bind _ stays_trans);
    [now apply stays_set_last_scan | intros _].
  walk stays_refl stays_trans ltac:(auto with stays).
Qed.

Lemma stays_monitoring_loop env n :
  forall st, stays_well_kept st (monitoring_loop env n st).
Proof.
  induction n as [|n IH]; intro st; simpl; [apply stays_refl|].
  destruct (scanning_active st); [|apply stays_refl].
  apply (stays_trans _ (monitoring_cycle env st)); [|apply IH].
  unfold monitoring_cycle. set (st1 := fold_left _ _ st).
  apply (stays_trans _ st1).
  - apply (preserves_fold _ stays_refl stays_trans).
    intros s ip. apply stays_monitor_ip.
  - now apply stays_same.
Qed.

Lemma stays_start_monitoring env ip st :
  stays_well_kept st (snd (start_monitoring env ip st)).
Proof.
  unfold start_monitoring.
  destruct (dict_mem String.eqb ip (monitored_ips st)).
  - refine ((_ : preserves stays_well_kept _) st).
    walk stays_refl stays_trans ltac:(auto with stays).
  - refine ((_ : preserves stays_well_kept _) st).
    apply (preserves_bind _ stays_trans); [apply stays_run_ping_ip | intro].
    apply (preserves_bind _ stays_trans).
    { destruct (negb a); [apply stays_exec_log |
                           apply (preserves_ret _ stays_refl)]. }
    intros _.
    apply (preserves_bind _ stays_trans); [apply stays_run_now_iso | intro].
    apply (preserves_bind _ stays_trans).
    { apply preserves_exec. intro s. apply stays_store. constructor. }
    intros _.
    apply (preserves_bind _ stays_trans); [apply stays_exec_log | intros _].
    apply stays_after_scan. intros snapshot Hwf.
    apply (preserves_bind _ stays_trans);
      [now apply stays_set_last_scan | intros _].
    walk stays_refl stays_trans ltac:(auto with stays).
Qed.

Lemma stays_stop_monitoring env ip st :
  stays_well_kept st (stop_monitoring env ip st).
Proof.
  unfold stop_monitoring.
  destruct (dict_mem String.eqb ip (monitored_ips st));
    [|apply stays_same, log_frame].
  intros [Hkeys Hscans]. unfold well_kept.
  rewrite (proj2 (notify_frame _ _ _)), (proj2 (save_config_frame _ _)),
    (proj1 (proj2 (log_frame _ _ _ _))).
  cbn [monitored_ips with_monitored_ips]. split; [now apply dict_del_wf|].
  intros other m Hget. destruct (String.eqb other ip) eqn:E.
  - apply String.eqb_eq in E. subst other.
    pose proof (dict_mem_del String.eqb String_eqb_eq _ ip Hkeys) as Hgone.
    unfold dict_mem in Hgone. now rewrite Hget in Hgone.
  - apply String.eqb_neq in E.
    rewrite (dict_get_del_other String.eqb String_eqb_eq) in Hget
      by assumption.
    now apply (Hscans other).
Qed.

(** X27: the monitor keeps its records in order: if the monitored addresses
    are pairwise distinct and every last snapshot has pairwise distinct
    ports, this is still so after an address is added, after one is
    removed, and after any number of turns of the monitoring loop; it is
    so for a tool that monitors nothing. *)
Theorem monitor_keeps_dictionaries env ip n st (Hkept : well_kept st) :
  well_kept (snd (start_monitoring env ip st))
  /\ well_kept (stop_monitoring env ip st)
  /\ well_kept (monitoring_loop env n st)
  /\ well_kept (with_monitored_ips [] st).
Proof.
  split; [now apply stays_start_monitoring|].
  split; [now apply stays_stop_monitoring|].
  split; [now apply stays_monitoring_loop|].
  split; [constructor | discriminate].
Qed.

Lemma monitor_keeps_dictionaries_witness :
  well_kept unseen /\ well_kept (monitoring_loop web_host 2 unseen).
Proof.
  assert (H : well_kept unseen).
  { split.
    - unfold dict_wf. simpl. constructor; [intros [] | constructor].
    - intros ip m. simpl. destruct (String.eqb ip "10.0.0.1"); [|discriminate].
      intros [= <-]. constructor. }
  split; [exact H|].
  exact (proj1 (proj2 (proj2
           (monitor_keeps_dictionaries web_host "10.0.0.1" 2 unseen H)))).
Defined.
